(** * Complementry: the completion-request coordinator, the prompt builder
    and the per-document settings, embedded from the TypeScript sources.

    Two variants of the extension are modelled.  The promise based one
    ([CompletionRequestManager]) is the current design; the stored-result one
    ([CompletionTriggerManager], module [Legacy]) is the earlier design that
    is still shipped as [src/extension.ts]. *)

From Stdlib Require Import Ascii String.
From stdpp Require Import base option list gmap strings pretty.

(** ** JavaScript strings

    A JavaScript string is a sequence of UTF-16 code units; the regular
    expressions of the program have no [u] flag, so they work on code units
    too.  Code units are modelled by the characters of [string]. *)

(** [startsWith pat s]: [pat] occurs in [s] at offset 0. *)
Fixpoint startsWith (pat s : string) : bool :=
  match pat with
  | EmptyString => true
  | String a pat' =>
      match s with
      | EmptyString => false
      | String b s' => if Ascii.eqb a b then startsWith pat' s' else false
      end
  end.

(** [dropChars n s]: [s.substring(n)]. *)
Fixpoint dropChars (n : nat) (s : string) : string :=
  match n with
  | O => s
  | S k => match s with
           | EmptyString => EmptyString
           | String _ s' => dropChars k s'
           end
  end.

Definition DOLLAR : ascii := "$"%char.

(** [GetSubstitution] of ECMA-262 for a pattern without capture groups: in a
    replacement STRING, [$$] stands for one dollar sign, [$&] for the matched
    text, [$`] for the text before the match and [$'] for the text after it.
    [$1] .. [$99] and [$<] stay literal, since the patterns of this program
    have no groups. *)
Fixpoint getSubstitution (matched before after replacement : string) : string :=
  match replacement with
  | EmptyString => EmptyString
  | String c r =>
      if Ascii.eqb c DOLLAR then
        match r with
        | EmptyString => String c EmptyString
        | String d r' =>
            if Ascii.eqb d DOLLAR then
              String DOLLAR (getSubstitution matched before after r')
            else if Ascii.eqb d "&"%char then
              matched +:+ getSubstitution matched before after r'
            else if Ascii.eqb d "`"%char then
              before +:+ getSubstitution matched before after r'
            else if Ascii.eqb d "'"%char then
              after +:+ getSubstitution matched before after r'
            else String c (getSubstitution matched before after r)
        end
      else String c (getSubstitution matched before after r)
  end.

(** [s.replace(/pat/g, replacement)] for a literal, non-empty [pat]: the
    matches are found left to right in the ORIGINAL string and do not overlap.
    [before] is the part of the original string already scanned, [skip] counts
    the characters of the current match that are still to be passed over. *)
Fixpoint replaceFrom (pat replacement before : string) (skip : nat) (s : string)
  : string :=
  match s with
  | EmptyString => EmptyString
  | String c s' =>
      let before' := before +:+ String c EmptyString in
      match skip with
      | S k => replaceFrom pat replacement before' k s'
      | O =>
          if startsWith pat s then
            getSubstitution pat before (dropChars (String.length pat) s) replacement
              +:+ replaceFrom pat replacement before' (String.length pat - 1) s'
          else String c (replaceFrom pat replacement before' 0 s')
      end
  end.

Definition replaceAll (pat replacement s : string) : string :=
  replaceFrom pat replacement EmptyString 0 s.

Definition LF : string := String (ascii_of_nat 10) EmptyString.

(** [s.substring(0, n)]. *)
Fixpoint takeChars (n : nat) (s : string) : string :=
  match n with
  | O => EmptyString
  | S k => match s with
           | EmptyString => EmptyString
           | String c s' => String c (takeChars k s')
           end
  end.

(** JavaScript truthiness of a [string | undefined] value: [undefined] and
    the empty string are falsy. *)
Definition truthy (v : option string) : bool :=
  match v with
  | Some (String _ _) => true
  | _ => false
  end.

(** [v || fallback] on [string | undefined]. *)
Definition orElse (v : option string) (fallback : string) : string :=
  match v with
  | Some (String c s) => String c s
  | _ => fallback
  end.

(** [v || null]. *)
Definition orNull (v : option string) : option string :=
  if truthy v then v else None.

(** ** Exceptions

    A call either returns or throws; [tryCatch] is the [try { } catch { }]
    statement. *)

Inductive Exc (A : Type) : Type :=
  | Returned (a : A)
  | Thrown (error : string).
Arguments Returned {A} a.
Arguments Thrown {A} error.

Definition bindExc {A B} (m : Exc A) (k : A -> Exc B) : Exc B :=
  match m with
  | Returned a => k a
  | Thrown e => Thrown e
  end.

Definition tryCatch {A} (body : Exc A) (handler : string -> Exc A) : Exc A :=
  match body with
  | Returned a => Returned a
  | Thrown e => handler e
  end.

(** ** Host data: positions, documents, completion items *)

Record Position := { line : nat; character : nat }.

Record InlineCompletionItem := {
  insertText : string;
  range : option (Position * Position)
}.

Global Instance Position_eq_dec : EqDecision Position.
Proof. solve_decision. Defined.
Global Instance InlineCompletionItem_eq_dec : EqDecision InlineCompletionItem.
Proof. solve_decision. Defined.

Record TextDocument := {
  uri : string;
  languageId : string;
  getText : string
}.

(** [document.offsetAt(position)] for a buffer with LF line ends.  The host
    clamps a position to the buffer: a character past the end of its line is
    the end of the line, a line past the last one is the end of the text. *)
Fixpoint offsetAt (text : string) (ln ch : nat) : nat :=
  match text with
  | EmptyString => 0
  | String c rest =>
      match ln with
      | O =>
          match ch with
          | O => 0
          | S k => if Ascii.eqb c (ascii_of_nat 10) then 0
                   else S (offsetAt rest 0 k)
          end
      | S l =>
          if Ascii.eqb c (ascii_of_nat 10) then S (offsetAt rest l ch)
          else S (offsetAt rest ln ch)
      end
  end.

(** [document.getText(new Range(new Position(0, 0), position))]. *)
Definition textBefore (document : TextDocument) (position : Position) : string :=
  takeChars (offsetAt (getText document) (line position) (character position))
            (getText document).

(** [document.getText(new Range(position, <end of document>))]. *)
Definition textAfter (document : TextDocument) (position : Position) : string :=
  dropChars (offsetAt (getText document) (line position) (character position))
            (getText document).

(** ** DocumentSettingsManager *)

Record DocumentSettings := {
  promptTemplate : option string;
  contextFiles : list string
}.

Definition emptySettings : DocumentSettings :=
  {| promptTemplate := None; contextFiles := [] |}.

(** [getSettings]: the entry is created on first access; the returned object
    IS the entry of the map, so the pair is (map after the call, entry). *)
Definition getSettings (documentUri : string) (settings : gmap string DocumentSettings)
  : gmap string DocumentSettings * DocumentSettings :=
  let settings' :=
    match settings !! documentUri with
    | None => <[documentUri := emptySettings]> settings
    | Some _ => settings
    end in
  (settings', default emptySettings (settings' !! documentUri)).

Definition setPromptTemplate (documentUri template : string)
    (settings : gmap string DocumentSettings) : gmap string DocumentSettings :=
  let '(settings', entry) := getSettings documentUri settings in
  <[documentUri := {| promptTemplate := Some template;
                      contextFiles := contextFiles entry |}]> settings'.

(** [Array.prototype.includes] on strings. *)
Definition includes (x : string) (l : list string) : bool :=
  bool_decide (x ∈ l).

(** [Array.prototype.indexOf]: the first index of [x], or -1. *)
Fixpoint indexOfFrom (i : Z) (x : string) (l : list string) : Z :=
  match l with
  | [] => -1
  | y :: l' => if decide (y = x) then i else indexOfFrom (i + 1) x l'
  end.

Definition indexOf (x : string) (l : list string) : Z := indexOfFrom 0 x l.

Definition addContextFile (documentUri filePath : string)
    (settings : gmap string DocumentSettings) : gmap string DocumentSettings :=
  let '(settings', entry) := getSettings documentUri settings in
  if negb (includes filePath (contextFiles entry)) then
    <[documentUri := {| promptTemplate := promptTemplate entry;
                        contextFiles := contextFiles entry ++ [filePath] |}]> settings'
  else settings'.

(** [splice(index, 1)] is [delete index] on the list. *)
Definition removeContextFile (documentUri filePath : string)
    (settings : gmap string DocumentSettings) : gmap string DocumentSettings :=
  let '(settings', entry) := getSettings documentUri settings in
  let index := indexOf filePath (contextFiles entry) in
  if (-1 <? index)%Z then
    <[documentUri := {| promptTemplate := promptTemplate entry;
                        contextFiles := delete (Z.to_nat index) (contextFiles entry) |}]>
      settings'
  else settings'.

Definition getContextFiles (documentUri : string)
    (settings : gmap string DocumentSettings)
  : gmap string DocumentSettings * list string :=
  let '(settings', entry) := getSettings documentUri settings in
  (settings', contextFiles entry).

(** The settings commands, for sequences of calls. *)
Inductive SettingsOp :=
  | OpGetSettings (documentUri : string)
  | OpSetPromptTemplate (documentUri template : string)
  | OpAddContextFile (documentUri filePath : string)
  | OpRemoveContextFile (documentUri filePath : string).

Definition settingsStep (settings : gmap string DocumentSettings) (op : SettingsOp)
  : gmap string DocumentSettings :=
  match op with
  | OpGetSettings d => fst (getSettings d settings)
  | OpSetPromptTemplate d t => setPromptTemplate d t settings
  | OpAddContextFile d f => addContextFile d f settings
  | OpRemoveContextFile d f => removeContextFile d f settings
  end.

Definition runSettings (ops : list SettingsOp) : gmap string DocumentSettings :=
  foldl settingsStep ∅ ops.

(** What a caller sees for a document: its entry, or the default one that the
    next access would create. *)
Definition settingsOf (documentUri : string) (settings : gmap string DocumentSettings)
  : DocumentSettings :=
  snd (getSettings documentUri settings).

(** ** PromptBuilder *)

Definition CURSOR_MARKER : string := "[CURSOR HERE]".

(** The template literal appended for one loaded context file. *)
Definition contextBlock (filePath text : string) : string :=
  LF +:+ "--- Context from " +:+ filePath +:+ " ---" +:+ LF +:+ text +:+ LF.

(** The loop over [settings.contextFiles]; [openTextDocument] is the host call
    that throws for a missing or unreadable file. *)
Fixpoint loadContextFiles (openTextDocument : string -> Exc string)
    (contextContent : string) (paths : list string) : Exc string :=
  match paths with
  | [] => Returned contextContent
  | filePath :: rest =>
      bindExc
        (tryCatch
           (bindExc (openTextDocument filePath) (fun text =>
              Returned (contextContent +:+ contextBlock filePath text)))
           (fun _ => Returned contextContent))
        (fun contextContent' =>
           loadContextFiles openTextDocument contextContent' rest)
  end.

(** Following the specification: the context is the concatenation, in the
    order of the configured paths, of the blocks of the files that can be
    loaded; a file that cannot be loaded contributes nothing. *)
Fixpoint loadedContext (openTextDocument : string -> Exc string)
    (paths : list string) : string :=
  match paths with
  | [] => EmptyString
  | filePath :: rest =>
      match openTextDocument filePath with
      | Returned text =>
          contextBlock filePath text +:+ loadedContext openTextDocument rest
      | Thrown _ => loadedContext openTextDocument rest
      end
  end.

(** The chain of five [replace] calls, with the text put in for [{cursor}] as
    a parameter. *)
Definition replaceTemplateVariablesWith (marker : string)
    (template fullDocument textBeforeCursor textAfterCursor contextContent : string)
  : string :=
  replaceAll "{cursor}" marker
    (replaceAll "{context_files}" contextContent
       (replaceAll "{after_cursor}" textAfterCursor
          (replaceAll "{before_cursor}" textBeforeCursor
             (replaceAll "{document}" fullDocument template)))).

Definition replaceTemplateVariables :=
  replaceTemplateVariablesWith CURSOR_MARKER.

(** [buildPrompt] reads the settings (creating the entry on first access),
    so it returns the settings map too. *)
Definition buildPrompt (openTextDocument : string -> Exc string)
    (settings : gmap string DocumentSettings)
    (document : TextDocument) (position : Position) (defaultTemplate : string)
  : gmap string DocumentSettings * Exc string :=
  let '(settings', entry) := getSettings (uri document) settings in
  let template := orElse (promptTemplate entry) defaultTemplate in
  let textBeforeCursor := textBefore document position in
  let textAfterCursor := textAfter document position in
  let fullDocument := getText document in
  (settings',
   bindExc (loadContextFiles openTextDocument EmptyString (contextFiles entry))
     (fun contextContent =>
        Returned (replaceTemplateVariables template fullDocument
                    textBeforeCursor textAfterCursor contextContent))).

(** The placeholders, to speak about the order of the replacements. *)
Inductive Placeholder :=
  | PDocument | PBeforeCursor | PAfterCursor | PContextFiles | PCursor.

Global Instance Placeholder_eq_dec : EqDecision Placeholder.
Proof. solve_decision. Defined.

Definition token (p : Placeholder) : string :=
  match p with
  | PDocument => "{document}"
  | PBeforeCursor => "{before_cursor}"
  | PAfterCursor => "{after_cursor}"
  | PContextFiles => "{context_files}"
  | PCursor => "{cursor}"
  end.

Record PromptContext := {
  fullDocument : string;
  textBeforeCursor : string;
  textAfterCursor : string;
  contextContent : string
}.

Definition content (marker : string) (env : PromptContext) (p : Placeholder) : string :=
  match p with
  | PDocument => fullDocument env
  | PBeforeCursor => textBeforeCursor env
  | PAfterCursor => textAfterCursor env
  | PContextFiles => contextContent env
  | PCursor => marker
  end.

(** The replacements applied one after the other in a given order. *)
Definition replaceInOrder (marker : string) (env : PromptContext)
    (order : list Placeholder) (template : string) : string :=
  foldl (fun s p => replaceAll (token p) (content marker env p) s) template order.

Definition sourceOrder : list Placeholder :=
  [PDocument; PBeforeCursor; PAfterCursor; PContextFiles; PCursor].

(** A template cut into literal text and placeholder occurrences. *)
Inductive Segment :=
  | Lit (s : string)
  | Hole (p : Placeholder).

Definition render (seg : Segment) : string :=
  match seg with
  | Lit s => s
  | Hole p => token p
  end.

Definition expand (marker : string) (env : PromptContext) (seg : Segment) : string :=
  match seg with
  | Lit s => s
  | Hole p => content marker env p
  end.

Fixpoint concatMap (f : Segment -> string) (segs : list Segment) : string :=
  match segs with
  | [] => EmptyString
  | seg :: rest => f seg +:+ concatMap f rest
  end.

(** [clash pat s]: [pat] and [s] differ at a position both have, so neither
    is a prefix of the other. *)
Fixpoint clash (pat s : string) : bool :=
  match pat, s with
  | String a pat', String b s' => if Ascii.eqb a b then clash pat' s' else true
  | _, _ => false
  end.

(** [inertFor pat s]: no occurrence of [pat] can start inside [s], whatever
    text follows [s]. *)
Fixpoint inertFor (pat s : string) : bool :=
  match s with
  | EmptyString => true
  | String _ s' => clash pat s && inertFor pat s'
  end.

Fixpoint dollarFree (s : string) : bool :=
  match s with
  | EmptyString => true
  | String c s' => negb (Ascii.eqb c DOLLAR) && dollarFree s'
  end.

(** One replacement seen on the segments: the occurrences of [p] become the
    literal text [rep]. *)
Definition fillHole (p : Placeholder) (rep : string) (seg : Segment) : Segment :=
  match seg with
  | Lit s => Lit s
  | Hole q => if decide (q = p) then Lit rep else Hole q
  end.

(** ** Where the replacements are exact, and where they reach into inserted text *)

(** [occursIn pat s]: [s.includes(pat)]. *)
Fixpoint occursIn (pat s : string) {struct s} : bool :=
  startsWith pat s ||
  match s with
  | EmptyString => false
  | String _ s' => occursIn pat s'
  end.

Definition isPatternChar (d : ascii) : bool :=
  Ascii.eqb d DOLLAR || Ascii.eqb d "&"%char || Ascii.eqb d "`"%char
  || Ascii.eqb d "'"%char.

(** A replacement text with none of the patterns [$$], [$&], [$`] and [$'],
    the ones that [getSubstitution] expands.  Any other dollar sign is
    literal. *)
Fixpoint patternFree (rep : string) : bool :=
  match rep with
  | EmptyString => true
  | String c r =>
      match r with
      | String d _ => negb (Ascii.eqb c DOLLAR && isPatternChar d)
      | EmptyString => true
      end && patternFree r
  end.

(** [noMatchIn pat s rest]: in the text [s +:+ rest] no occurrence of [pat]
    starts inside [s]. *)
Fixpoint noMatchIn (pat s rest : string) : bool :=
  match s with
  | EmptyString => true
  | String _ s' => negb (startsWith pat (s +:+ rest)) && noMatchIn pat s' rest
  end.

(** The token of [p] occurs in the rendered segments at the holes of [p]
    only. *)
Fixpoint holesOnly (p : Placeholder) (segs : list Segment) : bool :=
  match segs with
  | [] => true
  | Lit s :: rest =>
      noMatchIn (token p) s (concatMap render rest) && holesOnly p rest
  | Hole _ :: rest => holesOnly p rest
  end.

Definition hasHole (p : Placeholder) (segs : list Segment) : bool :=
  existsb (fun seg => match seg with
                      | Lit _ => false
                      | Hole q => bool_decide (q = p)
                      end) segs.

(** The replacement of [p] by [rep] is exact on [segs]: the token occurs only
    where the holes are and, if there is a hole, [rep] holds no pattern; or
    [rep] is the token itself, and the replacement changes nothing. *)
Definition exactFor (p : Placeholder) (rep : string) (segs : list Segment) : bool :=
  bool_decide (rep = token p)
  || (holesOnly p segs && (negb (hasHole p segs) || patternFree rep)).

(** Every step of the chain is exact on the segments as the steps before it
    have left them. *)
Fixpoint exactSteps (marker : string) (env : PromptContext)
    (order : list Placeholder) (segs : list Segment) : bool :=
  match order with
  | [] => true
  | p :: order' =>
      exactFor p (content marker env p) segs
      && exactSteps marker env order'
           (map (fillHole p (content marker env p)) segs)
  end.

(** What stands in place of a segment once the placeholders of [order] are
    filled. *)
Definition expandIn (marker : string) (env : PromptContext)
    (order : list Placeholder) (seg : Segment) : string :=
  match seg with
  | Lit s => s
  | Hole p => if bool_decide (p ∈ order) then content marker env p else token p
  end.

(** The placeholder whose token starts the text, if there is one. *)
Definition tokenAt (s : string) : option Placeholder :=
  List.find (fun p => startsWith (token p) s) sourceOrder.

(** A template cut at the occurrences of the five tokens, left to right; the
    characters in between are literal text.  [skip] counts the characters of
    the current occurrence that are still to be passed over. *)
Fixpoint parseFrom (skip : nat) (s : string) : list Segment :=
  match s with
  | EmptyString => []
  | String c s' =>
      match skip with
      | S k => parseFrom k s'
      | O =>
          match tokenAt s with
          | Some p => Hole p :: parseFrom (String.length (token p) - 1) s'
          | None => Lit (String c EmptyString) :: parseFrom 0 s'
          end
      end
  end.

Definition parse (template : string) : list Segment := parseFrom 0 template.










(** ** CompletionRequestManager (the coordinator)

    A promise is a cell of the JavaScript heap: [None] while it is pending,
    [Some items] once it is fulfilled.  The cell and the [resolve] function
    captured from its executor are named by the index of the cell.  The
    record holds the manager's only field, the promises created so far and
    the log of the actions that are visible from outside. *)

Inductive Event :=
  | EvPromiseCreated (p : nat)
  | EvResolveCalled (p : nat) (items : list InlineCompletionItem)
  | EvStatus (text : string)
  | EvInlineSuggestTriggered
  | EvBackendAwaited
  | EvBackendCalled (prompt : string).

Global Instance Event_eq_dec : EqDecision Event.
Proof. solve_decision. Defined.

Record PendingRequest := {
  documentUri : string;
  position : Position;
  promise : nat
}.

Record Coordinator := {
  pendingRequest : option PendingRequest;
  promises : list (option (list InlineCompletionItem));
  trace : list Event
}.

Definition initialCoordinator : Coordinator :=
  {| pendingRequest := None; promises := []; trace := [] |}.

Definition emit (ev : Event) (c : Coordinator) : Coordinator :=
  {| pendingRequest := pendingRequest c;
     promises := promises c;
     trace := trace c ++ [ev] |}.

(** Calling the [resolve] function of promise [p]: it fulfils the promise if
    it is still pending and does nothing to a promise already fulfilled. *)
Definition callResolve (p : nat) (items : list InlineCompletionItem)
    (c : Coordinator) : Coordinator :=
  {| pendingRequest := pendingRequest c;
     promises := match promises c !! p with
                 | Some None => <[p := Some items]> (promises c)
                 | _ => promises c
                 end;
     trace := trace c ++ [EvResolveCalled p items] |}.

(** The three steps of [createPendingRequest]. *)
Definition cancelExisting (c : Coordinator) : Coordinator :=
  match pendingRequest c with
  | Some r => callResolve (promise r) [] c
  | None => c
  end.

Definition newPromise (c : Coordinator) : nat * Coordinator :=
  let p := length (promises c) in
  (p, {| pendingRequest := pendingRequest c;
         promises := promises c ++ [None];
         trace := trace c ++ [EvPromiseCreated p] |}).

Definition assignPending (r : PendingRequest) (c : Coordinator) : Coordinator :=
  {| pendingRequest := Some r; promises := promises c; trace := trace c |}.

Definition createPendingRequest (documentUri : string) (position : Position)
    (c : Coordinator) : Coordinator :=
  let c1 := cancelExisting c in
  let '(p, c2) := newPromise c1 in
  assignPending {| documentUri := documentUri; position := position; promise := p |} c2.

Definition clearPending (c : Coordinator) : Coordinator :=
  {| pendingRequest := None; promises := promises c; trace := trace c |}.

Definition resolveRequest (items : list InlineCompletionItem) (c : Coordinator)
  : Coordinator :=
  match pendingRequest c with
  | Some r => clearPending (callResolve (promise r) items c)
  | None => c
  end.

(** The two readers return the manager too, like every other method. *)
Definition getPendingPromise (uri : string) (c : Coordinator)
  : option nat * Coordinator :=
  match pendingRequest c with
  | Some r => if decide (documentUri r = uri) then (Some (promise r), c) else (None, c)
  | None => (None, c)
  end.

Definition hasPendingRequest (c : Coordinator) : bool * Coordinator :=
  match pendingRequest c with
  | Some _ => (true, c)
  | None => (false, c)
  end.

Definition cancelRequest (c : Coordinator) : Coordinator :=
  match pendingRequest c with
  | Some r => clearPending (callResolve (promise r) [] c)
  | None => c
  end.

Inductive CoordinatorOp :=
  | OpCreate (documentUri : string) (position : Position)
  | OpResolve (items : list InlineCompletionItem)
  | OpCancel.

Definition coordinatorStep (c : Coordinator) (op : CoordinatorOp) : Coordinator :=
  match op with
  | OpCreate d pos => createPendingRequest d pos c
  | OpResolve items => resolveRequest items c
  | OpCancel => cancelRequest c
  end.

Definition runCoordinator (ops : list CoordinatorOp) : Coordinator :=
  foldl coordinatorStep initialCoordinator ops.

(** The promises that are still pending, by index. *)
Fixpoint pendingFrom (i : nat) (l : list (option (list InlineCompletionItem)))
  : list nat :=
  match l with
  | [] => []
  | None :: l' => i :: pendingFrom (S i) l'
  | Some _ :: l' => pendingFrom (S i) l'
  end.

Definition pendingFutures (c : Coordinator) : list nat :=
  pendingFrom 0 (promises c).

(** The promises whose [resolve] function has been called, in call order. *)
Fixpoint resolveCalls (tr : list Event) : list nat :=
  match tr with
  | [] => []
  | EvResolveCalled p _ :: tr' => p :: resolveCalls tr'
  | _ :: tr' => resolveCalls tr'
  end.



(** ** ComplementryCompletionProvider *)

Definition provideInlineCompletionItems (document : TextDocument)
    (position : Position) (c : Coordinator) : option nat * Coordinator :=
  if negb (bool_decide (languageId document = "markdown")) then (None, c)
  else
    let '(pendingPromise, c') := getPendingPromise (uri document) c in
    match pendingPromise with
    | Some promise => (Some promise, c')
    | None => (None, c')
    end.

(** ** LLMService *)

Record Config := {
  cfgModel : option string;
  cfgMaxTokens : option nat;
  cfgAwsRegion : option string;
  cfgDefaultPromptTemplate : option string
}.

(** [config.get(key, defaultValue)]. *)
Definition configGet {A} (v : option A) (defaultValue : A) : A :=
  default defaultValue v.

(** The model-provider SDK: both calls may throw.  The result of
    [generateText] is reduced to its [text] field. *)
Record Sdk := {
  createAmazonBedrock : string -> Exc unit;
  generateText : string -> string -> nat -> Exc (option string)
}.

(** Code that logs visible actions and may throw: the actions done before a
    throw stay done. *)
Definition Eff (A : Type) : Type := (list Event * Exc A)%type.

Global Instance Eff_ret : MRet Eff := fun A a => ([], Returned a).
Global Instance Eff_bind : MBind Eff := fun A B k m =>
  match snd m with
  | Returned a => (fst m ++ fst (k a), snd (k a))
  | Thrown e => (fst m, Thrown e)
  end.

Definition liftExc {A} (x : Exc A) : Eff A := ([], x).
Definition emitE (ev : Event) : Eff unit := ([ev], Returned tt).

Definition tryCatchE {A} (body : Eff A) (handler : string -> Eff A) : Eff A :=
  match snd body with
  | Returned a => body
  | Thrown e => (fst body ++ fst (handler e), snd (handler e))
  end.

Definition getCompletion (sdk : Sdk) (prompt : string) (config : Config)
  : Eff (option string) :=
  let modelId := configGet (cfgModel config)
                   "us.anthropic.claude-3-5-haiku-20241022-v1:0" in
  let maxOutputTokens := configGet (cfgMaxTokens config) 150 in
  let region := configGet (cfgAwsRegion config) "us-east-1" in
  tryCatchE
    (_ ← liftExc (createAmazonBedrock sdk region);
     _ ← emitE (EvBackendCalled prompt);
     text ← liftExc (generateText sdk modelId prompt maxOutputTokens);
     mret (orNull text))
    (fun error =>
       _ ← emitE (EvStatus "Error - see output");
       mret None).

(** ** The command [complementry.triggerCompletion]

    The handler is an [async] function: it runs without interruption from its
    call to [await llmPromise] ([triggerCompletionStart]), the model is called
    in the background ([triggerCompletionBackend]), and the handler runs again
    from the answer to its end ([triggerCompletionResume]).  The provider and
    other handlers can only run between these pieces.  [buildPrompt] is
    called in the first piece, before the host is asked to call the provider,
    as in the source; the context files, which the host opens in the
    background, are taken as read at that call. *)

Record World := {
  settingsManager : gmap string DocumentSettings;
  requestManager : Coordinator
}.

Definition setStatus (text : string) (w : World) : World :=
  {| settingsManager := settingsManager w;
     requestManager := emit (EvStatus text) (requestManager w) |}.

Definition onCoordinator (f : Coordinator -> Coordinator) (w : World) : World :=
  {| settingsManager := settingsManager w;
     requestManager := f (requestManager w) |}.

Definition emitAll (evs : list Event) (w : World) : World :=
  onCoordinator (fun c => foldl (fun c ev => emit ev c) c evs) w.

Definition builtinTemplate : string :=
  "Continue writing the following markdown document naturally. Only provide the continuation text, no explanations:"
  +:+ LF +:+ LF +:+ "{document}" +:+ LF +:+ LF +:+ "Continuation:".

(** What the suspended handler keeps: the trigger position and the promise of
    the prompt. *)
Record Suspended := {
  sPosition : Position;
  sPrompt : Exc string
}.

Definition triggerCompletionStart (openTextDocument : string -> Exc string)
    (editor : option (TextDocument * Position)) (config : Config) (w : World)
  : World * option Suspended :=
  match editor with
  | None => (setStatus "Open a markdown file" w, None)
  | Some (document, position) =>
      if negb (bool_decide (languageId document = "markdown")) then
        (setStatus "Open a markdown file" w, None)
      else
        let w1 := setStatus "Fetching..." w in
        (* 1. create the pending request *)
        let w2 := onCoordinator (createPendingRequest (uri document) position) w1 in
        (* 2. start building the prompt *)
        let defaultTemplate :=
          configGet (cfgDefaultPromptTemplate config) builtinTemplate in
        let '(settings', prompt) :=
          buildPrompt openTextDocument (settingsManager w2) document position
                      defaultTemplate in
        let w3 := {| settingsManager := settings';
                     requestManager := requestManager w2 |} in
        (* 3. ask the host to call the provider; not awaited *)
        let w4 := onCoordinator (emit EvInlineSuggestTriggered) w3 in
        (* 4. await llmPromise *)
        let w5 := onCoordinator (emit EvBackendAwaited) w4 in
        (w5, Some {| sPosition := position; sPrompt := prompt |})
  end.

Definition triggerCompletionBackend (sdk : Sdk) (config : Config) (s : Suspended)
  : Eff (option string) :=
  prompt ← liftExc (sPrompt s);
  getCompletion sdk prompt config.

Definition triggerCompletionResume (position : Position)
    (completion : option string) (w : World) : World :=
  match completion with
  | Some (String c s) =>
      let item := {| insertText := String c s;
                     range := Some (position, position) |} in
      setStatus "Ready - Tab to accept"
        (onCoordinator (resolveRequest [item]) w)
  | _ =>
      setStatus "No completion" (onCoordinator (resolveRequest []) w)
  end.

(** The items and the status the handler ends with, by the answer. *)
Definition completionItems (position : Position) (completion : option string)
  : list InlineCompletionItem :=
  match completion with
  | Some (String c s) =>
      [{| insertText := String c s; range := Some (position, position) |}]
  | _ => []
  end.

Definition completionStatus (completion : option string) : string :=
  if truthy completion then "Ready - Tab to accept" else "No completion".

(** The events of cancelling the request that the slot holds. *)
Definition cancelEvents (c : Coordinator) : list Event :=
  match pendingRequest c with
  | Some r => [EvResolveCalled (promise r) []]
  | None => []
  end.

(** The prompt [buildPrompt] returns when the handler calls it. *)
Definition builtPrompt (openTextDocument : string -> Exc string)
    (settings : gmap string DocumentSettings)
    (document : TextDocument) (position : Position) (config : Config) : string :=
  replaceTemplateVariables
    (orElse (promptTemplate (settingsOf (uri document) settings))
            (configGet (cfgDefaultPromptTemplate config) builtinTemplate))
    (getText document) (textBefore document position)
    (textAfter document position)
    (loadedContext openTextDocument
       (contextFiles (settingsOf (uri document) settings))).

(** The answer of [getCompletion], read off its outcome. *)
Definition completionOf (sdk : Sdk) (prompt : string) (config : Config)
  : option string :=
  match snd (getCompletion sdk prompt config) with
  | Returned completion => completion
  | Thrown _ => None
  end.

(** One whole run of the handler with nothing else in between. *)
Definition triggerCompletion (openTextDocument : string -> Exc string) (sdk : Sdk)
    (editor : option (TextDocument * Position)) (config : Config) (w : World)
  : World :=
  match triggerCompletionStart openTextDocument editor config w with
  | (w1, None) => w1
  | (w1, Some s) =>
      let '(evs, outcome) := triggerCompletionBackend sdk config s in
      let w2 := emitAll evs w1 in
      match outcome with
      | Returned completion => triggerCompletionResume (sPosition s) completion w2
      | Thrown _ => w2
      end
  end.

(** ** The stored-result variant ([src/extension.ts]) *)

Module Legacy.

Record PendingCompletion := {
  pcDocumentUri : string;
  pcPosition : Position;
  pcResolve : nat
}.

Record CompletionTriggerManager := {
  pendingCompletion : option PendingCompletion;
  completionResult : option (list InlineCompletionItem);
  completionDocUri : option string;
  lastCompletionText : option string;
  resultCallCount : nat
}.

Definition initialManager : CompletionTriggerManager :=
  {| pendingCompletion := None; completionResult := None;
     completionDocUri := None; lastCompletionText := None;
     resultCallCount := 0 |}.

Definition setPendingCompletion (documentUri : string) (position : Position)
    (resolve : nat) (m : CompletionTriggerManager) : CompletionTriggerManager :=
  {| pendingCompletion :=
       Some {| pcDocumentUri := documentUri; pcPosition := position;
               pcResolve := resolve |};
     completionResult := completionResult m;
     completionDocUri := completionDocUri m;
     lastCompletionText := lastCompletionText m;
     resultCallCount := resultCallCount m |}.

Definition setCompletionResult (documentUri : string)
    (items : list InlineCompletionItem) (m : CompletionTriggerManager)
  : CompletionTriggerManager :=
  {| pendingCompletion := pendingCompletion m;
     completionResult := Some items;
     completionDocUri := Some documentUri;
     lastCompletionText :=
       match items with
       | item :: _ =>
           if truthy (Some (insertText item)) then Some (insertText item)
           else lastCompletionText m
       | [] => lastCompletionText m
       end;
     resultCallCount := 0 |}.

(** The result and the manager after the call. *)
Definition getCompletionResult (documentUri : string)
    (m : CompletionTriggerManager)
  : option (list InlineCompletionItem) * CompletionTriggerManager :=
  match bool_decide (completionDocUri m = Some documentUri), completionResult m with
  | true, Some result =>
        let count := S (resultCallCount m) in
        if 3 <? count then
          (Some result,
           {| pendingCompletion := pendingCompletion m;
              completionResult := None;
              completionDocUri := None;
              lastCompletionText := lastCompletionText m;
              resultCallCount := count |})
        else
          (Some result,
           {| pendingCompletion := pendingCompletion m;
              completionResult := completionResult m;
              completionDocUri := completionDocUri m;
              lastCompletionText := lastCompletionText m;
              resultCallCount := count |})
  | _, _ => (None, m)
  end.

Definition getLastCompletionText (m : CompletionTriggerManager) : option string :=
  lastCompletionText m.

Definition clearResult (m : CompletionTriggerManager) : CompletionTriggerManager :=
  {| pendingCompletion := pendingCompletion m;
     completionResult := None;
     completionDocUri := None;
     lastCompletionText := lastCompletionText m;
     resultCallCount := resultCallCount m |}.

Definition consumePending (m : CompletionTriggerManager)
  : option PendingCompletion * CompletionTriggerManager :=
  (pendingCompletion m,
   {| pendingCompletion := None;
      completionResult := completionResult m;
      completionDocUri := completionDocUri m;
      lastCompletionText := lastCompletionText m;
      resultCallCount := resultCallCount m |}).

Definition provideInlineCompletionItems (document : TextDocument)
    (position : Position) (m : CompletionTriggerManager)
  : option (list InlineCompletionItem) * CompletionTriggerManager :=
  if negb (bool_decide (languageId document = "markdown")) then (None, m)
  else
    let '(precomputed, m') := getCompletionResult (uri document) m in
    match precomputed with
    | Some items => (Some items, m')
    | None => (None, m')
    end.

End Legacy.

(** ** Measures used in the statements *)

Definition occurrences {A} `{EqDecision A} (x : A) (l : list A) : nat :=
  length (filter (fun y => y = x) l).

Definition slotFutures (c : Coordinator) : list nat :=
  match pendingRequest c with
  | Some r => [promise r]
  | None => []
  end.


(** The invariant of the coordinator after the calls [ops]. *)
Record CoordinatorInv (ops : list CoordinatorOp) (c : Coordinator) : Prop := {
  inv_pending : pendingFutures c = slotFutures c;
  inv_calls : NoDup (resolveCalls (trace c));
  inv_settled : forall p items,
    EvResolveCalled p items ∈ trace c <-> promises c !! p = Some (Some items);
  inv_created : forall p,
    EvPromiseCreated p ∈ trace c <-> p < length (promises c);
  inv_items : forall p items,
    EvResolveCalled p items ∈ trace c -> items = [] \/ OpResolve items ∈ ops
}.

Definition promptContextOf (openTextDocument : string -> Exc string)
    (settings : gmap string DocumentSettings)
    (document : TextDocument) (position : Position) : PromptContext :=
  {| fullDocument := getText document;
     textBeforeCursor := textBefore document position;
     textAfterCursor := textAfter document position;
     contextContent :=
       loadedContext openTextDocument
         (contextFiles (settingsOf (uri document) settings)) |}.

(** ** Sample data for the examples *)

Definition noFiles : string -> Exc string := fun _ => Thrown "ENOENT".

Definition sampleDocument (text : string) : TextDocument :=
  {| uri := "file:///notes.md"; languageId := "markdown"; getText := text |}.

Definition sampleFiles : string -> Exc string := fun filePath =>
  if bool_decide (filePath = "/ctx/a.md") then Returned "alpha"
  else Thrown "ENOENT".

Definition samplePosition : Position := {| line := 0; character := 3 |}.

Definition sampleItem : InlineCompletionItem :=
  {| insertText := "baz"; range := Some (samplePosition, samplePosition) |}.

Definition storedManager : Legacy.CompletionTriggerManager :=
  Legacy.setCompletionResult "file:///notes.md" [sampleItem] Legacy.initialManager.

(** The stored result after three calls that returned it. *)
Definition wornManager : Legacy.CompletionTriggerManager :=
  let peek m := snd (Legacy.getCompletionResult "file:///notes.md" m) in
  peek (peek (peek storedManager)).

Definition initialWorld : World :=
  {| settingsManager := ∅; requestManager := initialCoordinator |}.

Definition sampleConfig : Config :=
  {| cfgModel := None; cfgMaxTokens := None; cfgAwsRegion := None;
     cfgDefaultPromptTemplate := Some "{before_cursor}[X]{after_cursor}" |}.

Definition answeringSdk : Sdk :=
  {| createAmazonBedrock := fun _ => Returned tt;
     generateText := fun _ _ _ => Returned (Some "baz") |}.

Definition credentialSdk : Sdk :=
  {| createAmazonBedrock := fun _ => Thrown "no credentials";
     generateText := fun _ _ _ => Returned (Some "baz") |}.

Definition failingSdk : Sdk :=
  {| createAmazonBedrock := fun _ => Returned tt;
     generateText := fun _ _ _ => Thrown "network failure" |}.

(** ** The settings commands

    The commands of [activate] that change the settings.  What the user picks
    in the host's dialogs is an argument: [None] stands for a dismissed
    dialog ([undefined]). *)

(** [complementry.addContextFile]: the loop over the files picked. *)
Definition addContextFileCommand (editor : option TextDocument)
    (files : option (list string)) (w : World) : World :=
  match editor with
  | None => w
  | Some document =>
      match files with
      | None => w
      | Some files =>
          let documentUri := uri document in
          let settings' :=
            foldl (fun settings fsPath => addContextFile documentUri fsPath settings)
                  (settingsManager w) files in
          setStatus ("Added " +:+ pretty (length files) +:+ " context file(s)")
            {| settingsManager := settings';
               requestManager := requestManager w |}
      end
  end.

(** [complementry.removeContextFile]; [pick] is the host's quick pick over
    the list shown. *)
Definition removeContextFileCommand (editor : option TextDocument)
    (pick : list string -> option (list string)) (w : World) : World :=
  match editor with
  | None => w
  | Some document =>
      let documentUri := uri document in
      let '(settings1, contextFiles) :=
        getContextFiles documentUri (settingsManager w) in
      let w1 := {| settingsManager := settings1;
                   requestManager := requestManager w |} in
      if length contextFiles =? 0 then
        setStatus "No context files configured" w1
      else
        match pick contextFiles with
        | None => w1
        | Some selected =>
            let settings' :=
              foldl (fun settings file => removeContextFile documentUri file settings)
                    settings1 selected in
            setStatus ("Removed " +:+ pretty (length selected) +:+ " context file(s)")
              {| settingsManager := settings';
                 requestManager := requestManager w |}
        end
  end.

(** [complementry.setPromptTemplate]; [input] is the host's input box, called
    with the value it shows first. *)
Definition setPromptTemplateCommand (editor : option TextDocument)
    (config : Config) (input : string -> option string) (w : World) : World :=
  match editor with
  | None => w
  | Some document =>
      let documentUri := uri document in
      let defaultTemplate := configGet (cfgDefaultPromptTemplate config) EmptyString in
      let '(settings1, currentSettings) :=
        getSettings documentUri (settingsManager w) in
      let w1 := {| settingsManager := settings1;
                   requestManager := requestManager w |} in
      match input (orElse (promptTemplate currentSettings) defaultTemplate) with
      | Some template =>
          setStatus "Prompt template updated"
            {| settingsManager := setPromptTemplate documentUri template settings1;
               requestManager := requestManager w |}
      | None => w1
      end
  end.

(** The document a settings call works on. *)
Definition opDocument (op : SettingsOp) : string :=
  match op with
  | OpGetSettings d => d
  | OpSetPromptTemplate d _ => d
  | OpAddContextFile d _ => d
  | OpRemoveContextFile d _ => d
  end.

(** A world whose settings are the result of the calls [ops]. *)
Definition worldAfter (ops : list SettingsOp) (c : Coordinator) : World :=
  {| settingsManager := runSettings ops; requestManager := c |}.

(** ** The trigger command of the stored-result variant ([src/extension.ts])

    The handler awaits the prompt, the model and the host's inline-suggest
    command one after the other; the run is taken as one piece, the calls of
    the provider come after it. *)

Module LegacyRun.

Record World := {
  settingsManager : gmap string DocumentSettings;
  triggerManager : Legacy.CompletionTriggerManager;
  events : list Event
}.

Definition setStatus (text : string) (w : World) : World :=
  {| settingsManager := settingsManager w;
     triggerManager := triggerManager w;
     events := events w ++ [EvStatus text] |}.

Definition triggerCompletion (openTextDocument : string -> Exc string) (sdk : Sdk)
    (editor : option (TextDocument * Position)) (config : Config) (w : World)
  : World :=
  match editor with
  | None => setStatus "Open a markdown file" w
  | Some (document, position) =>
      if negb (bool_decide (languageId document = "markdown")) then
        setStatus "Open a markdown file" w
      else
        let w1 := setStatus "Fetching..." w in
        let defaultTemplate :=
          configGet (cfgDefaultPromptTemplate config) builtinTemplate in
        let '(settings', prompt) :=
          buildPrompt openTextDocument (settingsManager w1) document position
                      defaultTemplate in
        let '(evs, outcome) :=
          (prompt ← liftExc prompt; getCompletion sdk prompt config) in
        let w2 := {| settingsManager := settings';
                     triggerManager := triggerManager w1;
                     events := events w1 ++ evs |} in
        match outcome with
        | Thrown _ => w2
        | Returned (Some (String c s)) =>
            let item := {| insertText := String c s;
                           range := Some (position, position) |} in
            let w3 := {| settingsManager := settingsManager w2;
                         triggerManager :=
                           Legacy.setCompletionResult (uri document) [item]
                             (triggerManager w2);
                         events := events w2 ++ [EvInlineSuggestTriggered] |} in
            setStatus "Ready - Tab to accept" w3
        | Returned _ => setStatus "No completion" w2
        end
  end.

(** Calls on the manager, for sequences of calls. *)
Inductive ManagerOp :=
  | OpGetResult (documentUri : string)
  | OpClearResult
  | OpConsumePending
  | OpSetPending (documentUri : string) (position : Position) (resolve : nat).

Definition managerStep (m : Legacy.CompletionTriggerManager) (op : ManagerOp)
  : Legacy.CompletionTriggerManager :=
  match op with
  | OpGetResult d => snd (Legacy.getCompletionResult d m)
  | OpClearResult => Legacy.clearResult m
  | OpConsumePending => snd (Legacy.consumePending m)
  | OpSetPending d pos resolve => Legacy.setPendingCompletion d pos resolve m
  end.

End LegacyRun.

(** ** The first variant of the extension ([CompletionTriggerManager] with a
    result that is handed out once, [LLMService] over [fetch]) *)

Module Initial.

Record CompletionTriggerManager := {
  pendingCompletion : option Legacy.PendingCompletion;
  completionResult : option (list InlineCompletionItem);
  completionDocUri : option string
}.

Definition initialManager : CompletionTriggerManager :=
  {| pendingCompletion := None; completionResult := None;
     completionDocUri := None |}.

Definition setCompletionResult (documentUri : string)
    (items : list InlineCompletionItem) (m : CompletionTriggerManager)
  : CompletionTriggerManager :=
  {| pendingCompletion := pendingCompletion m;
     completionResult := Some items;
     completionDocUri := Some documentUri |}.

Definition getCompletionResult (documentUri : string) (m : CompletionTriggerManager)
  : option (list InlineCompletionItem) * CompletionTriggerManager :=
  if bool_decide (completionDocUri m = Some documentUri) then
    (completionResult m,
     {| pendingCompletion := pendingCompletion m;
        completionResult := None;
        completionDocUri := None |})
  else (None, m).

Definition provideInlineCompletionItems (document : TextDocument)
    (position : Position) (m : CompletionTriggerManager)
  : option (list InlineCompletionItem) * CompletionTriggerManager :=
  if negb (bool_decide (languageId document = "markdown")) then (None, m)
  else
    let '(precomputed, m') := getCompletionResult (uri document) m in
    match precomputed with
    | Some items => (Some items, m')
    | None => (None, m')
    end.

(** The settings read by [getCompletion]. *)
Record ApiConfig := {
  apiEndpoint : option string;
  apiKey : option string;
  apiModel : option string;
  apiMaxTokens : option nat
}.

(** The request handed to [fetch]: the URL, the [Authorization] header and
    the fields of the JSON body. *)
Record Request := {
  reqUrl : string;
  reqAuthorization : string;
  reqModel : string;
  reqContent : string;
  reqMaxTokens : nat
}.

(** The parsed body, of the type the source casts it to. *)
Record Message := { content : option string }.
Record Choice := { message : option Message }.
Record Payload := { choices : option (list Choice) }.

Record Response := {
  ok : bool;
  statusText : string;
  json : Exc Payload
}.

(** What the user is shown. *)
Inductive Notice :=
  | Warning (text : string)
  | Error (text : string).

(** [data.choices?.[0]?.message?.content]. *)
Definition firstContent (data : Payload) : option string :=
  match choices data with
  | Some (choice :: _) =>
      match message choice with
      | Some m => content m
      | None => None
      end
  | _ => None
  end.

(** [getCompletion] returns the notices shown, the requests sent and the
    answer; an error is a value that is shown as text. *)
Definition getCompletion (fetch : Request -> Exc Response)
    (prompt : string) (config : ApiConfig)
  : list Notice * list Request * Exc (option string) :=
  let model := configGet (apiModel config) "gpt-4" in
  let maxTokens := configGet (apiMaxTokens config) 150 in
  if negb (truthy (apiEndpoint config)) || negb (truthy (apiKey config)) then
    ([Warning "Complementry: Please configure API endpoint and key in settings"],
     [], Returned None)
  else
    let request :=
      {| reqUrl := default EmptyString (apiEndpoint config);
         reqAuthorization := "Bearer " +:+ default EmptyString (apiKey config);
         reqModel := model;
         reqContent := prompt;
         reqMaxTokens := maxTokens |} in
    let body :=
      bindExc (fetch request) (fun response =>
        if negb (ok response) then
          Thrown ("Error: API request failed: " +:+ statusText response)
        else
          bindExc (json response) (fun data =>
            Returned (orNull (firstContent data)))) in
    match body with
    | Returned answer => ([], [request], Returned answer)
    | Thrown error => ([Error ("Complementry: " +:+ error)], [request], Returned None)
    end.

End Initial.

(** ** The test runner ([run-tests.js]) *)

Module Runner.

Definition MARKER : string := "[CURSOR_HERE]".

(** [String.prototype.indexOf]: the first index at which [pat] occurs in
    [s], counted from [i], or -1. *)
Fixpoint indexOfFrom (i : Z) (pat s : string) : Z :=
  if startsWith pat s then i
  else match s with
       | EmptyString => -1
       | String _ s' => indexOfFrom (i + 1) pat s'
       end.

Definition indexOf (pat s : string) : Z := indexOfFrom 0 pat s.

Record CursorInfo := {
  before : string;
  after : string;
  hasMarker : bool
}.

Definition findCursorPosition (content : string) : CursorInfo :=
  let marker := MARKER in
  let index := indexOf marker content in
  if negb (index =? -1)%Z then
    {| before := takeChars (Z.to_nat index) content;
       after := dropChars (Z.to_nat (index + Z.of_nat (String.length marker))) content;
       hasMarker := true |}
  else
    {| before := content; after := EmptyString; hasMarker := false |}.

(** [s.replace(pat, replacement)] with a STRING pattern: the first occurrence
    only; the dollar patterns of the replacement are live. *)
Fixpoint replaceFirstFrom (pat replacement scanned : string) (s : string) : string :=
  if startsWith pat s then
    getSubstitution pat scanned (dropChars (String.length pat) s) replacement
      +:+ dropChars (String.length pat) s
  else match s with
       | EmptyString => EmptyString
       | String c s' =>
           String c (replaceFirstFrom pat replacement
                       (scanned +:+ String c EmptyString) s')
       end.

Definition replaceFirst (pat replacement s : string) : string :=
  replaceFirstFrom pat replacement EmptyString s.

Definition TEMPLATE_WITH_CONTEXT : string :=
  "Continue writing the following markdown document naturally. Only provide the continuation text, no explanations."
  +:+ LF +:+ LF +:+ "{context_files}" +:+ LF +:+ LF
  +:+ "Document to continue:" +:+ LF +:+ "{document}" +:+ LF +:+ LF
  +:+ "Continuation:".

Definition TEMPLATE_SIMPLE : string :=
  "Continue writing the following markdown document naturally. Only provide the continuation text, no explanations:"
  +:+ LF +:+ LF +:+ "{document}" +:+ LF +:+ LF +:+ "Continuation:".

(** The prompt [runTest] builds from a test case. *)
Definition runTestPrompt (context document : string) : string :=
  if truthy (Some context) then
    replaceFirst "{document}" document
      (replaceFirst "{context_files}" context TEMPLATE_WITH_CONTEXT)
  else replaceFirst "{document}" document TEMPLATE_SIMPLE.

End Runner.

(** The manager of the stored-result variant after [setCompletionResult]
    and [count] calls that returned the result. *)
Definition servedManager (m : Legacy.CompletionTriggerManager) (uri : string)
    (items : list InlineCompletionItem) (count : nat)
  : Legacy.CompletionTriggerManager :=
  {| Legacy.pendingCompletion := Legacy.pendingCompletion m;
     Legacy.completionResult := Some items;
     Legacy.completionDocUri := Some uri;
     Legacy.lastCompletionText :=
       Legacy.lastCompletionText (Legacy.setCompletionResult uri items m);
     Legacy.resultCallCount := count |}.

(** The same manager once the result has been dropped. *)
Definition expiredManager (m : Legacy.CompletionTriggerManager) (uri : string)
    (items : list InlineCompletionItem) : Legacy.CompletionTriggerManager :=
  {| Legacy.pendingCompletion := Legacy.pendingCompletion m;
     Legacy.completionResult := None;
     Legacy.completionDocUri := None;
     Legacy.lastCompletionText :=
       Legacy.lastCompletionText (Legacy.setCompletionResult uri items m);
     Legacy.resultCallCount := 4 |}.

Definition legacyWorld (m : Legacy.CompletionTriggerManager) : LegacyRun.World :=
  {| LegacyRun.settingsManager := ∅;
     LegacyRun.triggerManager := m;
     LegacyRun.events := [] |}.

Definition sampleApiConfig : Initial.ApiConfig :=
  {| Initial.apiEndpoint := Some "https://api.example.test/v1/chat";
     Initial.apiKey := Some "secret";
     Initial.apiModel := None;
     Initial.apiMaxTokens := None |}.

Definition answeringFetch : Initial.Request -> Exc Initial.Response := fun _ =>
  Returned
    {| Initial.ok := true; Initial.statusText := "OK";
       Initial.json :=
         Returned
           {| Initial.choices :=
                Some [{| Initial.message :=
                           Some {| Initial.content := Some "baz" |} |}] |} |}.

Definition refusingFetch : Initial.Request -> Exc Initial.Response := fun _ =>
  Returned
    {| Initial.ok := false; Initial.statusText := "Unauthorized";
       Initial.json := Thrown "SyntaxError: Unexpected end of JSON input" |}.

(** The fixed parts of the two templates of the test runner. *)
Definition contextHead : string :=
  "Continue writing the following markdown document naturally. Only provide the continuation text, no explanations."
  +:+ LF +:+ LF.

Definition contextMiddle : string :=
  LF +:+ LF +:+ "Document to continue:" +:+ LF.

Definition simpleHead : string :=
  "Continue writing the following markdown document naturally. Only provide the continuation text, no explanations:"
  +:+ LF +:+ LF.

Definition templateTail : string := LF +:+ LF +:+ "Continuation:".

(** * Facts *)

#[local] Arguments String.append !s1 s2 : simpl nomatch.
#[local] Set Warnings "-clear-no-such-hyp".

(** ** Strings and global replacement *)

Section StringFacts.

Lemma append_nil_r (s : string) : s +:+ EmptyString = s.
Proof. induction s as [|c s IH]; cbn; [done | by rewrite IH]. Qed.

Lemma append_assoc (s t u : string) : (s +:+ t) +:+ u = s +:+ (t +:+ u).
Proof. induction s as [|c s IH]; cbn; [done | by rewrite IH]. Qed.

Lemma startsWith_append (pat rest : string) : startsWith pat (pat +:+ rest) = true.
Proof.
  induction pat as [|a pat IH]; cbn; [done |].
  by rewrite Ascii.eqb_refl.
Qed.

Lemma dropChars_append (s rest : string) :
  dropChars (String.length s) (s +:+ rest) = rest.
Proof. induction s as [|c s IH]; cbn; done. Qed.

Lemma getSubstitution_dollarFree (matched before after rep : string) :
  dollarFree rep = true -> getSubstitution matched before after rep = rep.
Proof.
  induction rep as [|c rep IH]; cbn; [done |].
  intros [Hc Hrep]%andb_prop.
  destruct (Ascii.eqb c DOLLAR); [done |].
  by rewrite IH.
Qed.

Lemma dollarFree_append (s t : string) :
  dollarFree (s +:+ t) = dollarFree s && dollarFree t.
Proof.
  induction s as [|c s IH]; cbn; [done |].
  by rewrite IH, andb_assoc.
Qed.

Lemma clash_startsWith (pat s rest : string) :
  clash pat s = true -> startsWith pat (s +:+ rest) = false.
Proof.
  revert s. induction pat as [|a pat IH]; intros [|b s]; cbn; try done.
  destruct (Ascii.eqb a b); [apply IH | done].
Qed.

(** Text in which no match can start is copied. *)
Lemma replaceFrom_inert (pat rep : string) (s : string) :
  inertFor pat s = true ->
  forall before rest,
    replaceFrom pat rep before 0 (s +:+ rest)
    = s +:+ replaceFrom pat rep (before +:+ s) 0 rest.
Proof.
  induction s as [|c s IH]; intros Hs before rest.
  - cbn. by rewrite append_nil_r.
  - cbn in Hs. apply andb_prop in Hs as [Hc Hs].
    change (String c s +:+ rest) with (String c (s +:+ rest)).
    cbn [replaceFrom].
    change (String c (s +:+ rest)) with (String c s +:+ rest) at 1.
    rewrite (clash_startsWith _ _ rest Hc).
    rewrite (IH Hs). cbn. by rewrite append_assoc.
Qed.

Lemma replaceFrom_skip (pat rep : string) (s : string) :
  forall before rest,
    replaceFrom pat rep before (String.length s) (s +:+ rest)
    = replaceFrom pat rep (before +:+ s) 0 rest.
Proof.
  induction s as [|c s IH]; intros before rest; cbn.
  - by rewrite append_nil_r.
  - rewrite IH. by rewrite append_assoc.
Qed.

(** A match is replaced by the expansion of the replacement text, and the
    scan goes on behind it. *)
Lemma replaceFrom_match (a : ascii) (p rep before rest : string) :
  replaceFrom (String a p) rep before 0 (String a p +:+ rest)
  = getSubstitution (String a p) before rest rep
      +:+ replaceFrom (String a p) rep (before +:+ String a p) 0 rest.
Proof.
  change (String a p +:+ rest) with (String a (p +:+ rest)).
  cbn [replaceFrom].
  change (String a (p +:+ rest)) with (String a p +:+ rest).
  rewrite startsWith_append, dropChars_append.
  f_equal.
  replace (String.length (String a p) - 1) with (String.length p)
    by (cbn; lia).
  rewrite replaceFrom_skip. by rewrite append_assoc.
Qed.

Lemma startsWith_iff (pat s : string) :
  startsWith pat s = true <-> exists b, s = pat +:+ b.
Proof.
  revert s. induction pat as [|a pat IH]; intros s; cbn.
  - split; [intros _; by exists s | done].
  - destruct s as [|c s]; [split; [done | by intros [b Hb]] |].
    destruct (Ascii.eqb_spec a c) as [-> | Hne].
    + rewrite IH. split; intros [b Hb]; exists b; [by rewrite Hb | by injection Hb].
    + split; [done |]. intros [b Hb]. injection Hb as Hac _. congruence.
Qed.

Lemma length_append (a b : string) :
  String.length (a +:+ b) = String.length a + String.length b.
Proof. induction a as [|c a IH]; cbn; [done | by rewrite IH]. Qed.


End StringFacts.

(** ** Occurrences, borders and the length of the result *)

Section ReplaceFacts.





Lemma getSubstitution_patternFree (matched before after rep : string) :
  patternFree rep = true -> getSubstitution matched before after rep = rep.
Proof.
  induction rep as [|c r IH]; [done |].
  cbn [patternFree getSubstitution]. intros [Hc Hr]%andb_prop.
  destruct (Ascii.eqb c DOLLAR) eqn:Hdollar; [| by rewrite IH].
  destruct r as [|d r']; [done |].
  cbn [andb negb] in Hc. apply negb_true_iff in Hc. unfold isPatternChar in Hc.
  apply orb_false_elim in Hc as [Hc H4].
  apply orb_false_elim in Hc as [Hc H3].
  apply orb_false_elim in Hc as [H1 H2].
  rewrite H1, H2, H3, H4. by rewrite IH.
Qed.

(** ** Texts in which the pattern does not occur *)





Lemma replaceFrom_noOccurrence (pat rep s : string) :
  occursIn pat s = false ->
  forall before, replaceFrom pat rep before 0 s = s.
Proof.
  induction s as [|c s IH]; intros Hs before; [done |].
  cbn [occursIn] in Hs. apply orb_false_elim in Hs as [Hc Hs].
  cbn [replaceFrom]. rewrite Hc. by rewrite IH.
Qed.

Lemma replaceAll_noOccurrence (pat rep s : string) :
  occursIn pat s = false -> replaceAll pat rep s = s.
Proof. intros Hs. by apply replaceFrom_noOccurrence. Qed.


(** Text in which no occurrence starts is copied. *)
Lemma replaceFrom_noMatch (pat rep s rest : string) :
  noMatchIn pat s rest = true ->
  forall before,
    replaceFrom pat rep before 0 (s +:+ rest)
    = s +:+ replaceFrom pat rep (before +:+ s) 0 rest.
Proof.
  induction s as [|c s IH]; intros Hs before.
  - cbn. by rewrite append_nil_r.
  - cbn [noMatchIn] in Hs. apply andb_prop in Hs as [Hc Hs].
    apply negb_true_iff in Hc.
    change (String c s +:+ rest) with (String c (s +:+ rest)) in *.
    cbn [replaceFrom]. rewrite Hc.
    rewrite (IH Hs). cbn. by rewrite append_assoc.
Qed.

(** ** Replacement in a text made of two parts *)




(** ** When a replacement changes the text *)




(** Replacing a pattern by itself changes nothing. *)
Lemma replaceFrom_same (a : ascii) (p : string) :
  patternFree (String a p) = true ->
  forall s before skip,
    replaceFrom (String a p) (String a p) before skip s = dropChars skip s.
Proof.
  intros Hpat. induction s as [|c s IH]; intros before skip.
  - by destruct skip.
  - cbn [replaceFrom]. destruct skip as [|k]; [| apply IH].
    destruct (startsWith (String a p) (String c s)) eqn:Hm.
    + rewrite getSubstitution_patternFree by done. rewrite IH.
      apply startsWith_iff in Hm as [b Hb].
      change (String a p +:+ b) with (String a (p +:+ b)) in Hb.
      injection Hb as -> ->.
      replace (String.length (String a p) - 1) with (String.length p)
        by (cbn; lia).
      by rewrite dropChars_append.
    + by rewrite IH.
Qed.

Lemma replaceAll_same (a : ascii) (p s : string) :
  patternFree (String a p) = true ->
  replaceAll (String a p) (String a p) s = s.
Proof. intros Hpat. unfold replaceAll. by rewrite replaceFrom_same. Qed.

End ReplaceFacts.

(** ** Exact replacement on a template cut into segments *)

Section ExactFacts.

Lemma token_inertFor (p q : Placeholder) :
  q <> p -> inertFor (token p) (token q) = true.
Proof. destruct p, q; intros Hne; try done; vm_compute; reflexivity. Qed.

Lemma token_cons (p : Placeholder) : exists a t, token p = String a t.
Proof. destruct p; cbn; eauto. Qed.

Lemma token_patternFree (p : Placeholder) : patternFree (token p) = true.
Proof. by destruct p. Qed.

Lemma hasHole_cons (p : Placeholder) (seg : Segment) (segs : list Segment) :
  hasHole p segs = true -> hasHole p (seg :: segs) = true.
Proof. unfold hasHole. cbn [existsb]. intros ->. apply orb_true_r. Qed.

Lemma hasHole_here (p : Placeholder) (segs : list Segment) :
  hasHole p (Hole p :: segs) = true.
Proof. unfold hasHole. cbn [existsb]. by rewrite bool_decide_eq_true_2. Qed.

Lemma replaceFrom_holes (p : Placeholder) (rep : string) (segs : list Segment) :
  holesOnly p segs = true ->
  (hasHole p segs = true -> patternFree rep = true) ->
  forall before,
    replaceFrom (token p) rep before 0 (concatMap render segs)
    = concatMap render (map (fillHole p rep) segs).
Proof.
  induction segs as [|seg segs IH]; intros Hholes Hrep before; [done |].
  assert (hasHole p segs = true -> patternFree rep = true) as Hrep'
    by (intros Hsegs; by apply Hrep, hasHole_cons).
  cbn [concatMap map].
  destruct seg as [s | q]; cbn [holesOnly render fillHole] in *.
  - apply andb_prop in Hholes as [Hs Hholes].
    rewrite (replaceFrom_noMatch _ _ _ _ Hs). by rewrite (IH Hholes Hrep').
  - destruct (decide (q = p)) as [-> | Hne].
    + destruct (token_cons p) as (a & t & Ht).
      rewrite Ht, replaceFrom_match, <- Ht.
      rewrite getSubstitution_patternFree by apply Hrep, hasHole_here.
      cbn [render]. by rewrite (IH Hholes Hrep').
    + rewrite (replaceFrom_inert _ _ _ (token_inertFor p q Hne)).
      cbn [render]. by rewrite (IH Hholes Hrep').
Qed.

Lemma replaceAll_token (p : Placeholder) (s : string) :
  replaceAll (token p) (token p) s = s.
Proof.
  pose proof (token_patternFree p) as Hp.
  destruct (token_cons p) as (a & t & Ht). rewrite Ht in *.
  by apply replaceAll_same.
Qed.

Lemma fillHole_token (p : Placeholder) (segs : list Segment) :
  concatMap render (map (fillHole p (token p)) segs) = concatMap render segs.
Proof.
  induction segs as [|seg segs IH]; [done |].
  cbn [concatMap map]. rewrite IH. f_equal.
  destruct seg as [s | q]; [done |]. cbn [fillHole].
  by destruct (decide (q = p)) as [-> | Hne].
Qed.

Lemma replaceAll_exact (p : Placeholder) (rep : string) (segs : list Segment) :
  exactFor p rep segs = true ->
  replaceAll (token p) rep (concatMap render segs)
  = concatMap render (map (fillHole p rep) segs).
Proof.
  unfold exactFor. intros [Hsame | [Hholes Hrep]%andb_prop]%orb_prop.
  - apply bool_decide_eq_true in Hsame as ->.
    by rewrite replaceAll_token, fillHole_token.
  - apply replaceFrom_holes; [done |].
    intros Hhole. by rewrite Hhole in Hrep.
Qed.

Lemma expandIn_nil (marker : string) (env : PromptContext) (segs : list Segment) :
  concatMap (expandIn marker env []) segs = concatMap render segs.
Proof.
  induction segs as [|seg segs IH]; [done |].
  cbn [concatMap]. rewrite IH. f_equal; by destruct seg.
Qed.

Lemma expandIn_cons (marker : string) (env : PromptContext)
    (p : Placeholder) (order : list Placeholder) (segs : list Segment) :
  concatMap (expandIn marker env order)
    (map (fillHole p (content marker env p)) segs)
  = concatMap (expandIn marker env (p :: order)) segs.
Proof.
  induction segs as [|seg segs IH]; [done |].
  cbn [concatMap map]. rewrite IH. f_equal.
  destruct seg as [s | q]; [done |]. cbn [fillHole expandIn].
  destruct (decide (q = p)) as [-> | Hne].
  - cbn [expandIn]. by rewrite bool_decide_eq_true_2 by apply list_elem_of_here.
  - cbn [expandIn]. apply (f_equal (fun b : bool => if b then _ else _)).
    apply bool_decide_ext. rewrite elem_of_cons. naive_solver.
Qed.

(** When every step is exact, a chain of replacements in any order fills the
    holes of its placeholders and copies everything else. *)
Lemma replaceInOrder_exact (marker : string) (env : PromptContext)
    (order : list Placeholder) :
  forall segs,
    exactSteps marker env order segs = true ->
    replaceInOrder marker env order (concatMap render segs)
    = concatMap (expandIn marker env order) segs.
Proof.
  induction order as [|p order IH]; intros segs Hsteps.
  - by rewrite expandIn_nil.
  - cbn [exactSteps] in Hsteps. apply andb_prop in Hsteps as [Hp Hsteps].
    change (replaceInOrder marker env (p :: order) (concatMap render segs))
      with (replaceInOrder marker env order
              (replaceAll (token p) (content marker env p) (concatMap render segs))).
    rewrite (replaceAll_exact _ _ _ Hp), (IH _ Hsteps). apply expandIn_cons.
Qed.

Lemma expandIn_all (marker : string) (env : PromptContext)
    (order : list Placeholder) (segs : list Segment) :
  (forall p, p ∈ order) ->
  concatMap (expandIn marker env order) segs = concatMap (expand marker env) segs.
Proof.
  intros Hall. induction segs as [|seg segs IH]; [done |].
  cbn [concatMap]. rewrite IH. f_equal.
  destruct seg as [s | q]; [done |]. cbn.
  by rewrite bool_decide_eq_true_2.
Qed.

Lemma sourceOrder_all (p : Placeholder) : p ∈ sourceOrder.
Proof. destruct p; unfold sourceOrder; set_solver. Qed.

Lemma replaceTemplateVariablesWith_order (marker template : string)
    (env : PromptContext) :
  replaceTemplateVariablesWith marker template
    (fullDocument env) (textBeforeCursor env) (textAfterCursor env)
    (contextContent env)
  = replaceInOrder marker env sourceOrder template.
Proof. reflexivity. Qed.

(** ** The occurrences of the placeholders in a template *)

Lemma parseFrom_skip (u rest : string) :
  parseFrom (String.length u) (u +:+ rest) = parseFrom 0 rest.
Proof. induction u as [|c u IH]; [done | apply IH]. Qed.

Lemma tokenAt_Some (s : string) (p : Placeholder) :
  tokenAt s = Some p -> exists b, s = token p +:+ b.
Proof.
  intros [_ Hp]%List.find_some. by apply startsWith_iff.
Qed.

Lemma tokenAt_None (s : string) (p : Placeholder) :
  tokenAt s = None -> startsWith (token p) s = false.
Proof.
  intros Hnone.
  apply (List.find_none _ _ Hnone p), list_elem_of_In, sourceOrder_all.
Qed.

Lemma parse_cons (c : ascii) (s : string) :
  (exists p b, String c s = token p +:+ b
               /\ parse (String c s) = Hole p :: parse b)
  \/ ((forall p, startsWith (token p) (String c s) = false)
      /\ parse (String c s) = Lit (String c EmptyString) :: parse s).
Proof.
  unfold parse. cbn [parseFrom].
  destruct (tokenAt (String c s)) as [p |] eqn:Hat.
  - left. destruct (tokenAt_Some _ _ Hat) as [b Hb]. exists p, b. split; [done |].
    f_equal. destruct (token_cons p) as (a & t & Ht). rewrite Ht in *.
    change (String a t +:+ b) with (String a (t +:+ b)) in Hb.
    injection Hb as -> ->.
    replace (String.length (String a t) - 1) with (String.length t) by (cbn; lia).
    apply parseFrom_skip.
  - right. split; [| done]. intros p. by apply tokenAt_None.
Qed.

Lemma parse_facts (n : nat) :
  forall template,
    String.length template <= n ->
    concatMap render (parse template) = template
    /\ forall p, holesOnly p (parse template) = true.
Proof.
  induction n as [|n IH]; intros [|c s] Hlen; try done; cbn in Hlen; [lia |].
  destruct (parse_cons c s) as [(p & b & Hb & ->) | [Hnone ->]].
  - assert (String.length b <= n) as Hn.
    { apply (f_equal String.length) in Hb. rewrite length_append in Hb.
      destruct (token_cons p) as (a & t & Ht). rewrite Ht in Hb. cbn in Hb. lia. }
    destruct (IH b Hn) as [Hrender Hholes].
    split; [cbn [concatMap render]; by rewrite Hrender, Hb | done].
  - destruct (IH s ltac:(lia)) as [Hrender Hholes].
    split; [cbn [concatMap render]; by rewrite Hrender |].
    intros p. cbn [holesOnly noMatchIn]. rewrite Hrender, Hholes.
    change (String c EmptyString +:+ s) with (String c s).
    by rewrite Hnone.
Qed.

Lemma render_parse (template : string) :
  concatMap render (parse template) = template.
Proof. by apply (parse_facts (String.length template)). Qed.

Lemma parse_holesOnly (p : Placeholder) (template : string) :
  holesOnly p (parse template) = true.
Proof. by apply (parse_facts (String.length template)). Qed.

End ExactFacts.

(** ** Replacement segment by segment *)

Section PiecewiseFacts.












Lemma replaceInOrder_noOccurrence (marker : string) (env : PromptContext)
    (order : list Placeholder) (s : string) :
  (forall r, r ∈ order -> occursIn (token r) s = false) ->
  replaceInOrder marker env order s = s.
Proof.
  induction order as [|p order IH]; intros Hno; [done |].
  change (replaceInOrder marker env (p :: order) s)
    with (replaceInOrder marker env order
            (replaceAll (token p) (content marker env p) s)).
  rewrite replaceAll_noOccurrence by apply Hno, list_elem_of_here.
  apply IH. intros r Hr. by apply Hno, list_elem_of_further.
Qed.





End PiecewiseFacts.

(** ** PromptBuilder *)

Section PromptFacts.

Variable openTextDocument : string -> Exc string.

Lemma loadContextFiles_loadedContext (paths : list string) :
  forall acc,
    loadContextFiles openTextDocument acc paths
    = Returned (acc +:+ loadedContext openTextDocument paths).
Proof.
  induction paths as [|filePath rest IH]; intros acc; cbn.
  - by rewrite append_nil_r.
  - destruct (openTextDocument filePath) as [text | e]; cbn.
    + rewrite IH. by rewrite append_assoc.
    + apply IH.
Qed.

(** [buildPrompt] always returns, and what it returns is the chain of
    replacements on the effective template. *)
Lemma buildPrompt_returns (settings : gmap string DocumentSettings)
    (document : TextDocument) (position : Position) (defaultTemplate : string) :
  snd (buildPrompt openTextDocument settings document position defaultTemplate)
  = Returned
      (replaceTemplateVariables
         (orElse (promptTemplate (settingsOf (uri document) settings))
                 defaultTemplate)
         (getText document) (textBefore document position)
         (textAfter document position)
         (loadedContext openTextDocument
            (contextFiles (settingsOf (uri document) settings)))).
Proof.
  unfold buildPrompt, settingsOf, getSettings. cbn [fst snd].
  by rewrite loadContextFiles_loadedContext.
Qed.

Lemma buildPrompt_settings (settings : gmap string DocumentSettings)
    (document : TextDocument) (position : Position) (defaultTemplate : string) :
  fst (buildPrompt openTextDocument settings document position defaultTemplate)
  = fst (getSettings (uri document) settings).
Proof. reflexivity. Qed.

End PromptFacts.

(** ** Examples of the string operations *)

Example replaceAll_global :
  replaceAll "{cursor}" "X" "A{cursor}B{cursor}" = "AXBX".
Proof. reflexivity. Qed.

Example replaceAll_patterns :
  replaceAll "{document}" "a$$b$&c$`d$'e$1" "<<{document}>>"
  = "<<a$b{document}c<<d>>e$1>>".
Proof. reflexivity. Qed.

Example offsetAt_lines :
  let text := "ab" +:+ LF +:+ "cde" in
  offsetAt text 0 1 = 1 /\ offsetAt text 0 9 = 2 /\ offsetAt text 1 2 = 5
  /\ offsetAt text 7 0 = 6.
Proof. vm_compute. repeat split. Qed.

Example text_around_cursor :
  textBefore (sampleDocument "foobar") samplePosition = "foo"
  /\ textAfter (sampleDocument "foobar") samplePosition = "bar".
Proof. split; reflexivity. Qed.

Example orElse_empty_override :
  orElse (Some EmptyString) "default" = "default"
  /\ orElse (Some "custom") "default" = "custom"
  /\ orElse None "default" = "default".
Proof. repeat split. Qed.

(** ** Placeholder substitution *)

(** C7, as amended.  [buildPrompt] makes the five replacements one after the
    other in the order of the source, each over the whole current string.
    Every template is cut by [parse] into the occurrences of the five
    placeholders and the text between them.  A chain of replacements, in the
    order of the source or in any other that has all five placeholders, puts
    each text in place of the occurrences of its placeholder and copies the
    rest, unknown placeholders included, when every step is exact: the text
    it inserts holds none of the patterns [$$], [$&], [$`], [$'], and its
    token occurs in the current string only where the template had it, so
    that no text inserted before holds it or completes it.  [buildPrompt]
    returns exactly that for every template, document and position that
    meet the condition.  A template in which none of the five placeholders
    occurs is returned as it is, whatever the texts are. *)
Theorem placeholder_substitution :
  (forall (openTextDocument : string -> Exc string)
      (settings : gmap string DocumentSettings)
      (document : TextDocument) (position : Position) (defaultTemplate : string),
      snd (buildPrompt openTextDocument settings document position defaultTemplate)
      = Returned
          (replaceInOrder CURSOR_MARKER
             (promptContextOf openTextDocument settings document position)
             sourceOrder
             (orElse (promptTemplate (settingsOf (uri document) settings))
                     defaultTemplate)))
  /\ (forall template : string,
        concatMap render (parse template) = template
        /\ forall p, holesOnly p (parse template) = true)
  /\ (forall (marker : string) (env : PromptContext)
        (order : list Placeholder) (segs : list Segment),
        (forall p, p ∈ order) ->
        exactSteps marker env order segs = true ->
        replaceInOrder marker env order (concatMap render segs)
        = concatMap (expand marker env) segs)
  /\ (forall (openTextDocument : string -> Exc string)
        (settings : gmap string DocumentSettings)
        (document : TextDocument) (position : Position)
        (defaultTemplate : string),
        let template :=
          orElse (promptTemplate (settingsOf (uri document) settings))
                 defaultTemplate in
        let env := promptContextOf openTextDocument settings document position in
        exactSteps CURSOR_MARKER env sourceOrder (parse template) = true ->
        snd (buildPrompt openTextDocument settings document position defaultTemplate)
        = Returned (concatMap (expand CURSOR_MARKER env) (parse template)))
  /\ (forall (marker template : string) (env : PromptContext),
        (forall p, occursIn (token p) template = false) ->
        replaceTemplateVariablesWith marker template
          (fullDocument env) (textBeforeCursor env) (textAfterCursor env)
          (contextContent env)
        = template).
Proof.
  assert (forall marker env order segs,
            (forall p, p ∈ order) ->
            exactSteps marker env order segs = true ->
            replaceInOrder marker env order (concatMap render segs)
            = concatMap (expand marker env) segs) as Hexact.
  { intros marker env order segs Hall Hsteps.
    by rewrite (replaceInOrder_exact _ _ _ _ Hsteps), expandIn_all. }
  split; [| split; [| split; [| split]]].
  - intros. by rewrite buildPrompt_returns.
  - intros template. split; [apply render_parse | intros p; apply parse_holesOnly].
  - exact Hexact.
  - intros openTextDocument settings document position defaultTemplate
      template env Hsteps.
    rewrite buildPrompt_returns. f_equal.
    rewrite <- (Hexact _ _ _ _ sourceOrder_all Hsteps).
    by rewrite render_parse.
  - intros marker template env Hnone.
    rewrite replaceTemplateVariablesWith_order.
    apply replaceInOrder_noOccurrence. intros r _. apply Hnone.
Qed.

(** The template ["A{cursor}B{foo}{cursor}"] with marker ["X"]; the template
    ["{document}|{before_cursor}^{after_cursor}"] on a document that holds a
    dollar sign, the token [{document}] and an open brace at its end; and
    the template ["abc{"], without a placeholder, with texts that hold
    patterns and tokens. *)
Lemma placeholder_substitution_witness :
  replaceInOrder "X"
    {| fullDocument := "doc"; textBeforeCursor := "do";
       textAfterCursor := "c"; contextContent := "ctx" |}
    sourceOrder "A{cursor}B{foo}{cursor}"
  = "AXB{foo}X"
  /\ snd (buildPrompt noFiles ∅ (sampleDocument "cost $5, x{document}y {")
            {| line := 0; character := 8 |}
            "{document}|{before_cursor}^{after_cursor}")
     = Returned "cost $5, x{document}y {|cost $5,^ x{document}y {"
  /\ replaceTemplateVariablesWith "X" "abc{"
       "a$&b" "{cursor}" "$'" "{document}"
     = "abc{".
Proof.
  split; [| split].
  - exact (proj1 (proj2 (proj2 placeholder_substitution)) "X"
             {| fullDocument := "doc"; textBeforeCursor := "do";
                textAfterCursor := "c"; contextContent := "ctx" |}
             sourceOrder
             [Lit "A"; Hole PCursor; Lit "B{foo}"; Hole PCursor]
             sourceOrder_all eq_refl).
  - exact (proj1 (proj2 (proj2 (proj2 placeholder_substitution)))
             noFiles ∅ (sampleDocument "cost $5, x{document}y {")
             {| line := 0; character := 8 |}
             "{document}|{before_cursor}^{after_cursor}" eq_refl).
  - exact (proj2 (proj2 (proj2 (proj2 placeholder_substitution)))
             "X" "abc{"
             {| fullDocument := "a$&b"; textBeforeCursor := "{cursor}";
                textAfterCursor := "$'"; contextContent := "{document}" |}
             (fun p => match p with
                       | PDocument | PBeforeCursor | PAfterCursor
                       | PContextFiles | PCursor => eq_refl
                       end)).
Defined.

(** C7 as stated fails: the template is the single placeholder [{document}]
    and the document reads ["a{cursor}b"].  Replacing the occurrence of
    [{document}] by the document gives ["a{cursor}b"]; [buildPrompt] returns
    ["a[CURSOR HERE]b"], and the replacements made in the opposite order
    return ["a{cursor}b"]. *)
Lemma placeholder_substitution_counterexample :
  let document := sampleDocument "a{cursor}b" in
  let position := {| line := 0; character := 1 |} in
  let env := promptContextOf noFiles ∅ document position in
  snd (buildPrompt noFiles ∅ document position (concatMap render [Hole PDocument]))
    = Returned "a[CURSOR HERE]b"
  /\ concatMap (expand CURSOR_MARKER env) [Hole PDocument] = "a{cursor}b"
  /\ snd (buildPrompt noFiles ∅ document position
            (concatMap render [Hole PDocument]))
     <> Returned (concatMap (expand CURSOR_MARKER env) [Hole PDocument])
  /\ replaceInOrder CURSOR_MARKER env (rev sourceOrder) "{document}"
     <> replaceInOrder CURSOR_MARKER env sourceOrder "{document}".
Proof. vm_compute. repeat split; discriminate. Qed.

(** The dollar patterns of [String.prototype.replace] are live in the
    inserted text: a document that reads ["a$$b"] arrives as ["a$b"], and one
    that reads ["$&"] arrives as the placeholder itself. *)
Example buildPrompt_dollar_patterns :
  snd (buildPrompt noFiles ∅ (sampleDocument "a$$b") {| line := 0; character := 0 |}
         "{document}") = Returned "a$b"
  /\ snd (buildPrompt noFiles ∅ (sampleDocument "$&") {| line := 0; character := 0 |}
            "{document}") = Returned "{document}".
Proof. vm_compute. split; reflexivity. Qed.

(** ** Leakage between the replacements *)

Lemma clash_append (pat u t : string) :
  clash pat u = true -> clash pat (u +:+ t) = true.
Proof.
  revert u. induction pat as [|a pat IH]; intros [|b u]; cbn; try done.
  destruct (Ascii.eqb a b); [apply IH | done].
Qed.

Lemma inertFor_append (pat u t : string) :
  inertFor pat u = true -> inertFor pat t = true -> inertFor pat (u +:+ t) = true.
Proof.
  intros Hu Ht. induction u as [|c u IH]; [done |].
  cbn in Hu. apply andb_prop in Hu as [Hc Hu].
  change (String c u +:+ t) with (String c (u +:+ t)).
  cbn [inertFor]. rewrite (IH Hu), andb_true_r.
  change (String c (u +:+ t)) with (String c u +:+ t).
  by apply clash_append.
Qed.




(** ** Context files *)

(** C8.  [buildPrompt] never fails: it returns the chain of replacements in
    which [{context_files}] stands for the blocks of the files that could be
    loaded, in the configured order; a file that cannot be loaded is passed
    over.  With one file that loads and one that does not, in either order,
    the context is the block of the one that loads. *)
Theorem context_file_tolerance
    (openTextDocument : string -> Exc string)
    (settings : gmap string DocumentSettings)
    (document : TextDocument) (position : Position) (defaultTemplate : string) :
  snd (buildPrompt openTextDocument settings document position defaultTemplate)
  = Returned
      (replaceTemplateVariables
         (orElse (promptTemplate (settingsOf (uri document) settings))
                 defaultTemplate)
         (getText document) (textBefore document position)
         (textAfter document position)
         (loadedContext openTextDocument
            (contextFiles (settingsOf (uri document) settings))))
  /\ (forall acc paths,
        loadContextFiles openTextDocument acc paths
        = Returned (acc +:+ loadedContext openTextDocument paths))
  /\ (forall valid missing text e,
        openTextDocument valid = Returned text ->
        openTextDocument missing = Thrown e ->
        loadContextFiles openTextDocument EmptyString [valid; missing]
          = Returned (contextBlock valid text)
        /\ loadContextFiles openTextDocument EmptyString [missing; valid]
           = Returned (contextBlock valid text)).
Proof.
  split; [apply buildPrompt_returns |].
  split; [intros acc paths; apply loadContextFiles_loadedContext |].
  intros valid missing text e Hvalid Hmissing.
  rewrite !loadContextFiles_loadedContext. cbn [loadedContext].
  rewrite Hvalid, Hmissing.
  change (EmptyString +:+ (contextBlock valid text +:+ EmptyString))
    with (contextBlock valid text +:+ EmptyString).
  by rewrite append_nil_r.
Qed.

(** A document with the context files [/ctx/a.md] (readable) and
    [/ctx/gone.md] (missing) and the template [{context_files}]. *)
Lemma context_file_tolerance_witness :
  let settings :=
    addContextFile "file:///notes.md" "/ctx/gone.md"
      (addContextFile "file:///notes.md" "/ctx/a.md" ∅) in
  snd (buildPrompt sampleFiles settings (sampleDocument "text")
         {| line := 0; character := 0 |} "{context_files}")
  = Returned (LF +:+ "--- Context from /ctx/a.md ---" +:+ LF +:+ "alpha" +:+ LF)
  /\ loadContextFiles sampleFiles EmptyString ["/ctx/a.md"; "/ctx/gone.md"]
     = Returned (contextBlock "/ctx/a.md" "alpha")
  /\ loadContextFiles sampleFiles EmptyString ["/ctx/gone.md"; "/ctx/a.md"]
     = Returned (contextBlock "/ctx/a.md" "alpha").
Proof.
  intros settings.
  pose proof (context_file_tolerance sampleFiles settings (sampleDocument "text")
                {| line := 0; character := 0 |} "{context_files}")
    as (Hbuild & _ & Hpair).
  split.
  - rewrite Hbuild. vm_compute. reflexivity.
  - exact (Hpair "/ctx/a.md" "/ctx/gone.md" "alpha" "ENOENT" eq_refl eq_refl).
Defined.

(** ** DocumentSettingsManager *)

Section SettingsFacts.

Implicit Types settings : gmap string DocumentSettings.

Lemma getSettings_lookup d settings :
  fst (getSettings d settings) !! d = Some (settingsOf d settings).
Proof.
  unfold settingsOf, getSettings. cbn.
  destruct (settings !! d) as [entry|] eqn:Hd.
  - by rewrite Hd.
  - by rewrite lookup_insert_eq.
Qed.

Lemma getSettings_present d settings entry :
  settings !! d = Some entry ->
  getSettings d settings = (settings, entry).
Proof. intros Hd. unfold getSettings. rewrite Hd. cbn. by rewrite Hd. Qed.

Lemma getSettings_absent d settings :
  settings !! d = None ->
  getSettings d settings = (<[d := emptySettings]> settings, emptySettings).
Proof.
  intros Hd. unfold getSettings. rewrite Hd. cbn. by rewrite lookup_insert_eq.
Qed.

Lemma settingsOf_lookup d settings entry :
  settings !! d = Some entry -> settingsOf d settings = entry.
Proof. intros Hd. unfold settingsOf. by rewrite (getSettings_present _ _ _ Hd). Qed.

Lemma settingsOf_getSettings d d' settings :
  settingsOf d (fst (getSettings d' settings)) = settingsOf d settings.
Proof.
  destruct (settings !! d') as [entry|] eqn:Hd'.
  - by rewrite (getSettings_present _ _ _ Hd').
  - rewrite (getSettings_absent _ _ Hd'). cbn [fst].
    destruct (decide (d = d')) as [-> | Hne].
    + rewrite (settingsOf_lookup d' _ emptySettings) by apply lookup_insert_eq.
      unfold settingsOf. by rewrite (getSettings_absent _ _ Hd').
    + unfold settingsOf, getSettings. cbn [snd].
      rewrite !lookup_insert_ne by done.
      destruct (settings !! d) eqn:Hd;
        [rewrite lookup_insert_ne by done; by rewrite Hd
        | by rewrite !lookup_insert_eq].
Qed.

Lemma settingsOf_insert d d' entry settings :
  settingsOf d (<[d' := entry]> settings)
  = if decide (d = d') then entry else settingsOf d settings.
Proof.
  destruct (decide (d = d')) as [-> | Hne].
  - apply settingsOf_lookup, lookup_insert_eq.
  - unfold settingsOf, getSettings. cbn [snd].
      rewrite !lookup_insert_ne by done.
      destruct (settings !! d) eqn:Hd;
        [rewrite lookup_insert_ne by done; by rewrite Hd
        | by rewrite !lookup_insert_eq].
Qed.

Lemma indexOfFrom_absent (x : string) (l : list string) :
  x ∉ l -> forall i, indexOfFrom i x l = (-1)%Z.
Proof.
  induction l as [|y l IH]; intros Hx i; cbn; [done |].
  apply not_elem_of_cons in Hx as [Hne Hx].
  destruct (decide (y = x)); [congruence | by apply IH].
Qed.

Lemma indexOfFrom_present (x : string) (l : list string) :
  x ∈ l -> forall i, (i <= indexOfFrom i x l < i + Z.of_nat (length l))%Z.
Proof.
  induction l as [|y l IH]; intros Hx i; [by apply elem_of_nil in Hx |].
  cbn. destruct (decide (y = x)) as [-> | Hne]; [lia |].
  apply elem_of_cons in Hx as [-> | Hx]; [done |].
  specialize (IH Hx (i + 1)%Z). lia.
Qed.

Lemma occurrences_absent {A} `{EqDecision A} (x : A) (l : list A) :
  x ∉ l -> occurrences x l = 0.
Proof.
  unfold occurrences. induction l as [|y l IH]; intros Hx; [done |].
  apply not_elem_of_cons in Hx as [Hne Hx].
  rewrite filter_cons_False by congruence. by apply IH.
Qed.

Lemma occurrences_NoDup {A} `{EqDecision A} (x : A) (l : list A) :
  NoDup l -> x ∈ l -> occurrences x l = 1.
Proof.
  unfold occurrences. induction 1 as [|y l Hy Hl IH]; intros Hx.
  - by apply elem_of_nil in Hx.
  - destruct (decide (y = x)) as [-> | Hne].
    + rewrite filter_cons_True by done. cbn.
      pose proof (occurrences_absent x l Hy) as H0.
      unfold occurrences in H0. by rewrite H0.
    + rewrite filter_cons_False by done.
      apply elem_of_cons in Hx as [-> | Hx]; [done | by apply IH].
Qed.

Lemma setPromptTemplate_unfold d t settings :
  setPromptTemplate d t settings
  = <[d := {| promptTemplate := Some t;
              contextFiles := contextFiles (settingsOf d settings) |}]>
      (fst (getSettings d settings)).
Proof. reflexivity. Qed.

Lemma addContextFile_unfold d f settings :
  addContextFile d f settings
  = if negb (includes f (contextFiles (settingsOf d settings))) then
      <[d := {| promptTemplate := promptTemplate (settingsOf d settings);
                contextFiles := contextFiles (settingsOf d settings) ++ [f] |}]>
        (fst (getSettings d settings))
    else fst (getSettings d settings).
Proof. reflexivity. Qed.

Lemma removeContextFile_unfold d f settings :
  removeContextFile d f settings
  = if (-1 <? indexOf f (contextFiles (settingsOf d settings)))%Z then
      <[d := {| promptTemplate := promptTemplate (settingsOf d settings);
                contextFiles :=
                  delete (Z.to_nat (indexOf f (contextFiles (settingsOf d settings))))
                         (contextFiles (settingsOf d settings)) |}]>
        (fst (getSettings d settings))
    else fst (getSettings d settings).
Proof. reflexivity. Qed.

(** No path is listed twice, whatever calls were made. *)
Lemma contextFiles_NoDup (ops : list SettingsOp) (d : string) :
  NoDup (contextFiles (settingsOf d (runSettings ops))).
Proof.
  unfold runSettings. revert d.
  induction ops as [|op ops IH] using rev_ind; intros d.
  - cbn. unfold settingsOf, getSettings. rewrite lookup_empty.
    cbn. rewrite lookup_insert_eq. cbn. constructor.
  - rewrite foldl_app. cbn [foldl].
    set (m := foldl settingsStep ∅ ops) in *.
    destruct op as [d' | d' t | d' f | d' f]; cbn [settingsStep].
    + rewrite settingsOf_getSettings. apply IH.
    + rewrite setPromptTemplate_unfold, settingsOf_insert.
      destruct (decide (d = d')) as [-> | Hne]; cbn [contextFiles].
      * apply IH.
      * rewrite settingsOf_getSettings. apply IH.
    + rewrite addContextFile_unfold.
      unfold includes. case_bool_decide as Hin; cbn [negb].
      * rewrite settingsOf_getSettings. apply IH.
      * rewrite settingsOf_insert.
        destruct (decide (d = d')) as [-> | Hne]; cbn [contextFiles].
        -- apply NoDup_app. split; [apply IH |]. split; [| apply NoDup_singleton].
           intros x Hx ->%list_elem_of_singleton. done.
        -- rewrite settingsOf_getSettings. apply IH.
    + rewrite removeContextFile_unfold.
      destruct (_ <? _)%Z.
      * rewrite settingsOf_insert.
        destruct (decide (d = d')) as [-> | Hne]; cbn [contextFiles].
        -- eapply sublist_NoDup; [apply IH | apply sublist_delete].
        -- rewrite settingsOf_getSettings. apply IH.
      * rewrite settingsOf_getSettings. apply IH.
Qed.

End SettingsFacts.

Section SettingsClaims.

Implicit Types settings : gmap string DocumentSettings.

Lemma getSettings_again d settings :
  fst (getSettings d (fst (getSettings d settings))) = fst (getSettings d settings).
Proof. by rewrite (getSettings_present _ _ _ (getSettings_lookup d settings)). Qed.

Lemma addContextFile_twice d f settings :
  addContextFile d f (addContextFile d f settings) = addContextFile d f settings.
Proof.
  rewrite (addContextFile_unfold d f settings).
  unfold includes. case_bool_decide as Hin; cbn [negb].
  - rewrite addContextFile_unfold, settingsOf_getSettings.
    unfold includes. rewrite bool_decide_eq_true_2 by done. cbn [negb].
    apply getSettings_again.
  - rewrite addContextFile_unfold, settingsOf_insert.
    destruct (decide (d = d)); [| done]. cbn [contextFiles].
    unfold includes. rewrite bool_decide_eq_true_2 by set_solver. cbn [negb].
    by rewrite (getSettings_present _ _ _ (lookup_insert_eq _ _ _)).
Qed.

Lemma addContextFile_contextFiles d f settings :
  contextFiles (settingsOf d (addContextFile d f settings))
  = if includes f (contextFiles (settingsOf d settings))
    then contextFiles (settingsOf d settings)
    else contextFiles (settingsOf d settings) ++ [f].
Proof.
  rewrite addContextFile_unfold.
  destruct (includes f _); cbn [negb].
  - by rewrite settingsOf_getSettings.
  - rewrite settingsOf_insert. by destruct (decide (d = d)).
Qed.

Lemma removeContextFile_absent d f settings :
  f ∉ contextFiles (settingsOf d settings) ->
  removeContextFile d f settings = fst (getSettings d settings).
Proof.
  intros Hf. rewrite removeContextFile_unfold.
  unfold indexOf. by rewrite (indexOfFrom_absent _ _ Hf).
Qed.

End SettingsClaims.

(** C9.  Adding the same path twice is the same as adding it once, and after
    any history of calls the path is then listed exactly once; removing a path
    that is not listed changes no document's settings (the call only creates
    the entry of the document if it did not exist yet, and changes nothing at
    all if it did); and the first access to a document creates the entry with
    no template and no context files. *)
Theorem settings_idempotence
    (settings : gmap string DocumentSettings) (ops : list SettingsOp)
    (d p : string) :
  addContextFile d p (addContextFile d p settings) = addContextFile d p settings
  /\ occurrences p
       (contextFiles
          (settingsOf d (addContextFile d p (addContextFile d p (runSettings ops)))))
     = 1
  /\ (p ∉ contextFiles (settingsOf d settings) ->
      removeContextFile d p settings = fst (getSettings d settings)
      /\ (forall d', settingsOf d' (removeContextFile d p settings)
                     = settingsOf d' settings)
      /\ (is_Some (settings !! d) -> removeContextFile d p settings = settings))
  /\ (settings !! d = None ->
      getSettings d settings = (<[d := emptySettings]> settings, emptySettings)).
Proof.
  split; [apply addContextFile_twice |].
  split.
  { rewrite addContextFile_twice, addContextFile_contextFiles.
    pose proof (contextFiles_NoDup ops d) as Hnodup.
    unfold includes. case_bool_decide as Hin.
    - by apply occurrences_NoDup.
    - unfold occurrences. rewrite filter_app, length_app.
      pose proof (occurrences_absent p _ Hin) as H0.
      unfold occurrences in H0. rewrite H0.
      by rewrite filter_cons_True. }
  split.
  { intros Hp. rewrite (removeContextFile_absent _ _ _ Hp).
    split; [done |]. split.
    - intros d'. apply settingsOf_getSettings.
    - intros [entry Hentry]. by rewrite (getSettings_present _ _ _ Hentry). }
  apply getSettings_absent.
Qed.

Lemma settings_idempotence_witness :
  let settings := addContextFile "file:///notes.md" "/ctx/a.md" ∅ in
  removeContextFile "file:///notes.md" "/ctx/b.md" settings = settings
  /\ getSettings "file:///other.md" settings
     = (<["file:///other.md" := emptySettings]> settings, emptySettings)
  /\ contextFiles
       (settingsOf "file:///notes.md"
          (addContextFile "file:///notes.md" "/ctx/a.md" settings))
     = ["/ctx/a.md"].
Proof.
  intros settings.
  pose proof (settings_idempotence settings [] "file:///notes.md" "/ctx/b.md")
    as (_ & _ & Hremove & _).
  pose proof (settings_idempotence settings [] "file:///other.md" "/ctx/b.md")
    as (_ & _ & _ & Hget).
  pose proof (settings_idempotence ∅ [] "file:///notes.md" "/ctx/a.md")
    as (Hadd & _).
  split; [| split].
  - assert (("/ctx/b.md" : string) ∉
              contextFiles (settingsOf "file:///notes.md" settings)) as Habsent.
    { vm_compute. intros Hin. apply list_elem_of_In in Hin.
      destruct Hin as [Heq | []]. discriminate Heq. }
    destruct (Hremove Habsent) as (_ & _ & Hsame).
    apply Hsame. vm_compute. eauto.
  - apply Hget. vm_compute. reflexivity.
  - fold settings in Hadd. rewrite Hadd. vm_compute. reflexivity.
Defined.

(** ** The coordinator *)

Section PendingFacts.

Implicit Types l : list (option (list InlineCompletionItem)).

Lemma elem_of_pendingFrom l : forall i p,
  p ∈ pendingFrom i l <-> i <= p /\ l !! (p - i) = Some None.
Proof.
  induction l as [|st l IH]; intros i p; cbn [pendingFrom].
  - rewrite elem_of_nil, lookup_nil. naive_solver.
  - destruct st as [items|].
    + rewrite IH. split.
      * intros [Hle Hl]. split; [lia |].
        replace (p - i) with (S (p - S i)) by lia. done.
      * intros [Hle Hl]. destruct (p - i) as [|k] eqn:Hk; [done |].
        cbn in Hl. split; [lia |]. by replace (p - S i) with k by lia.
    + rewrite elem_of_cons, IH. split.
      * intros [-> | [Hle Hl]].
        -- split; [lia |]. by rewrite Nat.sub_diag.
        -- split; [lia |]. replace (p - i) with (S (p - S i)) by lia. done.
      * intros [Hle Hl]. destruct (p - i) as [|k] eqn:Hk.
        -- left. lia.
        -- right. cbn in Hl. split; [lia |]. by replace (p - S i) with k by lia.
Qed.

Lemma pendingFrom_nil_iff l i :
  pendingFrom i l = [] <-> forall j, l !! j <> Some None.
Proof.
  split.
  - intros Hnil j Hj.
    assert (i + j ∈ pendingFrom i l) as Hin.
    { apply elem_of_pendingFrom. split; [lia |].
      by replace (i + j - i) with j by lia. }
    rewrite Hnil in Hin. by apply elem_of_nil in Hin.
  - intros Hnone. destruct (pendingFrom i l) as [|p ps] eqn:Hp; [done |].
    assert (p ∈ pendingFrom i l) as Hin by (rewrite Hp; left).
    apply elem_of_pendingFrom in Hin as [_ Hin]. by apply Hnone in Hin.
Qed.

Lemma pendingFrom_app l k : forall i,
  pendingFrom i (l ++ k) = pendingFrom i l ++ pendingFrom (i + length l) k.
Proof.
  induction l as [|st l IH]; intros i; cbn.
  - by rewrite Nat.add_0_r.
  - rewrite IH. replace (S i + length l) with (i + S (length l)) by lia.
    by destruct st.
Qed.

(** Fulfilling the only pending promise leaves none pending. *)
Lemma pendingFrom_settle l p items :
  pendingFrom 0 l = [p] ->
  pendingFrom 0 (<[p := Some items]> l) = [].
Proof.
  intros Hp. apply pendingFrom_nil_iff. intros j Hj.
  destruct (decide (j = p)) as [-> | Hne].
  - assert (p < length l) as Hlt.
    { apply lookup_lt_Some in Hj. by rewrite length_insert in Hj. }
    rewrite list_lookup_insert_eq in Hj by done. discriminate Hj.
  - rewrite list_lookup_insert_ne in Hj by done.
    assert (j ∈ pendingFrom 0 l) as Hin.
    { apply elem_of_pendingFrom. split; [lia |]. by rewrite Nat.sub_0_r. }
    rewrite Hp in Hin. apply list_elem_of_singleton in Hin. done.
Qed.

Lemma pendingFrom_lookup l p :
  pendingFrom 0 l = [p] -> l !! p = Some None.
Proof.
  intros Hp. assert (p ∈ pendingFrom 0 l) as Hin by (rewrite Hp; left).
  apply elem_of_pendingFrom in Hin as [_ Hin]. by rewrite Nat.sub_0_r in Hin.
Qed.

End PendingFacts.

Section TraceFacts.

Lemma resolveCalls_app (tr1 tr2 : list Event) :
  resolveCalls (tr1 ++ tr2) = resolveCalls tr1 ++ resolveCalls tr2.
Proof.
  induction tr1 as [|ev tr1 IH]; [done |].
  destruct ev; cbn; by rewrite ?IH.
Qed.

Lemma elem_of_resolveCalls (tr : list Event) (p : nat) :
  p ∈ resolveCalls tr <-> exists items, EvResolveCalled p items ∈ tr.
Proof.
  induction tr as [|ev tr IH].
  - cbn. split; [by intros ?%elem_of_nil | by intros [? ?%elem_of_nil]].
  - setoid_rewrite elem_of_cons.
    destruct ev; cbn [resolveCalls]; rewrite ?elem_of_cons, IH; naive_solver.
Qed.

End TraceFacts.

Section CoordinatorFacts.

Lemma inv_initial : CoordinatorInv [] initialCoordinator.
Proof.
  split; cbn.
  - done.
  - constructor.
  - intros p items. rewrite elem_of_nil, lookup_nil. naive_solver.
  - intros p. rewrite elem_of_nil. lia.
  - intros p items Hin. by apply elem_of_nil in Hin.
Qed.

Lemma inv_weaken ops op c : CoordinatorInv ops c -> CoordinatorInv (ops ++ [op]) c.
Proof.
  intros [H1 H2 H3 H4 H5]. split; try done.
  intros p items Hin. destruct (H5 p items Hin) as [-> | Hop]; [by left |].
  right. apply elem_of_app. by left.
Qed.

(** The slot's promise is pending. *)
Lemma inv_slot_pending ops c r :
  CoordinatorInv ops c -> pendingRequest c = Some r ->
  promises c !! promise r = Some None.
Proof.
  intros Hinv Hr. apply pendingFrom_lookup.
  pose proof (inv_pending _ _ Hinv) as Hp.
  unfold pendingFutures, slotFutures in Hp. by rewrite Hr in Hp.
Qed.

(** Calling [resolve] on the slot's promise: everything but the slot. *)
Lemma callResolve_slot ops c r items :
  CoordinatorInv ops c -> pendingRequest c = Some r ->
  let c' := callResolve (promise r) items c in
  pendingFutures c' = []
  /\ NoDup (resolveCalls (trace c'))
  /\ (forall p its,
        EvResolveCalled p its ∈ trace c' <-> promises c' !! p = Some (Some its))
  /\ (forall p, EvPromiseCreated p ∈ trace c' <-> p < length (promises c'))
  /\ promises c' = <[promise r := Some items]> (promises c)
  /\ trace c' = trace c ++ [EvResolveCalled (promise r) items].
Proof.
  intros Hinv Hr c'.
  pose proof (inv_slot_pending _ _ _ Hinv Hr) as Hpending.
  assert (promises c' = <[promise r := Some items]> (promises c)) as Hprom.
  { subst c'. unfold callResolve. cbn. by rewrite Hpending. }
  assert (trace c' = trace c ++ [EvResolveCalled (promise r) items]) as Htrace
    by done.
  assert (promise r < length (promises c)) as Hlt
    by (by apply lookup_lt_Some in Hpending).
  split; [| split; [| split; [| split; [| split]]]]; try done.
  - unfold pendingFutures. rewrite Hprom. apply pendingFrom_settle.
    pose proof (inv_pending _ _ Hinv) as Hp.
    unfold pendingFutures, slotFutures in Hp. by rewrite Hr in Hp.
  - rewrite Htrace, resolveCalls_app. cbn.
    apply NoDup_app. split; [apply (inv_calls _ _ Hinv) |].
    split; [| apply NoDup_singleton].
    intros p Hp ->%list_elem_of_singleton.
    apply elem_of_resolveCalls in Hp as [its Hits].
    apply (inv_settled _ _ Hinv) in Hits. congruence.
  - intros p its. rewrite Htrace, Hprom, elem_of_app, list_elem_of_singleton.
    rewrite (inv_settled _ _ Hinv).
    destruct (decide (p = promise r)) as [-> | Hne].
    + rewrite list_lookup_insert_eq by done. rewrite Hpending. naive_solver.
    + rewrite list_lookup_insert_ne by done. naive_solver.
  - intros p. rewrite Htrace, Hprom, length_insert, elem_of_app,
      list_elem_of_singleton.
    rewrite (inv_created _ _ Hinv). naive_solver.
Qed.

Lemma cancelExisting_pending ops c :
  CoordinatorInv ops c -> pendingFutures (cancelExisting c) = [].
Proof.
  intros Hinv. unfold cancelExisting.
  destruct (pendingRequest c) as [r|] eqn:Hr.
  - by destruct (callResolve_slot ops c r [] Hinv Hr) as (H & _).
  - pose proof (inv_pending _ _ Hinv) as Hp.
    unfold slotFutures in Hp. by rewrite Hr in Hp.
Qed.

Lemma inv_create ops c d pos :
  CoordinatorInv ops c ->
  CoordinatorInv (ops ++ [OpCreate d pos]) (createPendingRequest d pos c).
Proof.
  intros Hinv.
  pose proof (cancelExisting_pending ops c Hinv) as Hnone.
  assert (NoDup (resolveCalls (trace (cancelExisting c)))
          /\ (forall p its, EvResolveCalled p its ∈ trace (cancelExisting c)
                <-> promises (cancelExisting c) !! p = Some (Some its))
          /\ (forall p, EvPromiseCreated p ∈ trace (cancelExisting c)
                <-> p < length (promises (cancelExisting c)))
          /\ (forall p its, EvResolveCalled p its ∈ trace (cancelExisting c) ->
                its = [] \/ OpResolve its ∈ ops)) as (Hc1 & Hc2 & Hc3 & Hc4).
  { unfold cancelExisting. destruct (pendingRequest c) as [r|] eqn:Hr.
    - destruct (callResolve_slot ops c r [] Hinv Hr) as (_ & K1 & K2 & K3 & _ & K5).
      repeat split; try done; try apply K2; try apply K3.
      intros p its. rewrite K5, elem_of_app, list_elem_of_singleton.
      intros [Hin | Heq]; [by apply (inv_items _ _ Hinv p) | left; congruence].
    - destruct Hinv as [H1 H2 H3 H4 H5]. repeat split; try done;
        try apply H3; try apply H4. }
  unfold createPendingRequest, newPromise, assignPending.
  set (c1 := cancelExisting c) in *.
  split; cbn.
  - unfold pendingFutures, slotFutures. cbn.
    rewrite pendingFrom_app. unfold pendingFutures in Hnone. rewrite Hnone.
    done.
  - rewrite resolveCalls_app. cbn. by rewrite app_nil_r.
  - intros p its. rewrite elem_of_app, list_elem_of_singleton, Hc2.
    destruct (decide (p < length (promises c1))) as [Hlt | Hge].
    + rewrite lookup_app_l by done. naive_solver.
    + rewrite lookup_app_r by lia.
      rewrite (lookup_ge_None_2 (promises c1) p) by lia.
      destruct (p - length (promises c1)) as [|k]; cbn; [naive_solver |].
      rewrite ?lookup_nil. naive_solver.
  - intros p. rewrite elem_of_app, list_elem_of_singleton, Hc3, length_app.
    cbn. split; [intros [Hlt | Heq]; [lia | injection Heq as ->; lia] |].
    intros Hlt. destruct (decide (p = length (promises c1))) as [-> | Hne];
      [by right | left; lia].
  - intros p its. rewrite elem_of_app, list_elem_of_singleton.
    intros [Hin | Heq]; [| discriminate Heq].
    destruct (Hc4 p its Hin) as [-> | Hop]; [by left |].
    right. apply elem_of_app. by left.
Qed.

Lemma inv_settle_slot ops op c items :
  CoordinatorInv ops c ->
  (items = [] \/ op = OpResolve items) ->
  CoordinatorInv (ops ++ [op])
    (match pendingRequest c with
     | Some r => clearPending (callResolve (promise r) items c)
     | None => c
     end).
Proof.
  intros Hinv Hitems. destruct (pendingRequest c) as [r|] eqn:Hr.
  - destruct (callResolve_slot ops c r items Hinv Hr)
      as (K0 & K1 & K2 & K3 & _ & K5).
    split; cbn; try done.
    intros p its. rewrite elem_of_app, list_elem_of_singleton.
    intros [Hin | Heq].
    + destruct (inv_items _ _ Hinv p its Hin) as [-> | Hop]; [by left |].
      right. apply elem_of_app. by left.
    + injection Heq as -> ->. destruct Hitems as [-> | ->]; [by left |].
      right. apply elem_of_app. right. by left.
  - by apply inv_weaken.
Qed.

Lemma coordinator_invariant (ops : list CoordinatorOp) :
  CoordinatorInv ops (runCoordinator ops).
Proof.
  unfold runCoordinator.
  induction ops as [|op ops IH] using rev_ind; [apply inv_initial |].
  rewrite foldl_app. cbn [foldl].
  destruct op as [d pos | items |]; cbn [coordinatorStep].
  - by apply inv_create.
  - apply inv_settle_slot; [done | by right].
  - apply inv_settle_slot; [done | by left].
Qed.


End CoordinatorFacts.

(** C1.  After any sequence of [createPendingRequest], [resolveRequest] and
    [cancelRequest] the pending promises are exactly the promise of the slot,
    so there is at most one; this also holds at the instants inside
    [createPendingRequest] (after the old request is cancelled, after the new
    promise is made, after the slot is assigned).  When a request is pending,
    [createPendingRequest] fulfils its promise with the empty list while the
    new promise does not exist yet, and the two actions are logged in that
    order. *)
Theorem single_flight (ops : list CoordinatorOp) :
  let c := runCoordinator ops in
  pendingFutures c = slotFutures c
  /\ length (pendingFutures c) <= 1
  /\ (forall d pos,
        pendingFutures (cancelExisting c) = []
        /\ pendingFutures (snd (newPromise (cancelExisting c)))
           = [length (promises c)]
        /\ pendingFutures (createPendingRequest d pos c) = [length (promises c)]
        /\ pendingRequest (createPendingRequest d pos c)
           = Some {| documentUri := d; position := pos;
                     promise := length (promises c) |})
  /\ (forall d pos r,
        pendingRequest c = Some r ->
        promises c !! promise r = Some None
        /\ promises (cancelExisting c) !! promise r = Some (Some [])
        /\ length (promises (cancelExisting c)) = length (promises c)
        /\ promises (createPendingRequest d pos c) !! promise r = Some (Some [])
        /\ trace (createPendingRequest d pos c)
           = trace c ++ [EvResolveCalled (promise r) [];
                         EvPromiseCreated (length (promises c))]).
Proof.
  intros c. pose proof (coordinator_invariant ops) as Hinv. fold c in Hinv.
  pose proof (inv_pending _ _ Hinv) as Hpending.
  assert (length (promises (cancelExisting c)) = length (promises c)) as Hlen.
  { unfold cancelExisting. destruct (pendingRequest c) as [r|]; [| done].
    unfold callResolve. cbn. destruct (promises c !! promise r) as [[?|]|];
      by rewrite ?length_insert. }
  split; [done |].
  split.
  { rewrite Hpending. unfold slotFutures. destruct (pendingRequest c); cbn; lia. }
  split.
  { intros d pos.
    pose proof (cancelExisting_pending ops c Hinv) as Hnone.
    assert (pendingFutures (snd (newPromise (cancelExisting c)))
            = [length (promises c)]) as Hnew.
    { unfold newPromise, pendingFutures in *. cbn.
      rewrite pendingFrom_app, Hnone, Hlen. done. }
    split; [done |]. split; [done |].
    unfold createPendingRequest, newPromise, assignPending. cbn.
    rewrite Hlen. split; [| done].
    unfold newPromise, pendingFutures in *. cbn in *. done. }
  intros d pos r Hr.
  pose proof (inv_slot_pending _ _ _ Hinv Hr) as Hslot.
  assert (promise r < length (promises c)) as Hlt
    by (by apply lookup_lt_Some in Hslot).
  assert (promises (cancelExisting c) = <[promise r := Some []]> (promises c))
    as Hprom.
  { unfold cancelExisting. rewrite Hr. unfold callResolve. cbn. by rewrite Hslot. }
  split; [done |].
  split; [rewrite Hprom; by apply list_lookup_insert_eq |].
  split; [done |].
  unfold createPendingRequest, newPromise, assignPending. cbn.
  split.
  - rewrite lookup_app_l by (by rewrite Hlen).
    rewrite Hprom. by apply list_lookup_insert_eq.
  - rewrite Hlen. unfold cancelExisting. rewrite Hr. cbn.
    by rewrite <- app_assoc.
Qed.

(** A request for [a.md] is pending when one for [b.md] begins. *)
Lemma single_flight_witness :
  let c := runCoordinator [OpCreate "file:///a.md" samplePosition] in
  promises (createPendingRequest "file:///b.md" samplePosition c)
    = [Some []; None]
  /\ trace (createPendingRequest "file:///b.md" samplePosition c)
     = [EvPromiseCreated 0; EvResolveCalled 0 []; EvPromiseCreated 1].
Proof.
  intros c.
  pose proof (single_flight [OpCreate "file:///a.md" samplePosition])
    as (_ & _ & _ & Hcancel).
  destruct (Hcancel "file:///b.md" samplePosition
              {| documentUri := "file:///a.md"; position := samplePosition;
                 promise := 0 |} eq_refl) as (_ & _ & _ & _ & Htrace).
  split; [reflexivity | exact Htrace].
Defined.




(** ** Reading the pending state *)

Lemma getPendingPromise_unchanged (c : Coordinator) (uri : string) :
  snd (getPendingPromise uri c) = c.
Proof.
  unfold getPendingPromise. destruct (pendingRequest c) as [r|]; [| done].
  by destruct (decide (documentUri r = uri)).
Qed.

(** C3, as amended.  [getPendingPromise] returns the slot's promise exactly
    when the slot is held for the document asked for, and leaves the manager
    as it was.  [getCompletionResult] of the stored-result variant returns the
    stored result exactly when it was stored for the document asked for; it
    never touches the pending slot or the last completion text, and it leaves
    the manager as it was when it returns nothing; when it returns the result
    it counts the call, and from the fourth counted call on it drops the
    stored result. *)
Theorem peek_pending :
  (forall (c : Coordinator) (uri : string),
      snd (getPendingPromise uri c) = c
      /\ forall p, fst (getPendingPromise uri c) = Some p
           <-> exists r, pendingRequest c = Some r /\ documentUri r = uri
                         /\ promise r = p)
  /\ (forall (m : Legacy.CompletionTriggerManager) (uri : string),
        let res := fst (Legacy.getCompletionResult uri m) in
        let m' := snd (Legacy.getCompletionResult uri m) in
        res = (if bool_decide (Legacy.completionDocUri m = Some uri)
               then Legacy.completionResult m else None)
        /\ Legacy.pendingCompletion m' = Legacy.pendingCompletion m
        /\ Legacy.lastCompletionText m' = Legacy.lastCompletionText m
        /\ (res = None -> m' = m)
        /\ (res <> None ->
            Legacy.resultCallCount m' = S (Legacy.resultCallCount m)
            /\ (3 < S (Legacy.resultCallCount m) ->
                Legacy.completionResult m' = None
                /\ Legacy.completionDocUri m' = None)
            /\ (S (Legacy.resultCallCount m) <= 3 ->
                Legacy.completionResult m' = Legacy.completionResult m
                /\ Legacy.completionDocUri m' = Legacy.completionDocUri m))).
Proof.
  split.
  - intros c uri. unfold getPendingPromise.
    destruct (pendingRequest c) as [r|] eqn:Hr.
    + destruct (decide (documentUri r = uri)) as [Huri | Huri]; cbn.
      * split; [done |]. intros p. split.
        -- intros [= <-]. by exists r.
        -- intros (r' & [= <-] & _ & <-). done.
      * split; [done |]. intros p. split; [done |].
        intros (r' & [= <-] & Heq & _). done.
    + cbn. split; [done |]. intros p. split; [done |].
      intros (r' & Hr' & _). done.
  - intros m uri res m'. subst res m'. unfold Legacy.getCompletionResult.
    case_bool_decide as Huri.
    + destruct (Legacy.completionResult m) as [result|] eqn:Hres; [| done].
      destruct (Nat.ltb_spec 3 (S (Legacy.resultCallCount m))) as [Hgt | Hle];
        cbn; (repeat split; try done; try lia).
    + done.
Qed.

Lemma peek_pending_witness :
  snd (getPendingPromise "file:///notes.md"
         (runCoordinator [OpCreate "file:///notes.md" samplePosition]))
    = runCoordinator [OpCreate "file:///notes.md" samplePosition]
  /\ snd (Legacy.getCompletionResult "file:///other.md" storedManager) = storedManager
  /\ Legacy.resultCallCount
       (snd (Legacy.getCompletionResult "file:///notes.md" storedManager)) = 1
  /\ Legacy.completionResult
       (snd (Legacy.getCompletionResult "file:///notes.md" storedManager))
     = Some [sampleItem]
  /\ Legacy.completionResult
       (snd (Legacy.getCompletionResult "file:///notes.md" wornManager)) = None.
Proof.
  pose proof (proj1 peek_pending
                (runCoordinator [OpCreate "file:///notes.md" samplePosition])
                "file:///notes.md") as [Hpure _].
  pose proof (proj2 peek_pending storedManager "file:///other.md")
    as (_ & _ & _ & Hnone & _).
  pose proof (proj2 peek_pending storedManager "file:///notes.md")
    as (_ & _ & _ & _ & Hsome).
  pose proof (proj2 peek_pending wornManager "file:///notes.md")
    as (_ & _ & _ & _ & Hworn).
  destruct (Hsome ltac:(discriminate)) as (Hcount & _ & Hkeep).
  destruct (Hworn ltac:(discriminate)) as (_ & Hdrop & _).
  split; [exact Hpure |].
  split; [apply Hnone; reflexivity |].
  split; [exact Hcount |].
  split.
  - apply Hkeep. vm_compute. lia.
  - apply Hdrop. vm_compute. lia.
Defined.

(** C3 as stated fails for [getCompletionResult]: a call that returns the
    stored result changes the call counter, and the fourth such call removes
    the stored result, so that the fifth call returns nothing. *)
Lemma peek_pending_counterexample :
  let peek m := snd (Legacy.getCompletionResult "file:///notes.md" m) in
  peek storedManager <> storedManager
  /\ Legacy.resultCallCount (peek storedManager) = 1
  /\ fst (Legacy.getCompletionResult "file:///notes.md"
            (peek (peek (peek storedManager)))) = Some [sampleItem]
  /\ Legacy.completionResult (peek (peek (peek (peek storedManager)))) = None
  /\ fst (Legacy.getCompletionResult "file:///notes.md"
            (peek (peek (peek (peek storedManager))))) = None.
Proof. vm_compute. repeat split; discriminate. Qed.

(** ** The provider *)

(** C5.  For a document that is not markdown the provider returns null and
    leaves the manager as it was, whatever the slot holds.  For a markdown
    document it returns what [getPendingPromise] returns for the document.
    It never changes the manager, so it logs no action: no promise is made or
    settled and the model is not called.  The provider of the stored-result
    variant declines in the same way and otherwise returns what
    [getCompletionResult] returns. *)
Theorem provider_decline :
  (forall (document : TextDocument) (position : Position) (c : Coordinator),
      snd (provideInlineCompletionItems document position c) = c
      /\ (languageId document <> "markdown" ->
          fst (provideInlineCompletionItems document position c) = None)
      /\ (languageId document = "markdown" ->
          fst (provideInlineCompletionItems document position c)
          = fst (getPendingPromise (uri document) c)))
  /\ (forall (document : TextDocument) (position : Position)
        (m : Legacy.CompletionTriggerManager),
        (languageId document <> "markdown" ->
         Legacy.provideInlineCompletionItems document position m = (None, m))
        /\ (languageId document = "markdown" ->
            Legacy.provideInlineCompletionItems document position m
            = Legacy.getCompletionResult (uri document) m)).
Proof.
  split.
  - intros document position c. unfold provideInlineCompletionItems.
    case_bool_decide as Hlang; cbn [negb].
    + pose proof (getPendingPromise_unchanged c (uri document)) as Hsame.
      destruct (getPendingPromise (uri document) c) as [[p|] c'] eqn:Hget;
        cbn in *; subst; done.
    + done.
  - intros document position m. unfold Legacy.provideInlineCompletionItems.
    case_bool_decide as Hlang; cbn [negb]; [| done].
    split; [done |]. intros _.
    by destruct (Legacy.getCompletionResult (uri document) m) as [[items|] m'].
Qed.

(** A plain-text document is declined while a request for a markdown document
    is pending, and the markdown document gets the pending promise. *)
Lemma provider_decline_witness :
  let c := runCoordinator [OpCreate "file:///notes.md" samplePosition] in
  let textFile := {| uri := "file:///readme.txt"; languageId := "plaintext";
                     getText := "plain" |} in
  fst (provideInlineCompletionItems textFile samplePosition c) = None
  /\ fst (provideInlineCompletionItems (sampleDocument "foobar") samplePosition c)
     = Some 0
  /\ Legacy.provideInlineCompletionItems textFile samplePosition storedManager
     = (None, storedManager)
  /\ fst (Legacy.provideInlineCompletionItems (sampleDocument "foobar")
            samplePosition storedManager)
     = Some [sampleItem].
Proof.
  intros c textFile.
  pose proof (proj1 provider_decline textFile samplePosition c) as (_ & Hno & _).
  pose proof (proj1 provider_decline (sampleDocument "foobar") samplePosition c)
    as (_ & _ & Hyes).
  pose proof (proj2 provider_decline textFile samplePosition storedManager)
    as (Hlegacy & _).
  pose proof (proj2 provider_decline (sampleDocument "foobar") samplePosition
                storedManager) as (_ & Hstored).
  split; [| split; [| split]].
  - apply Hno. discriminate.
  - rewrite Hyes; reflexivity.
  - apply Hlegacy. discriminate.
  - rewrite Hstored; reflexivity.
Defined.

(** ** The trigger command *)

Section HandlerFacts.

Lemma getCompletion_returns (sdk : Sdk) (prompt : string) (config : Config) :
  exists completion, snd (getCompletion sdk prompt config) = Returned completion.
Proof.
  unfold getCompletion, tryCatchE, mbind, Eff_bind, mret, Eff_ret, liftExc, emitE.
  cbn. destruct (createAmazonBedrock sdk _) as [[]|e]; cbn; [| eauto].
  destruct (generateText sdk _ _ _) as [text|e]; cbn; eauto.
Qed.

Lemma getCompletion_thrown (sdk : Sdk) (prompt : string) (config : Config) :
  (forall e, createAmazonBedrock sdk (configGet (cfgAwsRegion config) "us-east-1")
             = Thrown e ->
     getCompletion sdk prompt config
     = ([EvStatus "Error - see output"], Returned None))
  /\ (forall e,
        createAmazonBedrock sdk (configGet (cfgAwsRegion config) "us-east-1")
        = Returned tt ->
        generateText sdk
          (configGet (cfgModel config)
             "us.anthropic.claude-3-5-haiku-20241022-v1:0")
          prompt (configGet (cfgMaxTokens config) 150) = Thrown e ->
        getCompletion sdk prompt config
        = ([EvBackendCalled prompt; EvStatus "Error - see output"], Returned None)).
Proof.
  unfold getCompletion, tryCatchE, mbind, Eff_bind, mret, Eff_ret, liftExc, emitE.
  split.
  - intros e He. cbn. by rewrite He.
  - intros e Hc He. cbn. rewrite Hc. cbn. by rewrite He.
Qed.

Lemma cancelExisting_length (c : Coordinator) :
  length (promises (cancelExisting c)) = length (promises c).
Proof.
  unfold cancelExisting. destruct (pendingRequest c) as [r|]; [| done].
  unfold callResolve. cbn.
  destruct (promises c !! promise r) as [[?|]|]; by rewrite ?length_insert.
Qed.

Lemma cancelExisting_trace (c : Coordinator) :
  trace (cancelExisting c) = trace c ++ cancelEvents c.
Proof.
  unfold cancelExisting, cancelEvents.
  destruct (pendingRequest c) as [r|]; [done | by rewrite app_nil_r].
Qed.

Lemma createPendingRequest_spec (d : string) (pos : Position) (c : Coordinator) :
  pendingRequest (createPendingRequest d pos c)
    = Some {| documentUri := d; position := pos; promise := length (promises c) |}
  /\ promises (createPendingRequest d pos c) = promises (cancelExisting c) ++ [None]
  /\ trace (createPendingRequest d pos c)
     = trace c ++ cancelEvents c ++ [EvPromiseCreated (length (promises c))].
Proof.
  unfold createPendingRequest, newPromise, assignPending. cbn.
  rewrite cancelExisting_length, cancelExisting_trace.
  by rewrite <- app_assoc.
Qed.

Lemma emitAll_spec (evs : list Event) (w : World) :
  settingsManager (emitAll evs w) = settingsManager w
  /\ pendingRequest (requestManager (emitAll evs w)) = pendingRequest (requestManager w)
  /\ promises (requestManager (emitAll evs w)) = promises (requestManager w)
  /\ trace (requestManager (emitAll evs w)) = trace (requestManager w) ++ evs.
Proof.
  unfold emitAll, onCoordinator. cbn. generalize (requestManager w) as c.
  induction evs as [|ev evs IH]; intros c; cbn.
  - by rewrite app_nil_r.
  - destruct (IH (emit ev c)) as (_ & H2 & H3 & H4).
    rewrite H2, H3, H4. cbn. by rewrite <- app_assoc.
Qed.

Lemma triggerCompletionResume_spec (pos : Position) (completion : option string)
    (w : World) :
  triggerCompletionResume pos completion w
  = setStatus (completionStatus completion)
      (onCoordinator (resolveRequest (completionItems pos completion)) w).
Proof. by destruct completion as [[|ch s]|]. Qed.

(** Resuming with a request in the slot settles that request. *)
Lemma triggerCompletionResume_slot (pos : Position) (completion : option string)
    (w : World) (r : PendingRequest) :
  pendingRequest (requestManager w) = Some r ->
  promises (requestManager w) !! promise r = Some None ->
  let w' := triggerCompletionResume pos completion w in
  pendingRequest (requestManager w') = None
  /\ promises (requestManager w') !! promise r
     = Some (Some (completionItems pos completion))
  /\ trace (requestManager w')
     = trace (requestManager w)
       ++ [EvResolveCalled (promise r) (completionItems pos completion);
           EvStatus (completionStatus completion)].
Proof.
  intros Hr Hp w'. subst w'. rewrite triggerCompletionResume_spec.
  unfold setStatus, onCoordinator, resolveRequest, emit, clearPending, callResolve.
  cbn. rewrite Hr. cbn. rewrite Hp.
  split; [done |]. split; [| by rewrite <- app_assoc].
  apply list_lookup_insert_eq. by apply lookup_lt_Some in Hp.
Qed.

(** The handler up to its [await], for a markdown editor. *)
Lemma triggerCompletionStart_spec (openTextDocument : string -> Exc string)
    (document : TextDocument) (pos : Position) (config : Config) (w : World) :
  languageId document = "markdown" ->
  let c := requestManager w in
  let built :=
    buildPrompt openTextDocument (settingsManager w) document pos
      (configGet (cfgDefaultPromptTemplate config) builtinTemplate) in
  let start := triggerCompletionStart openTextDocument (Some (document, pos)) config w in
  snd start = Some {| sPosition := pos; sPrompt := snd built |}
  /\ settingsManager (fst start) = fst built
  /\ pendingRequest (requestManager (fst start))
     = Some {| documentUri := uri document; position := pos;
               promise := length (promises c) |}
  /\ promises (requestManager (fst start)) = promises (cancelExisting c) ++ [None]
  /\ trace (requestManager (fst start))
     = trace c ++ [EvStatus "Fetching..."] ++ cancelEvents c
       ++ [EvPromiseCreated (length (promises c)); EvInlineSuggestTriggered;
           EvBackendAwaited].
Proof.
  intros Hlang c built start. subst start. unfold triggerCompletionStart.
  rewrite bool_decide_eq_true_2 by done. cbn [negb].
  set (w2 := onCoordinator _ (setStatus _ w)).
  assert (settingsManager w2 = settingsManager w) as Hsm by done.
  rewrite Hsm. fold built. destruct built as [settings' prompt] eqn:Hbuilt.
  cbn [fst snd settingsManager requestManager onCoordinator emit trace
       pendingRequest promises].
  destruct (createPendingRequest_spec (uri document) pos
              (emit (EvStatus "Fetching...") c)) as (K1 & K2 & K3).
  subst w2. cbn [requestManager onCoordinator setStatus].
  fold c. rewrite K1, K2, K3. cbn [emit trace promises pendingRequest].
  repeat split; try done.
  - f_equal. unfold cancelExisting, callResolve, emit. cbn.
    by destruct (pendingRequest c).
  - change (cancelEvents (emit (EvStatus "Fetching...") c)) with (cancelEvents c).
    rewrite <- !app_assoc. done.
Qed.

End HandlerFacts.

Section HandlerRun.

Variable openTextDocument : string -> Exc string.
Variable sdk : Sdk.
Variable config : Config.

Lemma getCompletion_completionOf (prompt : string) :
  snd (getCompletion sdk prompt config) = Returned (completionOf sdk prompt config).
Proof.
  unfold completionOf.
  destruct (getCompletion_returns sdk prompt config) as [completion Hc].
  by rewrite Hc.
Qed.

(** One whole run of the handler for a markdown editor. *)
Lemma triggerCompletion_spec (document : TextDocument) (pos : Position) (w : World) :
  languageId document = "markdown" ->
  let c := requestManager w in
  let p := length (promises c) in
  let prompt := builtPrompt openTextDocument (settingsManager w) document pos config in
  let completion := completionOf sdk prompt config in
  let w1 := fst (triggerCompletionStart openTextDocument (Some (document, pos)) config w) in
  let w' := triggerCompletion openTextDocument sdk (Some (document, pos)) config w in
  promises (requestManager w1) !! p = Some None
  /\ pendingRequest (requestManager w') = None
  /\ promises (requestManager w') !! p = Some (Some (completionItems pos completion))
  /\ trace (requestManager w')
     = trace (requestManager w1) ++ fst (getCompletion sdk prompt config)
       ++ [EvResolveCalled p (completionItems pos completion);
           EvStatus (completionStatus completion)].
Proof.
  intros Hlang c p prompt completion w1 w'.
  destruct (triggerCompletionStart_spec openTextDocument document pos config w Hlang)
    as (Hsusp & _ & Hslot & Hprom & _).
  fold c p in Hslot, Hprom. fold w1 in Hsusp, Hslot, Hprom.
  assert (promises (requestManager w1) !! p = Some None) as Hp.
  { rewrite Hprom. subst p. rewrite <- (cancelExisting_length c).
    by rewrite list_lookup_middle. }
  split; [done |].
  subst w'. unfold triggerCompletion.
  destruct (triggerCompletionStart openTextDocument (Some (document, pos)) config w)
    as [w1' susp] eqn:Hstart.
  cbn [fst snd] in *. subst w1 susp.
  unfold triggerCompletionBackend. cbn [sPrompt sPosition].
  rewrite buildPrompt_returns. fold (builtPrompt openTextDocument (settingsManager w)
                                       document pos config). fold prompt.
  unfold mbind, Eff_bind, liftExc. cbn [fst snd app].
  pose proof (getCompletion_completionOf prompt) as Hc. fold completion in Hc.
  destruct (getCompletion sdk prompt config) as [evs outcome] eqn:Hget.
  cbn [fst snd] in *. subst outcome.
  destruct (emitAll_spec evs w1') as (_ & E2 & E3 & E4).
  destruct (triggerCompletionResume_slot pos completion (emitAll evs w1')
              {| documentUri := uri document; position := pos; promise := p |})
    as (R1 & R2 & R3); cbn [promise].
  - by rewrite E2.
  - by rewrite E3.
  - split; [done |]. split; [done |].
    rewrite R3, E4. by rewrite <- app_assoc.
Qed.

End HandlerRun.

(** C4.  In a run of the trigger command for a markdown editor the visible
    actions come in this order: the status, the cancellation of a request
    that was pending, the creation of the new promise, the request to the
    host to call the provider, the wait for the model, the call of the model,
    the settlement of the new promise, the final status.  When the handler
    waits, which is the first moment the provider can run, the slot holds the
    new promise for the document of the editor, the promise is pending, and
    the provider returns it for that document at any position. *)
Theorem reinvocation_order
    (openTextDocument : string -> Exc string) (sdk : Sdk) (config : Config)
    (document : TextDocument) (pos : Position) (w : World) :
  languageId document = "markdown" ->
  let c := requestManager w in
  let p := length (promises c) in
  let prompt := builtPrompt openTextDocument (settingsManager w) document pos config in
  let completion := completionOf sdk prompt config in
  let w1 := fst (triggerCompletionStart openTextDocument (Some (document, pos)) config w) in
  let w' := triggerCompletion openTextDocument sdk (Some (document, pos)) config w in
  trace (requestManager w1)
    = trace c ++ [EvStatus "Fetching..."] ++ cancelEvents c
      ++ [EvPromiseCreated p; EvInlineSuggestTriggered; EvBackendAwaited]
  /\ fst (getPendingPromise (uri document) (requestManager w1)) = Some p
  /\ promises (requestManager w1) !! p = Some None
  /\ (forall pos',
        provideInlineCompletionItems document pos' (requestManager w1)
        = (Some p, requestManager w1))
  /\ trace (requestManager w')
     = trace c ++ [EvStatus "Fetching..."] ++ cancelEvents c
       ++ [EvPromiseCreated p; EvInlineSuggestTriggered; EvBackendAwaited]
       ++ fst (getCompletion sdk prompt config)
       ++ [EvResolveCalled p (completionItems pos completion);
           EvStatus (completionStatus completion)]
  /\ promises (requestManager w') !! p
     = Some (Some (completionItems pos completion)).
Proof.
  intros Hlang c p prompt completion w1 w'.
  destruct (triggerCompletionStart_spec openTextDocument document pos config w Hlang)
    as (_ & _ & Hslot & _ & Htrace).
  destruct (triggerCompletion_spec openTextDocument sdk config document pos w Hlang)
    as (Hp & _ & Hfinal & Hrun).
  fold c p w1 in Hslot, Htrace, Hp. fold c p prompt completion w1 w' in Hfinal, Hrun.
  assert (getPendingPromise (uri document) (requestManager w1)
          = (Some p, requestManager w1)) as Hget.
  { unfold getPendingPromise. rewrite Hslot. cbn.
    by destruct (decide (uri document = uri document)). }
  split; [done |]. split; [by rewrite Hget |]. split; [done |].
  split.
  { intros pos'. unfold provideInlineCompletionItems.
    rewrite bool_decide_eq_true_2 by done. cbn [negb]. by rewrite Hget. }
  split; [| done].
  rewrite Hrun, Htrace. by rewrite <- !app_assoc.
Qed.

(** The template ["{before_cursor}[X]{after_cursor}"], the document
    ["foobar"] with the cursor behind ["foo"], and a model that answers
    ["baz"]. *)
Lemma reinvocation_order_witness :
  trace (requestManager
           (triggerCompletion noFiles answeringSdk
              (Some (sampleDocument "foobar", samplePosition))
              sampleConfig initialWorld))
  = [EvStatus "Fetching..."; EvPromiseCreated 0; EvInlineSuggestTriggered;
     EvBackendAwaited; EvBackendCalled "foo[X]bar";
     EvResolveCalled 0 [sampleItem]; EvStatus "Ready - Tab to accept"].
Proof.
  pose proof (reinvocation_order noFiles answeringSdk sampleConfig
                (sampleDocument "foobar") samplePosition initialWorld eq_refl)
    as (_ & _ & _ & _ & Hrun & _).
  exact Hrun.
Defined.

(** C6.  [getCompletion] always returns: when the SDK throws, while the
    provider object is made or while the text is generated, the error is
    caught, the error status is shown and the answer is null.  With the
    answer null the handler settles the request of the slot with the empty
    list and empties the slot; in a whole run of the command the promise made
    by the handler ends fulfilled with the empty list. *)
Theorem backend_fail_soft (sdk : Sdk) (config : Config) :
  (forall prompt,
      snd (getCompletion sdk prompt config)
      = Returned (completionOf sdk prompt config))
  /\ (forall prompt e,
        createAmazonBedrock sdk (configGet (cfgAwsRegion config) "us-east-1")
        = Thrown e ->
        getCompletion sdk prompt config
        = ([EvStatus "Error - see output"], Returned None))
  /\ (forall prompt e,
        createAmazonBedrock sdk (configGet (cfgAwsRegion config) "us-east-1")
        = Returned tt ->
        generateText sdk
          (configGet (cfgModel config)
             "us.anthropic.claude-3-5-haiku-20241022-v1:0")
          prompt (configGet (cfgMaxTokens config) 150) = Thrown e ->
        getCompletion sdk prompt config
        = ([EvBackendCalled prompt; EvStatus "Error - see output"],
           Returned None))
  /\ (forall (w : World) (pos : Position) (r : PendingRequest),
        pendingRequest (requestManager w) = Some r ->
        promises (requestManager w) !! promise r = Some None ->
        let w' := triggerCompletionResume pos None w in
        pendingRequest (requestManager w') = None
        /\ promises (requestManager w') !! promise r = Some (Some [])
        /\ trace (requestManager w')
           = trace (requestManager w)
             ++ [EvResolveCalled (promise r) []; EvStatus "No completion"])
  /\ (forall (openTextDocument : string -> Exc string)
        (document : TextDocument) (pos : Position) (w : World),
        languageId document = "markdown" ->
        completionOf sdk
          (builtPrompt openTextDocument (settingsManager w) document pos config)
          config = None ->
        let w' := triggerCompletion openTextDocument sdk (Some (document, pos))
                    config w in
        pendingRequest (requestManager w') = None
        /\ promises (requestManager w') !! length (promises (requestManager w))
           = Some (Some [])).
Proof.
  split; [intros prompt; apply getCompletion_completionOf |].
  split; [intros prompt; apply (getCompletion_thrown sdk prompt config) |].
  split; [intros prompt; apply (getCompletion_thrown sdk prompt config) |].
  split.
  - intros w pos r Hr Hp. apply (triggerCompletionResume_slot pos None w r Hr Hp).
  - intros openTextDocument document pos w Hlang Hnone w'.
    destruct (triggerCompletion_spec openTextDocument sdk config document pos w Hlang)
      as (_ & Hslot & Hfinal & _).
    rewrite Hnone in Hfinal. by split.
Qed.

(** The model call fails with a network error. *)
Lemma backend_fail_soft_witness :
  getCompletion failingSdk "foo[X]bar" sampleConfig
  = ([EvBackendCalled "foo[X]bar"; EvStatus "Error - see output"], Returned None)
  /\ getCompletion credentialSdk "foo[X]bar" sampleConfig
     = ([EvStatus "Error - see output"], Returned None)
  /\ promises (requestManager
                 (triggerCompletionResume samplePosition None
                    (onCoordinator
                       (createPendingRequest "file:///notes.md" samplePosition)
                       initialWorld))) !! 0
     = Some (Some [])
  /\ promises (requestManager
                 (triggerCompletion noFiles failingSdk
                    (Some (sampleDocument "foobar", samplePosition))
                    sampleConfig initialWorld)) !! 0
     = Some (Some []).
Proof.
  pose proof (backend_fail_soft failingSdk sampleConfig)
    as (_ & _ & Hthrown & Hresume & Hrun).
  pose proof (backend_fail_soft credentialSdk sampleConfig)
    as (_ & Hcredentials & _).
  split; [| split; [| split]].
  - exact (Hthrown "foo[X]bar" "network failure" eq_refl eq_refl).
  - exact (Hcredentials "foo[X]bar" "no credentials" eq_refl).
  - destruct (Hresume
                (onCoordinator
                   (createPendingRequest "file:///notes.md" samplePosition)
                   initialWorld)
                samplePosition
                {| documentUri := "file:///notes.md"; position := samplePosition;
                   promise := 0 |} eq_refl eq_refl) as (_ & Hsettled & _).
    exact Hsettled.
  - destruct (Hrun noFiles (sampleDocument "foobar") samplePosition initialWorld
                eq_refl eq_refl) as [_ Hsettled].
    exact Hsettled.
Defined.

(** * More of the settings store *)

Section SettingsMore.

Implicit Types settings : gmap string DocumentSettings.

Lemma indexOfFrom_split (x : string) (l1 l2 : list string) (i : Z) :
  x ∉ l1 -> indexOfFrom i x (l1 ++ x :: l2) = (i + Z.of_nat (length l1))%Z.
Proof.
  revert i. induction l1 as [|y l1 IH]; intros i Hx; cbn.
  - destruct (decide (x = x)); [lia | done].
  - apply not_elem_of_cons in Hx as [Hne Hx].
    destruct (decide (y = x)); [congruence |].
    rewrite IH by done. lia.
Qed.

Lemma elem_of_first_split (x : string) (l : list string) :
  x ∈ l -> exists l1 l2, l = l1 ++ x :: l2 /\ x ∉ l1.
Proof.
  induction l as [|y l IH]; intros Hx; [by apply elem_of_nil in Hx |].
  destruct (decide (y = x)) as [-> | Hne].
  - exists [], l. split; [done | apply not_elem_of_nil].
  - apply elem_of_cons in Hx as [-> | Hx]; [done |].
    destruct (IH Hx) as (l1 & l2 & -> & Hl1).
    exists (y :: l1), l2. split; [done |].
    apply not_elem_of_cons. split; [congruence | done].
Qed.

Lemma settingsOf_setPromptTemplate d d' t settings :
  settingsOf d' (setPromptTemplate d t settings)
  = if decide (d' = d)
    then {| promptTemplate := Some t;
            contextFiles := contextFiles (settingsOf d settings) |}
    else settingsOf d' settings.
Proof.
  rewrite setPromptTemplate_unfold, settingsOf_insert.
  destruct (decide (d' = d)); [done | apply settingsOf_getSettings].
Qed.

Lemma settingsOf_addContextFile d d' f settings :
  settingsOf d' (addContextFile d f settings)
  = if decide (d' = d)
    then {| promptTemplate := promptTemplate (settingsOf d settings);
            contextFiles :=
              if includes f (contextFiles (settingsOf d settings))
              then contextFiles (settingsOf d settings)
              else contextFiles (settingsOf d settings) ++ [f] |}
    else settingsOf d' settings.
Proof.
  rewrite addContextFile_unfold.
  destruct (includes f _); cbn [negb].
  - rewrite settingsOf_getSettings. destruct (decide (d' = d)) as [-> | ?]; [| done].
    by destruct (settingsOf d settings).
  - rewrite settingsOf_insert.
    destruct (decide (d' = d)); [done | apply settingsOf_getSettings].
Qed.

Lemma settingsOf_removeContextFile d d' f settings :
  settingsOf d' (removeContextFile d f settings)
  = if decide (d' = d)
    then {| promptTemplate := promptTemplate (settingsOf d settings);
            contextFiles :=
              if (-1 <? indexOf f (contextFiles (settingsOf d settings)))%Z
              then delete (Z.to_nat (indexOf f (contextFiles (settingsOf d settings))))
                          (contextFiles (settingsOf d settings))
              else contextFiles (settingsOf d settings) |}
    else settingsOf d' settings.
Proof.
  rewrite removeContextFile_unfold.
  destruct (_ <? _)%Z.
  - rewrite settingsOf_insert.
    destruct (decide (d' = d)); [done | apply settingsOf_getSettings].
  - rewrite settingsOf_getSettings. destruct (decide (d' = d)) as [-> | ?]; [| done].
    by destruct (settingsOf d settings).
Qed.

Lemma filter_all {A} (P : A -> Prop) `{forall x, Decision (P x)} (l : list A) :
  (forall x, x ∈ l -> P x) -> filter P l = l.
Proof.
  induction l as [|x l IH]; intros Hall; [done |].
  rewrite filter_cons_True by (apply Hall; left).
  rewrite IH; [done |]. intros y Hy. apply Hall. by right.
Qed.

Lemma removeContextFile_first d f settings l1 l2 :
  contextFiles (settingsOf d settings) = l1 ++ f :: l2 -> f ∉ l1 ->
  contextFiles (settingsOf d (removeContextFile d f settings)) = l1 ++ l2.
Proof.
  intros Hl Hf. rewrite settingsOf_removeContextFile.
  destruct (decide (d = d)); [| done]. cbn [contextFiles].
  rewrite Hl. unfold indexOf. rewrite (indexOfFrom_split _ _ _ _ Hf).
  replace (-1 <? 0 + Z.of_nat (length l1))%Z with true
    by (symmetry; apply Z.ltb_lt; lia).
  replace (Z.to_nat (0 + Z.of_nat (length l1))) with (length l1) by lia.
  apply delete_middle.
Qed.

End SettingsMore.

(** X1.  [removeContextFile] takes out the first entry equal to the path and
    keeps the other entries in their order; the template of the document and
    the settings of every other document stay as they were.  After any
    history of calls the path is then not listed any more. *)
Theorem removeContextFile_present
    (settings : gmap string DocumentSettings) (ops : list SettingsOp)
    (d p : string) :
  (forall l1 l2,
      contextFiles (settingsOf d settings) = l1 ++ p :: l2 -> p ∉ l1 ->
      contextFiles (settingsOf d (removeContextFile d p settings)) = l1 ++ l2
      /\ promptTemplate (settingsOf d (removeContextFile d p settings))
         = promptTemplate (settingsOf d settings)
      /\ forall d', d' <> d ->
           settingsOf d' (removeContextFile d p settings) = settingsOf d' settings)
  /\ (p ∈ contextFiles (settingsOf d (runSettings ops)) ->
      (p ∉ contextFiles (settingsOf d (removeContextFile d p (runSettings ops))))
      /\ contextFiles (settingsOf d (removeContextFile d p (runSettings ops)))
         = filter (fun x => x <> p) (contextFiles (settingsOf d (runSettings ops)))).
Proof.
  split.
  - intros l1 l2 Hl Hp. split; [by apply removeContextFile_first |].
    split.
    + rewrite settingsOf_removeContextFile. by destruct (decide (d = d)).
    + intros d' Hne. rewrite settingsOf_removeContextFile.
      by destruct (decide (d' = d)).
  - intros Hin.
    destruct (elem_of_first_split _ _ Hin) as (l1 & l2 & Hl & Hl1).
    pose proof (contextFiles_NoDup ops d) as Hnodup. rewrite Hl in Hnodup.
    apply NoDup_app in Hnodup as (_ & Hdisj & [Hl2 _]%NoDup_cons).
    rewrite (removeContextFile_first _ _ _ _ _ Hl Hl1), Hl.
    split.
    + rewrite elem_of_app. tauto.
    + rewrite filter_app, filter_cons_False by (intros H; by apply H).
      rewrite !filter_all; [done | |].
      * intros x Hx ->. done.
      * intros x Hx ->. by apply (Hdisj p); [| left].
Qed.

Lemma removeContextFile_present_witness :
  let settings :=
    addContextFile "file:///notes.md" "/ctx/b.md"
      (addContextFile "file:///notes.md" "/ctx/a.md" ∅) in
  contextFiles (settingsOf "file:///notes.md"
                  (removeContextFile "file:///notes.md" "/ctx/a.md" settings))
  = ["/ctx/b.md"].
Proof.
  intros settings.
  pose proof (removeContextFile_present settings
                [OpAddContextFile "file:///notes.md" "/ctx/a.md";
                 OpAddContextFile "file:///notes.md" "/ctx/b.md"]
                "file:///notes.md" "/ctx/a.md") as [Hfirst Hreach].
  destruct (Hfirst [] ["/ctx/b.md"] eq_refl (not_elem_of_nil _)) as (Hfiles & _).
  assert (("/ctx/a.md" : string) ∈
            contextFiles
              (settingsOf "file:///notes.md"
                 (runSettings
                    [OpAddContextFile "file:///notes.md" "/ctx/a.md";
                     OpAddContextFile "file:///notes.md" "/ctx/b.md"]))) as Hin
    by (vm_compute; left).
  destruct (Hreach Hin) as [_ _].
  exact Hfiles.
Defined.

(** X2.  Adding a path that is not listed and removing it again gives back
    the settings of every document. *)
Theorem add_remove_round_trip
    (settings : gmap string DocumentSettings) (d p : string) :
  p ∉ contextFiles (settingsOf d settings) ->
  forall d',
    settingsOf d' (removeContextFile d p (addContextFile d p settings))
    = settingsOf d' settings.
Proof.
  intros Hp d'.
  assert (settingsOf d (addContextFile d p settings)
          = {| promptTemplate := promptTemplate (settingsOf d settings);
               contextFiles := contextFiles (settingsOf d settings) ++ [p] |})
    as Hadd.
  { rewrite settingsOf_addContextFile. destruct (decide (d = d)); [| done].
    unfold includes. by rewrite bool_decide_eq_false_2. }
  destruct (decide (d' = d)) as [-> | Hne].
  - rewrite settingsOf_removeContextFile.
    destruct (decide (d = d)); [| done]. rewrite Hadd.
    cbn [promptTemplate contextFiles]. unfold indexOf.
    rewrite (indexOfFrom_split p _ [] 0 Hp).
    replace (-1 <? 0 + Z.of_nat (length (contextFiles (settingsOf d settings))))%Z
      with true by (symmetry; apply Z.ltb_lt; lia).
    replace (Z.to_nat (0 + Z.of_nat (length (contextFiles (settingsOf d settings)))))
      with (length (contextFiles (settingsOf d settings))) by lia.
    rewrite delete_middle, app_nil_r. by destruct (settingsOf d settings).
  - rewrite (settingsOf_removeContextFile d d').
    destruct (decide (d' = d)); [congruence |].
    rewrite (settingsOf_addContextFile d d').
    destruct (decide (d' = d)); [congruence | done].
Qed.

Lemma add_remove_round_trip_witness :
  settingsOf "file:///notes.md"
    (removeContextFile "file:///notes.md" "/ctx/b.md"
       (addContextFile "file:///notes.md" "/ctx/b.md"
          (addContextFile "file:///notes.md" "/ctx/a.md" ∅)))
  = settingsOf "file:///notes.md" (addContextFile "file:///notes.md" "/ctx/a.md" ∅).
Proof.
  apply (add_remove_round_trip
           (addContextFile "file:///notes.md" "/ctx/a.md" ∅)
           "file:///notes.md" "/ctx/b.md").
  vm_compute. intros Hin. apply list_elem_of_In in Hin.
  destruct Hin as [Heq | []]. discriminate Heq.
Defined.

(** X3.  The documents are separate name spaces: calls that work on other
    documents, in any number and order, leave the settings of a document as
    they were. *)
Theorem settings_documents_independent
    (settings : gmap string DocumentSettings) (ops : list SettingsOp) (d : string) :
  Forall (fun op => opDocument op <> d) ops ->
  settingsOf d (foldl settingsStep settings ops) = settingsOf d settings.
Proof.
  revert settings. induction ops as [|op ops IH]; intros settings Hops; [done |].
  apply Forall_cons in Hops as [Hop Hops]. cbn [foldl].
  rewrite (IH _ Hops).
  destruct op as [d' | d' t | d' f | d' f]; cbn [settingsStep opDocument] in Hop |- *.
  - apply settingsOf_getSettings.
  - rewrite settingsOf_setPromptTemplate. by destruct (decide (d = d')).
  - rewrite settingsOf_addContextFile. by destruct (decide (d = d')).
  - rewrite settingsOf_removeContextFile. by destruct (decide (d = d')).
Qed.

Lemma settings_documents_independent_witness :
  settingsOf "file:///notes.md"
    (foldl settingsStep (addContextFile "file:///notes.md" "/ctx/a.md" ∅)
       [OpAddContextFile "file:///other.md" "/ctx/a.md";
        OpSetPromptTemplate "file:///other.md" "{document}";
        OpRemoveContextFile "file:///other.md" "/ctx/a.md"])
  = settingsOf "file:///notes.md" (addContextFile "file:///notes.md" "/ctx/a.md" ∅).
Proof.
  apply settings_documents_independent.
  repeat constructor; cbn; discriminate.
Defined.

(** X4.  After [setPromptTemplate] the prompt of the document is built from
    the template set, unless that template is the empty string: then it is
    built from the default template.  The context files of the document are
    the ones it had. *)
Theorem setPromptTemplate_effective
    (openTextDocument : string -> Exc string)
    (settings : gmap string DocumentSettings)
    (document : TextDocument) (pos : Position) (defaultTemplate t : string) :
  snd (buildPrompt openTextDocument (setPromptTemplate (uri document) t settings)
         document pos defaultTemplate)
  = Returned
      (replaceTemplateVariables
         (match t with
          | EmptyString => defaultTemplate
          | String _ _ => t
          end)
         (getText document) (textBefore document pos) (textAfter document pos)
         (loadedContext openTextDocument
            (contextFiles (settingsOf (uri document) settings)))).
Proof.
  rewrite buildPrompt_returns, settingsOf_setPromptTemplate.
  destruct (decide (uri document = uri document)); [| done].
  cbn [promptTemplate contextFiles]. by destruct t.
Qed.

(** * The settings commands *)

Section CommandFacts.

Implicit Types settings : gmap string DocumentSettings.

Lemma foldl_add_run (ops : list SettingsOp) (d : string) (files : list string) :
  foldl (fun settings f => addContextFile d f settings) (runSettings ops) files
  = runSettings (ops ++ map (OpAddContextFile d) files).
Proof.
  revert ops. induction files as [|f files IH]; intros ops; cbn [foldl map].
  - by rewrite app_nil_r.
  - replace (addContextFile d f (runSettings ops))
      with (runSettings (ops ++ [OpAddContextFile d f]))
      by (unfold runSettings; by rewrite foldl_app).
    rewrite IH. by rewrite <- app_assoc.
Qed.

Lemma foldl_remove_run (ops : list SettingsOp) (d : string) (files : list string) :
  foldl (fun settings f => removeContextFile d f settings) (runSettings ops) files
  = runSettings (ops ++ map (OpRemoveContextFile d) files).
Proof.
  revert ops. induction files as [|f files IH]; intros ops; cbn [foldl map].
  - by rewrite app_nil_r.
  - replace (removeContextFile d f (runSettings ops))
      with (runSettings (ops ++ [OpRemoveContextFile d f]))
      by (unfold runSettings; by rewrite foldl_app).
    rewrite IH. by rewrite <- app_assoc.
Qed.

Lemma foldl_add_settingsOf (d : string) (files : list string) : forall settings,
  let settings' :=
    foldl (fun settings f => addContextFile d f settings) settings files in
  contextFiles (settingsOf d settings) `prefix_of` contextFiles (settingsOf d settings')
  /\ (forall f, f ∈ contextFiles (settingsOf d settings')
        <-> f ∈ contextFiles (settingsOf d settings) \/ f ∈ files)
  /\ promptTemplate (settingsOf d settings') = promptTemplate (settingsOf d settings)
  /\ (forall d', d' <> d -> settingsOf d' settings' = settingsOf d' settings).
Proof.
  induction files as [|f files IH]; intros settings; cbn [foldl]; cbv zeta.
  - split; [done |]. split; [| done].
    intros f. rewrite elem_of_nil. tauto.
  - destruct (IH (addContextFile d f settings)) as (H1 & H2 & H3 & H4).
    pose proof (settingsOf_addContextFile d d f settings) as Hadd.
    destruct (decide (d = d)); [| done].
    rewrite Hadd in H1, H2, H3. cbn [contextFiles promptTemplate] in H1, H2, H3.
    split; [| split; [| split]].
    + etrans; [| exact H1]. destruct (includes f _); [done |].
      by apply prefix_app_r.
    + intros g. rewrite H2, elem_of_cons. unfold includes.
      case_bool_decide as Hin.
      * split; [intros [? | ?]; auto | intros [? | [-> | ?]]; auto].
      * rewrite elem_of_app, list_elem_of_singleton. tauto.
    + done.
    + intros d' Hne. rewrite (H4 d' Hne), (settingsOf_addContextFile d d').
      by destruct (decide (d' = d)).
Qed.

(** After a history of calls, removing a path filters it out, listed or not. *)
Lemma removeContextFile_filter (ops : list SettingsOp) (d p : string) :
  contextFiles (settingsOf d (removeContextFile d p (runSettings ops)))
  = filter (fun x => x <> p) (contextFiles (settingsOf d (runSettings ops))).
Proof.
  destruct (decide (p ∈ contextFiles (settingsOf d (runSettings ops)))) as [Hin | Hout].
  - destruct (elem_of_first_split _ _ Hin) as (l1 & l2 & Hl & Hl1).
    pose proof (contextFiles_NoDup ops d) as Hnodup. rewrite Hl in Hnodup.
    apply NoDup_app in Hnodup as (_ & Hdisj & [Hl2 _]%NoDup_cons).
    rewrite (removeContextFile_first _ _ _ _ _ Hl Hl1), Hl.
    rewrite filter_app, filter_cons_False by (intros H; by apply H).
    rewrite !filter_all; [done | |].
    + intros x Hx ->. done.
    + intros x Hx ->. by apply (Hdisj p); [| left].
  - rewrite (removeContextFile_absent _ _ _ Hout), settingsOf_getSettings.
    rewrite filter_all; [done |]. intros x Hx ->. done.
Qed.

Lemma foldl_remove_filter (d : string) (selected : list string) :
  forall ops,
    contextFiles
      (settingsOf d
         (foldl (fun settings f => removeContextFile d f settings)
                (runSettings ops) selected))
    = filter (fun x => x ∉ selected) (contextFiles (settingsOf d (runSettings ops))).
Proof.
  induction selected as [|p selected IH]; intros ops; cbn [foldl].
  - rewrite filter_all; [done |]. intros x _. apply not_elem_of_nil.
  - replace (removeContextFile d p (runSettings ops))
      with (runSettings (ops ++ [OpRemoveContextFile d p]))
      by (unfold runSettings; by rewrite foldl_app).
    rewrite IH.
    replace (runSettings (ops ++ [OpRemoveContextFile d p]))
      with (removeContextFile d p (runSettings ops))
      by (unfold runSettings; by rewrite foldl_app).
    rewrite removeContextFile_filter, list_filter_filter.
    apply list_filter_iff. intros x. rewrite not_elem_of_cons. tauto.
Qed.

Lemma foldl_remove_others (d : string) (selected : list string) : forall settings,
  let settings' :=
    foldl (fun settings f => removeContextFile d f settings) settings selected in
  promptTemplate (settingsOf d settings') = promptTemplate (settingsOf d settings)
  /\ (forall d', d' <> d -> settingsOf d' settings' = settingsOf d' settings).
Proof.
  induction selected as [|p selected IH]; intros settings; cbn [foldl]; cbv zeta;
    [done |].
  destruct (IH (removeContextFile d p settings)) as [H1 H2].
  split.
  - rewrite H1, settingsOf_removeContextFile. by destruct (decide (d = d)).
  - intros d' Hne. rewrite (H2 d' Hne), (settingsOf_removeContextFile d d').
    by destruct (decide (d' = d)).
Qed.

End CommandFacts.

(** X5.  The command that adds context files keeps the paths already listed
    in their places, lists every picked path, lists nothing else and, after
    any history of calls, lists no path twice; the template of the document
    and the settings of the other documents stay.  The status reports the
    number of paths picked, whether they were added or were listed before. *)
Theorem addContextFileCommand_result
    (ops : list SettingsOp) (c : Coordinator)
    (document : TextDocument) (files : list string) :
  let d := uri document in
  let old := settingsOf d (runSettings ops) in
  let w' := addContextFileCommand (Some document) (Some files) (worldAfter ops c) in
  let new := settingsOf d (settingsManager w') in
  contextFiles old `prefix_of` contextFiles new
  /\ NoDup (contextFiles new)
  /\ (forall f, f ∈ contextFiles new <-> f ∈ contextFiles old \/ f ∈ files)
  /\ promptTemplate new = promptTemplate old
  /\ (forall d', d' <> d ->
        settingsOf d' (settingsManager w') = settingsOf d' (runSettings ops))
  /\ requestManager w'
     = emit (EvStatus ("Added " +:+ pretty (length files) +:+ " context file(s)")) c.
Proof.
  intros d old w' new. subst w' new old.
  unfold addContextFileCommand, worldAfter, setStatus.
  cbv zeta. cbn [settingsManager requestManager]. fold d.
  destruct (foldl_add_settingsOf d files (runSettings ops)) as (H1 & H2 & H3 & H4).
  repeat split; try done; try apply H2.
  rewrite foldl_add_run. apply contextFiles_NoDup.
Qed.

(** X6.  The command that removes context files leaves exactly the listed
    paths that were not picked, in their order; the template of the document
    and the settings of the other documents stay.  When no path is listed the
    command only reports that, and when the pick is dismissed nothing
    changes. *)
Theorem removeContextFileCommand_result
    (ops : list SettingsOp) (c : Coordinator) (document : TextDocument)
    (pick : list string -> option (list string)) :
  let d := uri document in
  let old := settingsOf d (runSettings ops) in
  let w' := removeContextFileCommand (Some document) pick (worldAfter ops c) in
  let new := settingsOf d (settingsManager w') in
  (contextFiles old = [] ->
   new = old
   /\ requestManager w' = emit (EvStatus "No context files configured") c)
  /\ (contextFiles old <> [] -> pick (contextFiles old) = None ->
      new = old /\ requestManager w' = c)
  /\ (forall selected,
        contextFiles old <> [] -> pick (contextFiles old) = Some selected ->
        contextFiles new = filter (fun x => x ∉ selected) (contextFiles old)
        /\ promptTemplate new = promptTemplate old
        /\ requestManager w'
           = emit (EvStatus ("Removed " +:+ pretty (length selected)
                             +:+ " context file(s)")) c)
  /\ (forall d', d' <> d ->
        settingsOf d' (settingsManager w') = settingsOf d' (runSettings ops)).
Proof.
  intros d old w' new. subst w' new old.
  unfold removeContextFileCommand, getContextFiles, worldAfter.
  cbn [settingsManager requestManager].
  change (getSettings (uri document) (runSettings ops))
    with (fst (getSettings d (runSettings ops)), settingsOf d (runSettings ops)).
  cbn iota. fold d.
  assert (fst (getSettings d (runSettings ops))
          = runSettings (ops ++ [OpGetSettings d])) as Hrun
    by (unfold runSettings; by rewrite foldl_app).
  destruct (contextFiles (settingsOf d (runSettings ops))) as [|f0 rest] eqn:Hold.
  - cbn. repeat split; try done.
    + apply settingsOf_getSettings.
    + intros d' _. apply settingsOf_getSettings.
  - cbn [length Nat.eqb]. split; [done |].
    destruct (pick (f0 :: rest)) as [selected|] eqn:Hpick;
      cbv zeta; unfold setStatus; cbn [settingsManager requestManager]; fold d.
    + destruct (foldl_remove_others d selected
                  (fst (getSettings d (runSettings ops)))) as [Ht Ho].
      split; [done |]. split.
      * intros selected' _ [= <-]. split; [| split; [| done]].
        -- rewrite Hrun, foldl_remove_filter, <- Hrun, settingsOf_getSettings, Hold.
           done.
        -- rewrite Ht. by rewrite settingsOf_getSettings.
      * intros d' Hne. rewrite (Ho d' Hne). apply settingsOf_getSettings.
    + split; [intros _ _; split; [apply settingsOf_getSettings | done] |].
      split; [done |]. intros d' _. apply settingsOf_getSettings.
Qed.

(** The paths [/ctx/a.md] (listed before) and [/ctx/b.md] are picked. *)
Lemma addContextFileCommand_result_witness :
  let ops := [OpAddContextFile "file:///notes.md" "/ctx/a.md"] in
  let w' := addContextFileCommand (Some (sampleDocument "text"))
              (Some ["/ctx/a.md"; "/ctx/b.md"]) (worldAfter ops initialCoordinator) in
  contextFiles (settingsOf "file:///notes.md" (settingsManager w'))
    = ["/ctx/a.md"; "/ctx/b.md"]
  /\ trace (requestManager w') = [EvStatus "Added 2 context file(s)"]
  /\ settingsOf "file:///other.md" (settingsManager w') = emptySettings.
Proof.
  intros ops w'.
  pose proof (addContextFileCommand_result ops initialCoordinator
                (sampleDocument "text") ["/ctx/a.md"; "/ctx/b.md"])
    as (_ & _ & _ & _ & Hother & Hstatus).
  split; [reflexivity |]. split.
  - subst w'. rewrite Hstatus. reflexivity.
  - subst w'. rewrite (Hother "file:///other.md") by discriminate. reflexivity.
Defined.

(** Of the listed paths [/ctx/a.md], [/ctx/b.md], [/ctx/c.md] the user picks
    the first and the last. *)
Lemma removeContextFileCommand_result_witness :
  let ops := [OpAddContextFile "file:///notes.md" "/ctx/a.md";
              OpAddContextFile "file:///notes.md" "/ctx/b.md";
              OpAddContextFile "file:///notes.md" "/ctx/c.md"] in
  contextFiles
    (settingsOf "file:///notes.md"
       (settingsManager
          (removeContextFileCommand (Some (sampleDocument "text"))
             (fun _ => Some ["/ctx/c.md"; "/ctx/a.md"])
             (worldAfter ops initialCoordinator))))
  = ["/ctx/b.md"]
  /\ requestManager
       (removeContextFileCommand (Some (sampleDocument "text")) (fun _ => None)
          (worldAfter ops initialCoordinator)) = initialCoordinator
  /\ requestManager
       (removeContextFileCommand (Some (sampleDocument "text")) (fun _ => None)
          (worldAfter [] initialCoordinator))
     = emit (EvStatus "No context files configured") initialCoordinator.
Proof.
  intros ops.
  pose proof (removeContextFileCommand_result ops initialCoordinator
                (sampleDocument "text") (fun _ => Some ["/ctx/c.md"; "/ctx/a.md"]))
    as (_ & _ & Hpicked & _).
  pose proof (removeContextFileCommand_result ops initialCoordinator
                (sampleDocument "text") (fun _ => None))
    as (_ & Hdismissed & _).
  pose proof (removeContextFileCommand_result [] initialCoordinator
                (sampleDocument "text") (fun _ => None))
    as (Hempty & _).
  split; [| split].
  - destruct (Hpicked ["/ctx/c.md"; "/ctx/a.md"] ltac:(discriminate) eq_refl)
      as (Hfiles & _).
    etrans; [exact Hfiles |]. vm_compute. reflexivity.
  - apply Hdismissed; [discriminate | reflexivity].
  - apply Hempty. reflexivity.
Defined.

(** X7.  The input box of the template command shows the template in effect
    (the document's own, or else the configured default).  Confirming the
    value shown does not change the prompt the next trigger builds; any
    other text becomes the document's template and the context files stay;
    dismissing the box changes no document's settings. *)
Theorem setPromptTemplateCommand_result
    (openTextDocument : string -> Exc string) (config : Config)
    (document : TextDocument) (pos : Position) (w : World) :
  let d := uri document in
  let old := settingsOf d (settingsManager w) in
  let shown :=
    orElse (promptTemplate old) (configGet (cfgDefaultPromptTemplate config) EmptyString) in
  builtPrompt openTextDocument
    (settingsManager (setPromptTemplateCommand (Some document) config Some w))
    document pos config
  = builtPrompt openTextDocument (settingsManager w) document pos config
  /\ (forall input t, input shown = Some t ->
        settingsOf d
          (settingsManager (setPromptTemplateCommand (Some document) config input w))
        = {| promptTemplate := Some t; contextFiles := contextFiles old |})
  /\ (forall input d', input shown = None ->
        settingsOf d'
          (settingsManager (setPromptTemplateCommand (Some document) config input w))
        = settingsOf d' (settingsManager w)).
Proof.
  intros d old shown.
  assert (forall input,
            setPromptTemplateCommand (Some document) config input w
            = match input shown with
              | Some template =>
                  setStatus "Prompt template updated"
                    {| settingsManager :=
                         setPromptTemplate d template
                           (fst (getSettings d (settingsManager w)));
                       requestManager := requestManager w |}
              | None => {| settingsManager := fst (getSettings d (settingsManager w));
                           requestManager := requestManager w |}
              end) as Hcmd by done.
  assert (forall t,
            settingsOf d (setPromptTemplate d t (fst (getSettings d (settingsManager w))))
            = {| promptTemplate := Some t; contextFiles := contextFiles old |})
    as Hset.
  { intros t. rewrite settingsOf_setPromptTemplate.
    destruct (decide (d = d)); [| done]. by rewrite settingsOf_getSettings. }
  split; [| split].
  - rewrite (Hcmd Some). unfold builtPrompt, setStatus.
    cbn [settingsManager]. fold d. rewrite Hset. cbn [promptTemplate contextFiles].
    fold old. f_equal. subst shown.
    destruct (promptTemplate old) as [[|ch t]|]; cbn; try done;
      by destruct (cfgDefaultPromptTemplate config) as [[|ch' t']|].
  - intros input t Hinput. rewrite Hcmd, Hinput. apply Hset.
  - intros input d' Hinput. rewrite Hcmd, Hinput. apply settingsOf_getSettings.
Qed.

Lemma setPromptTemplateCommand_result_witness :
  settingsOf "file:///notes.md"
    (settingsManager
       (setPromptTemplateCommand (Some (sampleDocument "text")) sampleConfig
          (fun _ => Some "Summarise: {document}") initialWorld))
  = {| promptTemplate := Some "Summarise: {document}"; contextFiles := [] |}
  /\ settingsOf "file:///notes.md"
       (settingsManager
          (setPromptTemplateCommand (Some (sampleDocument "text")) sampleConfig
             (fun _ => None) initialWorld))
     = emptySettings.
Proof.
  pose proof (setPromptTemplateCommand_result noFiles sampleConfig
                (sampleDocument "text") samplePosition initialWorld)
    as (_ & Hset & Hnone).
  split.
  - exact (Hset (fun _ => Some "Summarise: {document}") "Summarise: {document}"
             eq_refl).
  - exact (Hnone (fun _ => None) "file:///notes.md" eq_refl).
Defined.

(** * More of the coordinator *)

Section CoordinatorMore.

Lemma callResolve_settled (q : nat) (its : list InlineCompletionItem)
    (c : Coordinator) (p : nat) (items : list InlineCompletionItem) :
  promises c !! p = Some (Some items) ->
  promises (callResolve q its c) !! p = Some (Some items).
Proof.
  intros Hp. unfold callResolve. cbn.
  destruct (promises c !! q) as [[?|]|] eqn:Hq; try done.
  destruct (decide (q = p)) as [-> | Hne]; [congruence |].
  by rewrite list_lookup_insert_ne.
Qed.

Lemma coordinatorStep_settled (c : Coordinator) (op : CoordinatorOp)
    (p : nat) (items : list InlineCompletionItem) :
  promises c !! p = Some (Some items) ->
  promises (coordinatorStep c op) !! p = Some (Some items).
Proof.
  intros Hp. destruct op as [d pos | its |]; cbn [coordinatorStep].
  - destruct (createPendingRequest_spec d pos c) as (_ & -> & _).
    apply lookup_app_l_Some. unfold cancelExisting.
    destruct (pendingRequest c); [by apply callResolve_settled | done].
  - unfold resolveRequest. destruct (pendingRequest c); [| done].
    cbn. by apply callResolve_settled.
  - unfold cancelRequest. destruct (pendingRequest c); [| done].
    cbn. by apply callResolve_settled.
Qed.

Lemma coordinatorStep_length (c : Coordinator) (op : CoordinatorOp) :
  length (promises c) <= length (promises (coordinatorStep c op)).
Proof.
  assert (forall q its, length (promises (callResolve q its c)) = length (promises c))
    as Hlen.
  { intros q its. unfold callResolve. cbn.
    destruct (promises c !! q) as [[?|]|]; by rewrite ?length_insert. }
  destruct op as [d pos | its |]; cbn [coordinatorStep].
  - destruct (createPendingRequest_spec d pos c) as (_ & -> & _).
    rewrite length_app, cancelExisting_length. lia.
  - unfold resolveRequest. destruct (pendingRequest c); [| done].
    cbn [clearPending promises]. by rewrite Hlen.
  - unfold cancelRequest. destruct (pendingRequest c); [| done].
    cbn [clearPending promises]. by rewrite Hlen.
Qed.

End CoordinatorMore.

(** X8.  A promise that is fulfilled keeps its items for ever: whatever
    requests are created, resolved or cancelled afterwards, its value is the
    same; and no promise is ever taken away, the later promises get new
    indices. *)
Theorem settled_promise_stable
    (c : Coordinator) (ops : list CoordinatorOp)
    (p : nat) (items : list InlineCompletionItem) :
  promises c !! p = Some (Some items) ->
  promises (foldl coordinatorStep c ops) !! p = Some (Some items)
  /\ length (promises c) <= length (promises (foldl coordinatorStep c ops)).
Proof.
  revert c. induction ops as [|op ops IH]; intros c Hp; [done |].
  cbn [foldl].
  destruct (IH (coordinatorStep c op) (coordinatorStep_settled c op p items Hp))
    as [H1 H2].
  split; [done |]. pose proof (coordinatorStep_length c op). lia.
Qed.

Lemma settled_promise_stable_witness :
  promises
    (foldl coordinatorStep
       (runCoordinator [OpCreate "file:///a.md" samplePosition; OpResolve [sampleItem]])
       [OpCreate "file:///a.md" samplePosition; OpResolve []; OpCancel]) !! 0
  = Some (Some [sampleItem]).
Proof.
  apply (settled_promise_stable
           (runCoordinator [OpCreate "file:///a.md" samplePosition;
                            OpResolve [sampleItem]])).
  reflexivity.
Defined.

(** X9.  Once [resolveRequest] or [cancelRequest] has run, a further
    [resolveRequest] or [cancelRequest] does nothing, whatever items it
    brings: a late answer is dropped.  [cancelRequest] is [resolveRequest]
    with the empty list. *)
Theorem late_settlement_dropped
    (c : Coordinator) (items items' : list InlineCompletionItem) :
  cancelRequest c = resolveRequest [] c
  /\ resolveRequest items' (resolveRequest items c) = resolveRequest items c
  /\ cancelRequest (resolveRequest items c) = resolveRequest items c
  /\ resolveRequest items' (cancelRequest c) = cancelRequest c
  /\ (pendingRequest c = None -> resolveRequest items c = c).
Proof.
  unfold cancelRequest, resolveRequest.
  destruct (pendingRequest c) as [r|] eqn:Hr; cbn; rewrite ?Hr; done.
Qed.

Lemma late_settlement_dropped_witness :
  resolveRequest [sampleItem] initialCoordinator = initialCoordinator.
Proof.
  exact (proj2 (proj2 (proj2 (proj2
           (late_settlement_dropped initialCoordinator [sampleItem] []))))
           eq_refl).
Defined.

(** X10.  After [createPendingRequest] for a document, [getPendingPromise]
    returns the new promise for that document, whatever the position, and
    null for every other document, also for the document of the request that
    was replaced; [hasPendingRequest] is true.  After [resolveRequest] or
    [cancelRequest] it returns null for every document and
    [hasPendingRequest] is false. *)
Theorem pending_lookup (c : Coordinator) (d d' : string) (pos : Position)
    (items : list InlineCompletionItem) :
  fst (getPendingPromise d' (createPendingRequest d pos c))
    = (if decide (d' = d) then Some (length (promises c)) else None)
  /\ fst (hasPendingRequest (createPendingRequest d pos c)) = true
  /\ fst (getPendingPromise d' (resolveRequest items c)) = None
  /\ fst (getPendingPromise d' (cancelRequest c)) = None
  /\ fst (hasPendingRequest (resolveRequest items c)) = false
  /\ fst (hasPendingRequest (cancelRequest c)) = false.
Proof.
  destruct (createPendingRequest_spec d pos c) as (Hslot & _).
  unfold getPendingPromise, hasPendingRequest. rewrite Hslot. cbn.
  split.
  { destruct (decide (d = d')) as [-> | Hne'].
    - by destruct (decide (d' = d')).
    - destruct (decide (d' = d)); [congruence | done]. }
  split; [done |].
  unfold resolveRequest, cancelRequest.
  destruct (pendingRequest c) as [r|] eqn:Hr; cbn; rewrite ?Hr; done.
Qed.

(** X11.  After any sequence of calls [hasPendingRequest] is true exactly when
    some promise is pending, and [getPendingPromise] returns only promises
    that are pending. *)
Theorem hasPendingRequest_sound (ops : list CoordinatorOp) :
  let c := runCoordinator ops in
  (fst (hasPendingRequest c) = true <-> exists p, promises c !! p = Some None)
  /\ (forall d p, fst (getPendingPromise d c) = Some p -> promises c !! p = Some None).
Proof.
  intros c. pose proof (coordinator_invariant ops) as Hinv. fold c in Hinv.
  pose proof (inv_pending _ _ Hinv) as Hpending.
  unfold pendingFutures, slotFutures in Hpending.
  unfold hasPendingRequest, getPendingPromise.
  destruct (pendingRequest c) as [r|] eqn:Hr; cbn.
  - split.
    + split; [| done]. intros _. exists (promise r). by apply pendingFrom_lookup.
    + intros d p. destruct (decide (documentUri r = d)); cbn; [| done].
      intros [= <-]. by apply pendingFrom_lookup.
  - split; [| done]. split; [done |].
    intros [p Hp]. by destruct (proj1 (pendingFrom_nil_iff _ 0) Hpending p).
Qed.

Lemma hasPendingRequest_sound_witness :
  promises (runCoordinator [OpCreate "file:///a.md" samplePosition]) !! 0 = Some None.
Proof.
  apply (proj2 (hasPendingRequest_sound [OpCreate "file:///a.md" samplePosition])
           "file:///a.md" 0).
  reflexivity.
Defined.

(** * More of the trigger command *)

Section HandlerMore.

Variable openTextDocument : string -> Exc string.
Variable config : Config.

Lemma triggerCompletionResume_promises (pos : Position)
    (completion : option string) (w : World) :
  settingsManager (triggerCompletionResume pos completion w) = settingsManager w
  /\ pendingRequest (requestManager (triggerCompletionResume pos completion w)) = None
  /\ promises (requestManager (triggerCompletionResume pos completion w))
     = match pendingRequest (requestManager w) with
       | Some r =>
           promises (callResolve (promise r) (completionItems pos completion)
                       (requestManager w))
       | None => promises (requestManager w)
       end.
Proof.
  rewrite triggerCompletionResume_spec.
  unfold setStatus, onCoordinator, resolveRequest. cbn.
  by destruct (pendingRequest (requestManager w)) as [r|] eqn:Hr.
Qed.

(** The promises after the first piece of the handler. *)
Lemma triggerCompletionStart_promises (document : TextDocument) (pos : Position)
    (w : World) :
  languageId document = "markdown" ->
  let c := requestManager w in
  let w1 := fst (triggerCompletionStart openTextDocument (Some (document, pos)) config w) in
  pendingRequest (requestManager w1)
    = Some {| documentUri := uri document; position := pos;
              promise := length (promises c) |}
  /\ promises (requestManager w1) = promises (cancelExisting c) ++ [None]
  /\ length (promises (requestManager w1)) = S (length (promises c))
  /\ promises (requestManager w1) !! length (promises c) = Some None
  /\ settingsManager w1 = fst (getSettings (uri document) (settingsManager w)).
Proof.
  intros Hlang c w1.
  destruct (triggerCompletionStart_spec openTextDocument document pos config w Hlang)
    as (_ & Hsettings & Hslot & Hprom & _).
  fold c w1 in Hsettings, Hslot, Hprom.
  split; [done |]. split; [done |].
  rewrite Hprom, length_app, cancelExisting_length. cbn.
  split; [lia |]. split; [| done].
  rewrite <- (cancelExisting_length c). by rewrite list_lookup_middle.
Qed.

Lemma cancelExisting_consistent (c : Coordinator) :
  pendingFutures c = slotFutures c -> pendingFutures (cancelExisting c) = [].
Proof.
  unfold pendingFutures, slotFutures, cancelExisting. intros Hc.
  destruct (pendingRequest c) as [r|]; [| done].
  unfold callResolve. cbn. rewrite (pendingFrom_lookup _ _ Hc).
  by apply pendingFrom_settle.
Qed.

End HandlerMore.

(** X12.  Two runs of the trigger command overlap: the second starts while
    the first waits for the model.  The first request is settled with the
    empty list when the second starts.  When the answer to the FIRST request
    arrives, it settles the promise of the SECOND request, with an item
    placed at the position of the first; the slot is empty then, so the
    answer to the second request changes no promise. *)
Theorem stale_answer_settles_newer_request
    (openTextDocument : string -> Exc string) (config : Config)
    (docA docB : TextDocument) (posA posB : Position)
    (answerA answerB : option string) (w : World) :
  languageId docA = "markdown" -> languageId docB = "markdown" ->
  let pA := length (promises (requestManager w)) in
  let pB := S pA in
  let w1 := fst (triggerCompletionStart openTextDocument (Some (docA, posA)) config w) in
  let w2 := fst (triggerCompletionStart openTextDocument (Some (docB, posB)) config w1) in
  let w3 := triggerCompletionResume posA answerA w2 in
  let w4 := triggerCompletionResume posB answerB w3 in
  promises (requestManager w2) !! pA = Some (Some [])
  /\ fst (getPendingPromise (uri docB) (requestManager w2)) = Some pB
  /\ promises (requestManager w3) !! pB = Some (Some (completionItems posA answerA))
  /\ pendingRequest (requestManager w3) = None
  /\ promises (requestManager w4) = promises (requestManager w3).
Proof.
  intros HlangA HlangB pA pB w1 w2 w3 w4.
  destruct (triggerCompletionStart_promises openTextDocument config docA posA w HlangA)
    as (Hslot1 & _ & Hlen1 & Hp1 & _).
  fold pA w1 in Hslot1, Hlen1, Hp1.
  destruct (triggerCompletionStart_promises openTextDocument config docB posB w1 HlangB)
    as (Hslot2 & Hprom2 & _ & Hp2 & _).
  fold w2 in Hslot2, Hprom2, Hp2. rewrite Hlen1 in Hslot2, Hp2. fold pB in Hslot2, Hp2.
  assert (promises (cancelExisting (requestManager w1))
          = <[pA := Some []]> (promises (requestManager w1))) as Hcancel.
  { unfold cancelExisting. rewrite Hslot1. unfold callResolve. cbn. by rewrite Hp1. }
  assert (pA < length (promises (requestManager w1))) as HltA by lia.
  split.
  { rewrite Hprom2, Hcancel. apply lookup_app_l_Some.
    by apply list_lookup_insert_eq. }
  split.
  { unfold getPendingPromise. rewrite Hslot2. cbn.
    by destruct (decide (uri docB = uri docB)). }
  destruct (triggerCompletionResume_slot posA answerA w2
              {| documentUri := uri docB; position := posB; promise := pB |}
              Hslot2 Hp2) as (Hnone3 & Hp3 & _).
  fold w3 in Hnone3, Hp3. cbn [promise] in Hp3.
  split; [done |]. split; [done |].
  destruct (triggerCompletionResume_promises posB answerB w3) as (_ & _ & Hprom4).
  fold w4 in Hprom4. by rewrite Hnone3 in Hprom4.
Qed.

(** A request in [a.md] at 0:3 is overtaken by one in [b.md] at 2:0; the
    answer ["baz"] to the first arrives, then the answer to the second. *)
Lemma stale_answer_settles_newer_request_witness :
  let docA := sampleDocument "foobar" in
  let docB := {| uri := "file:///b.md"; languageId := "markdown"; getText := "xy" |} in
  let posB := {| line := 2; character := 0 |} in
  let w1 := fst (triggerCompletionStart noFiles (Some (docA, samplePosition))
                   sampleConfig initialWorld) in
  let w2 := fst (triggerCompletionStart noFiles (Some (docB, posB)) sampleConfig w1) in
  let w3 := triggerCompletionResume samplePosition (Some "baz") w2 in
  promises (requestManager w3) !! 1 = Some (Some [sampleItem]).
Proof.
  intros docA docB posB w1 w2 w3.
  pose proof (stale_answer_settles_newer_request noFiles sampleConfig docA docB
                samplePosition posB (Some "baz") None initialWorld eq_refl eq_refl)
    as (_ & _ & Hstale & _).
  exact Hstale.
Defined.

(** X13.  A whole run of the trigger command on a markdown editor, started
    in a state where the pending promises are those of the slot, leaves no
    promise pending and the slot empty; it makes exactly one promise, keeps
    the values of the promises that were fulfilled, and changes no document's
    settings.  Without a markdown editor the command only shows a status. *)
Theorem triggerCompletion_leaves_nothing_pending
    (openTextDocument : string -> Exc string) (sdk : Sdk) (config : Config)
    (document : TextDocument) (pos : Position) (w : World) :
  (languageId document = "markdown" ->
   pendingFutures (requestManager w) = slotFutures (requestManager w) ->
   let w' := triggerCompletion openTextDocument sdk (Some (document, pos)) config w in
   pendingFutures (requestManager w') = []
   /\ pendingRequest (requestManager w') = None
   /\ length (promises (requestManager w')) = S (length (promises (requestManager w)))
   /\ (forall p items,
         promises (requestManager w) !! p = Some (Some items) ->
         promises (requestManager w') !! p = Some (Some items))
   /\ (forall d, settingsOf d (settingsManager w') = settingsOf d (settingsManager w)))
  /\ (languageId document <> "markdown" ->
      triggerCompletion openTextDocument sdk (Some (document, pos)) config w
      = setStatus "Open a markdown file" w)
  /\ triggerCompletion openTextDocument sdk None config w
     = setStatus "Open a markdown file" w.
Proof.
  split; [| split].
  - intros Hlang Hconsistent w'. set (c := requestManager w).
    destruct (triggerCompletionStart_promises openTextDocument config document pos w Hlang)
      as (Hslot1 & Hprom1 & Hlen1 & Hp1 & Hsettings1).
    fold c in Hslot1, Hprom1, Hlen1, Hp1.
    pose proof (cancelExisting_consistent c Hconsistent) as Hnone.
    assert (exists evs completion,
               w' = triggerCompletionResume pos completion
                      (emitAll evs
                         (fst (triggerCompletionStart openTextDocument
                                 (Some (document, pos)) config w))))
      as (evs & completion & Hw').
    { subst w'. unfold triggerCompletion.
      destruct (triggerCompletionStart_spec openTextDocument document pos config w Hlang)
        as (Hsusp & _).
      destruct (triggerCompletionStart openTextDocument (Some (document, pos)) config w)
        as [w1 susp]. cbn [fst snd] in *. subst susp.
      unfold triggerCompletionBackend. cbn [sPrompt sPosition].
      rewrite buildPrompt_returns. unfold mbind, Eff_bind, liftExc. cbn [fst snd app].
      destruct (getCompletion_returns sdk
                  (replaceTemplateVariables
                     (orElse (promptTemplate (settingsOf (uri document) (settingsManager w)))
                        (configGet (cfgDefaultPromptTemplate config) builtinTemplate))
                     (getText document) (textBefore document pos)
                     (textAfter document pos)
                     (loadedContext openTextDocument
                        (contextFiles (settingsOf (uri document) (settingsManager w)))))
                  config) as [completion Hc].
      destruct (getCompletion sdk _ config) as [evs outcome].
      cbn [fst snd] in *. subst outcome. by exists evs, completion. }
    set (w1 := fst (triggerCompletionStart openTextDocument (Some (document, pos))
                      config w)) in *.
    destruct (emitAll_spec evs w1) as (E1 & E2 & E3 & _).
    destruct (triggerCompletionResume_promises pos completion (emitAll evs w1))
      as (R1 & R2 & R3).
    rewrite <- Hw' in R1, R2, R3. rewrite E2, Hslot1 in R3.
    unfold callResolve in R3. cbn [promises promise] in R3.
    rewrite E3, Hp1 in R3. rewrite Hprom1 in R3.
    assert (promises (requestManager w')
            = promises (cancelExisting c) ++ [Some (completionItems pos completion)])
      as Hprom'.
    { rewrite R3, <- (cancelExisting_length c).
      by rewrite (insert_app_r_alt _ _ (length (promises (cancelExisting c))))
        by lia; rewrite Nat.sub_diag. }
    split.
    { unfold pendingFutures in *. rewrite Hprom', pendingFrom_app, Hnone. done. }
    split; [done |].
    split; [rewrite Hprom', length_app, cancelExisting_length; cbn; lia |].
    split.
    + intros p items Hp. rewrite Hprom'. apply lookup_app_l_Some.
      unfold cancelExisting. destruct (pendingRequest c); [| done].
      by apply callResolve_settled.
    + intros d. rewrite R1, E1, Hsettings1. apply settingsOf_getSettings.
  - intros Hlang. unfold triggerCompletion, triggerCompletionStart.
    by rewrite bool_decide_eq_false_2.
  - done.
Qed.

Lemma triggerCompletion_leaves_nothing_pending_witness :
  let w' := triggerCompletion noFiles answeringSdk
              (Some (sampleDocument "foobar", samplePosition)) sampleConfig
              (onCoordinator (createPendingRequest "file:///old.md" samplePosition)
                 initialWorld) in
  promises (requestManager w') = [Some []; Some [sampleItem]]
  /\ pendingFutures (requestManager w') = []
  /\ triggerCompletion noFiles answeringSdk
       (Some ({| uri := "file:///readme.txt"; languageId := "plaintext";
                 getText := "plain" |}, samplePosition)) sampleConfig initialWorld
     = setStatus "Open a markdown file" initialWorld.
Proof.
  intros w'.
  pose proof (triggerCompletion_leaves_nothing_pending noFiles answeringSdk
                sampleConfig (sampleDocument "foobar") samplePosition
                (onCoordinator (createPendingRequest "file:///old.md" samplePosition)
                   initialWorld)) as (Hrun & _).
  pose proof (triggerCompletion_leaves_nothing_pending noFiles answeringSdk
                sampleConfig
                {| uri := "file:///readme.txt"; languageId := "plaintext";
                   getText := "plain" |} samplePosition initialWorld)
    as (_ & Hguard & _).
  destruct (Hrun eq_refl eq_refl) as (Hnone & _).
  split; [reflexivity |]. split; [exact Hnone |].
  apply Hguard. discriminate.
Defined.

(** * More of the model service *)

Lemma completionOf_nonempty (sdk : Sdk) (prompt : string) (config : Config) :
  completionOf sdk prompt config <> Some EmptyString.
Proof.
  unfold completionOf, getCompletion, tryCatchE, mbind, Eff_bind, mret, Eff_ret,
    liftExc, emitE. cbn.
  destruct (createAmazonBedrock sdk _) as [[]|e]; cbn; [| done].
  destruct (generateText sdk _ _ _) as [[[|ch t]|]|e]; cbn; done.
Qed.

(** X14.  [getCompletion] answers with a text exactly when the provider
    object could be made and [generateText] returned that text and the text
    is not empty; so its answer is never the empty string.  The model is
    called at most once, with the prompt given, and not at all when the
    provider object cannot be made. *)
Theorem getCompletion_answer (sdk : Sdk) (prompt : string) (config : Config) :
  let region := configGet (cfgAwsRegion config) "us-east-1" in
  let modelId :=
    configGet (cfgModel config) "us.anthropic.claude-3-5-haiku-20241022-v1:0" in
  let maxOutputTokens := configGet (cfgMaxTokens config) 150 in
  (forall s,
      snd (getCompletion sdk prompt config) = Returned (Some s)
      <-> createAmazonBedrock sdk region = Returned tt
          /\ generateText sdk modelId prompt maxOutputTokens = Returned (Some s)
          /\ s <> EmptyString)
  /\ snd (getCompletion sdk prompt config) <> Returned (Some EmptyString)
  /\ (forall q, EvBackendCalled q ∈ fst (getCompletion sdk prompt config) ->
        q = prompt /\ createAmazonBedrock sdk region = Returned tt)
  /\ length (filter (fun ev => ev = EvBackendCalled prompt)
               (fst (getCompletion sdk prompt config))) <= 1.
Proof.
  intros region modelId maxOutputTokens.
  destruct (createAmazonBedrock sdk region) as [[]|e] eqn:Hc.
  - destruct (generateText sdk modelId prompt maxOutputTokens) as [text|e] eqn:Hg.
    + assert (getCompletion sdk prompt config
              = ([EvBackendCalled prompt], Returned (orNull text))) as ->.
      { unfold getCompletion, tryCatchE, mbind, Eff_bind, mret, Eff_ret, liftExc,
          emitE. fold region modelId maxOutputTokens. cbn. rewrite Hc. cbn.
        by rewrite Hg. }
      cbn [fst snd]. split; [| split; [| split]].
      * intros s. unfold orNull, truthy. split.
        -- destruct text as [[|ch t]|]; try done. intros [= <-]. done.
        -- intros (_ & [= ->] & Hs). by destruct s.
      * unfold orNull, truthy. by destruct text as [[|ch t]|].
      * intros q [[= ->] | Hin%elem_of_nil]%elem_of_cons; done.
      * etrans; [apply length_filter |]. done.
    + rewrite (proj2 (getCompletion_thrown sdk prompt config) e Hc Hg).
      cbn [fst snd]. split; [| split; [| split]].
      * intros s. split; [done | by intros (_ & ? & _)].
      * done.
      * intros q [[= ->] | [Heq | Hin%elem_of_nil]%elem_of_cons]%elem_of_cons; done.
      * rewrite filter_cons_True by done. rewrite filter_cons_False by done.
        cbn. lia.
  - rewrite (proj1 (getCompletion_thrown sdk prompt config) e Hc).
    cbn [fst snd]. split; [| split; [| split]].
    + intros s. split; [done | by intros (? & _)].
    + done.
    + intros q [Heq | Hin%elem_of_nil]%elem_of_cons; done.
    + rewrite filter_cons_False by done. cbn. lia.
Qed.

Lemma getCompletion_answer_witness :
  snd (getCompletion answeringSdk "foo[X]bar" sampleConfig) = Returned (Some "baz").
Proof.
  apply (proj1 (getCompletion_answer answeringSdk "foo[X]bar" sampleConfig) "baz").
  repeat split. discriminate.
Defined.

(** * More of the stored-result variant *)


Section LegacyFacts.

Lemma getCompletionResult_served m uri items count :
  Legacy.getCompletionResult uri (servedManager m uri items count)
  = (Some items,
     if 3 <? S count
     then {| Legacy.pendingCompletion := Legacy.pendingCompletion m;
             Legacy.completionResult := None;
             Legacy.completionDocUri := None;
             Legacy.lastCompletionText :=
               Legacy.lastCompletionText (Legacy.setCompletionResult uri items m);
             Legacy.resultCallCount := S count |}
     else servedManager m uri items (S count)).
Proof.
  unfold Legacy.getCompletionResult, servedManager.
  cbn [Legacy.completionResult Legacy.completionDocUri Legacy.resultCallCount
       Legacy.pendingCompletion Legacy.lastCompletionText].
  rewrite bool_decide_eq_true_2 by done. by destruct (3 <? S count).
Qed.

Lemma getCompletionResult_cleared m uri :
  Legacy.completionResult m = None -> Legacy.getCompletionResult uri m = (None, m).
Proof.
  intros Hm. unfold Legacy.getCompletionResult. rewrite Hm. by case_bool_decide.
Qed.

Lemma iter_peek_served m uri items k :
  k <= 3 ->
  Nat.iter k (fun m => snd (Legacy.getCompletionResult uri m))
    (Legacy.setCompletionResult uri items m)
  = servedManager m uri items k.
Proof.
  induction k as [|k IH]; intros Hk; [done |].
  rewrite Nat.iter_succ. rewrite IH by lia. rewrite getCompletionResult_served.
  cbn [snd]. by replace (3 <? S k) with false by (symmetry; apply Nat.ltb_ge; lia).
Qed.

Lemma iter_peek_expired m uri items k :
  4 <= k ->
  Nat.iter k (fun m => snd (Legacy.getCompletionResult uri m))
    (Legacy.setCompletionResult uri items m)
  = expiredManager m uri items.
Proof.
  induction k as [|k IH]; intros Hk; [lia |].
  rewrite Nat.iter_succ. destruct (decide (k = 3)) as [-> | Hne].
  - rewrite iter_peek_served by lia. by rewrite getCompletionResult_served.
  - rewrite IH by lia. by rewrite getCompletionResult_cleared.
Qed.

Lemma managerStep_lastCompletionText m op :
  Legacy.lastCompletionText (LegacyRun.managerStep m op) = Legacy.lastCompletionText m.
Proof.
  destruct op as [d | | | d pos r]; cbn; try done.
  unfold Legacy.getCompletionResult.
  case_bool_decide; [| done].
  destruct (Legacy.completionResult m); [| done].
  by destruct (3 <? S (Legacy.resultCallCount m)).
Qed.

End LegacyFacts.

(** X15.  A result stored with [setCompletionResult] is handed out by the
    next four calls of [getCompletionResult] for its document and by none
    after them; the calls for other documents return null and do not
    count. *)
Theorem stored_result_served_four_times
    (m : Legacy.CompletionTriggerManager) (uri : string)
    (items : list InlineCompletionItem) :
  let stored := Legacy.setCompletionResult uri items m in
  let peek := fun m => snd (Legacy.getCompletionResult uri m) in
  (forall k, k < 4 ->
     fst (Legacy.getCompletionResult uri (Nat.iter k peek stored)) = Some items)
  /\ (forall k, 4 <= k ->
        fst (Legacy.getCompletionResult uri (Nat.iter k peek stored)) = None)
  /\ (forall k other, other <> uri ->
        Legacy.getCompletionResult other (Nat.iter k peek stored)
        = (None, Nat.iter k peek stored)).
Proof.
  intros stored peek. subst stored peek. split; [| split].
  - intros k Hk. rewrite iter_peek_served by lia.
    by rewrite getCompletionResult_served.
  - intros k Hk. rewrite iter_peek_expired by done.
    by rewrite getCompletionResult_cleared.
  - intros k other Hother. destruct (decide (k <= 3)) as [Hk | Hk].
    + rewrite iter_peek_served by done.
      unfold Legacy.getCompletionResult, servedManager. cbn.
      rewrite bool_decide_eq_false_2; [done | congruence].
    + rewrite iter_peek_expired by lia. by rewrite getCompletionResult_cleared.
Qed.

Lemma stored_result_served_four_times_witness :
  let peek := fun m => snd (Legacy.getCompletionResult "file:///notes.md" m) in
  fst (Legacy.getCompletionResult "file:///notes.md"
         (Nat.iter 3 peek storedManager)) = Some [sampleItem]
  /\ fst (Legacy.getCompletionResult "file:///notes.md"
            (Nat.iter 4 peek storedManager)) = None
  /\ fst (Legacy.getCompletionResult "file:///other.md"
            (Nat.iter 1 peek storedManager)) = None.
Proof.
  intros peek.
  pose proof (stored_result_served_four_times Legacy.initialManager
                "file:///notes.md" [sampleItem]) as (Hserved & Hexpired & Hother).
  split; [| split].
  - apply (Hserved 3). lia.
  - apply (Hexpired 4). lia.
  - change (fst (Legacy.getCompletionResult "file:///other.md"
                   (Nat.iter 1 peek storedManager)))
      with (fst (Legacy.getCompletionResult "file:///other.md"
                   (Nat.iter 1 (fun m => snd (Legacy.getCompletionResult
                                                "file:///notes.md" m))
                      (Legacy.setCompletionResult "file:///notes.md" [sampleItem]
                         Legacy.initialManager)))).
    rewrite (Hother 1 "file:///other.md"); [reflexivity | discriminate].
Defined.

(** X16.  The last completion text is the text of the first item of the
    latest result that had a non-empty one: storing a result without such an
    item keeps the text, and so does every sequence of the other calls on the
    manager (handing out the result, dropping it after the fourth call,
    clearing it, setting and consuming the pending request). *)
Theorem last_completion_text_kept
    (m : Legacy.CompletionTriggerManager) (uri : string)
    (items : list InlineCompletionItem) (ops : list LegacyRun.ManagerOp) :
  Legacy.getLastCompletionText
    (foldl LegacyRun.managerStep (Legacy.setCompletionResult uri items m) ops)
  = match items with
    | item :: _ =>
        match insertText item with
        | EmptyString => Legacy.getLastCompletionText m
        | String _ _ => Some (insertText item)
        end
    | [] => Legacy.getLastCompletionText m
    end.
Proof.
  assert (forall m0,
            Legacy.getLastCompletionText (foldl LegacyRun.managerStep m0 ops)
            = Legacy.getLastCompletionText m0) as Hkept.
  { induction ops as [|op ops IH]; intros m0; [done |].
    cbn [foldl]. rewrite IH. apply managerStep_lastCompletionText. }
  rewrite Hkept. unfold Legacy.getLastCompletionText, Legacy.setCompletionResult.
  cbn. destruct items as [|item rest]; [done |].
  by destruct (insertText item).
Qed.

(** X17.  A run of the trigger command of the stored-result variant on a
    markdown editor calls the model first and asks the host to call the
    provider only after a non-empty answer: the answer is then stored as one
    item with an empty range at the trigger position, and the provider
    returns it for the document.  After an empty or failed answer the host is
    not asked and the manager is as it was, so a result stored by an earlier
    run is still handed out. *)
Theorem legacy_trigger_run
    (openTextDocument : string -> Exc string) (sdk : Sdk) (config : Config)
    (document : TextDocument) (pos : Position) (w : LegacyRun.World) :
  languageId document = "markdown" ->
  let prompt :=
    builtPrompt openTextDocument (LegacyRun.settingsManager w) document pos config in
  let completion := completionOf sdk prompt config in
  let w' := LegacyRun.triggerCompletion openTextDocument sdk (Some (document, pos))
              config w in
  (completion = None ->
   LegacyRun.triggerManager w' = LegacyRun.triggerManager w
   /\ LegacyRun.events w'
      = LegacyRun.events w ++ [EvStatus "Fetching..."]
        ++ fst (getCompletion sdk prompt config) ++ [EvStatus "No completion"])
  /\ (forall s, completion = Some s ->
        let item := {| insertText := s; range := Some (pos, pos) |} in
        LegacyRun.triggerManager w'
        = Legacy.setCompletionResult (uri document) [item] (LegacyRun.triggerManager w)
        /\ (forall pos',
              fst (Legacy.provideInlineCompletionItems document pos'
                     (LegacyRun.triggerManager w')) = Some [item])
        /\ LegacyRun.events w'
           = LegacyRun.events w ++ [EvStatus "Fetching..."]
             ++ fst (getCompletion sdk prompt config)
             ++ [EvInlineSuggestTriggered; EvStatus "Ready - Tab to accept"]).
Proof.
  intros Hlang prompt completion w'.
  assert (w' = let '(evs, outcome) := getCompletion sdk prompt config in
               let w2 := {| LegacyRun.settingsManager :=
                              fst (getSettings (uri document) (LegacyRun.settingsManager w));
                            LegacyRun.triggerManager := LegacyRun.triggerManager w;
                            LegacyRun.events :=
                              (LegacyRun.events w ++ [EvStatus "Fetching..."]) ++ evs |} in
               match outcome with
               | Thrown _ => w2
               | Returned (Some (String c s)) =>
                   LegacyRun.setStatus "Ready - Tab to accept"
                     {| LegacyRun.settingsManager := LegacyRun.settingsManager w2;
                        LegacyRun.triggerManager :=
                          Legacy.setCompletionResult (uri document)
                            [{| insertText := String c s; range := Some (pos, pos) |}]
                            (LegacyRun.triggerManager w2);
                        LegacyRun.events :=
                          LegacyRun.events w2 ++ [EvInlineSuggestTriggered] |}
               | Returned _ => LegacyRun.setStatus "No completion" w2
               end) as Hw'.
  { subst w'. unfold LegacyRun.triggerCompletion.
    rewrite bool_decide_eq_true_2 by done. cbn [negb].
    pose proof (buildPrompt_returns openTextDocument (LegacyRun.settingsManager w)
                  document pos
                  (configGet (cfgDefaultPromptTemplate config) builtinTemplate))
      as Hprompt.
    pose proof (buildPrompt_settings openTextDocument (LegacyRun.settingsManager w)
                  document pos
                  (configGet (cfgDefaultPromptTemplate config) builtinTemplate))
      as Hsettings.
    cbn [LegacyRun.setStatus LegacyRun.settingsManager].
    destruct (buildPrompt openTextDocument (LegacyRun.settingsManager w) document pos
                (configGet (cfgDefaultPromptTemplate config) builtinTemplate))
      as [settings' built].
    cbn [fst snd] in Hprompt, Hsettings. subst settings' built.
    fold (builtPrompt openTextDocument (LegacyRun.settingsManager w) document pos
            config). fold prompt.
    unfold mbind, Eff_bind, liftExc. cbn [fst snd app].
    by destruct (getCompletion sdk prompt config) as [evs outcome]. }
  pose proof (getCompletion_completionOf sdk config prompt) as Hc.
  fold completion in Hc.
  destruct (getCompletion sdk prompt config) as [evs outcome] eqn:Hget.
  cbn [fst snd] in Hc |- *. subst outcome. cbv zeta in Hw'.
  split.
  - intros Hnone. rewrite Hnone in Hw'. rewrite Hw'.
    unfold LegacyRun.setStatus. cbn. by rewrite <- !app_assoc.
  - intros s Hsome. rewrite Hsome in Hw'.
    assert (s <> EmptyString) as Hs.
    { intros Hempty. subst s. by apply (completionOf_nonempty sdk prompt config). }
    destruct s as [|ch s]; [done |]. rewrite Hw'.
    unfold LegacyRun.setStatus. cbn.
    split; [done |]. split; [| by rewrite <- !app_assoc].
    intros pos'. unfold Legacy.provideInlineCompletionItems.
    rewrite bool_decide_eq_true_2 by done. cbn [negb].
    unfold Legacy.getCompletionResult, Legacy.setCompletionResult. cbn.
    by rewrite bool_decide_eq_true_2.
Qed.

(** The model answers ["baz"]; and the model fails while an earlier result
    is stored. *)
Lemma legacy_trigger_run_witness :
  fst (Legacy.provideInlineCompletionItems (sampleDocument "foobar") samplePosition
         (LegacyRun.triggerManager
            (LegacyRun.triggerCompletion noFiles answeringSdk
               (Some (sampleDocument "foobar", samplePosition)) sampleConfig
               (legacyWorld Legacy.initialManager))))
  = Some [sampleItem]
  /\ LegacyRun.triggerManager
       (LegacyRun.triggerCompletion noFiles failingSdk
          (Some (sampleDocument "foobar", samplePosition)) sampleConfig
          (legacyWorld storedManager))
     = storedManager.
Proof.
  pose proof (legacy_trigger_run noFiles answeringSdk sampleConfig
                (sampleDocument "foobar") samplePosition
                (legacyWorld Legacy.initialManager) eq_refl) as (_ & Hsome).
  pose proof (legacy_trigger_run noFiles failingSdk sampleConfig
                (sampleDocument "foobar") samplePosition
                (legacyWorld storedManager) eq_refl) as (Hnone & _).
  split.
  - destruct (Hsome "baz" eq_refl) as (_ & Hprovider & _).
    exact (Hprovider samplePosition).
  - destruct (Hnone eq_refl) as [Hsame _]. exact Hsame.
Defined.

(** * The first variant *)

(** X18.  In the first variant a stored result is handed out once: the
    first call of the provider for the markdown document it was stored for
    returns it and empties the store, the second returns null; a call for
    another document returns null and leaves the store as it is. *)
Theorem initial_result_served_once
    (m : Initial.CompletionTriggerManager) (items : list InlineCompletionItem)
    (document other : TextDocument) (pos : Position) :
  languageId document = "markdown" ->
  uri other <> uri document ->
  let stored := Initial.setCompletionResult (uri document) items m in
  fst (Initial.provideInlineCompletionItems document pos stored) = Some items
  /\ Initial.completionResult
       (snd (Initial.provideInlineCompletionItems document pos stored)) = None
  /\ fst (Initial.provideInlineCompletionItems document pos
            (snd (Initial.provideInlineCompletionItems document pos stored))) = None
  /\ Initial.provideInlineCompletionItems other pos stored = (None, stored).
Proof.
  intros Hlang Hother stored. subst stored.
  unfold Initial.provideInlineCompletionItems, Initial.getCompletionResult,
    Initial.setCompletionResult.
  rewrite (bool_decide_eq_true_2 (languageId document = "markdown")) by done.
  cbn [negb Initial.completionDocUri Initial.completionResult
       Initial.pendingCompletion].
  rewrite (bool_decide_eq_true_2 (Some (uri document) = Some (uri document)))
    by done.
  cbn [fst snd Initial.completionDocUri Initial.completionResult].
  rewrite (bool_decide_eq_false_2 (None = Some (uri document))) by done.
  split; [done |]. split; [done |]. split; [done |].
  destruct (bool_decide (languageId other = "markdown")); cbn [negb]; [| done].
  rewrite bool_decide_eq_false_2; [done | congruence].
Qed.

Lemma initial_result_served_once_witness :
  let stored := Initial.setCompletionResult "file:///notes.md" [sampleItem]
                  Initial.initialManager in
  fst (Initial.provideInlineCompletionItems (sampleDocument "foobar") samplePosition
         stored) = Some [sampleItem]
  /\ fst (Initial.provideInlineCompletionItems (sampleDocument "foobar")
            samplePosition
            (snd (Initial.provideInlineCompletionItems (sampleDocument "foobar")
                    samplePosition stored))) = None.
Proof.
  intros stored.
  pose proof (initial_result_served_once Initial.initialManager [sampleItem]
                (sampleDocument "foobar")
                {| uri := "file:///b.md"; languageId := "markdown"; getText := "xy" |}
                samplePosition eq_refl ltac:(discriminate))
    as (Hfirst & _ & Hsecond & _).
  split; [exact Hfirst | exact Hsecond].
Defined.

(** X19.  [getCompletion] over [fetch]: without a non-empty endpoint and a
    non-empty key no request is sent, a warning is shown and the answer is
    null.  Otherwise exactly one request is sent, to the endpoint, with the
    key as bearer token and the prompt as content.  The answer is a text
    exactly when the response is OK, its body parses and the first choice
    holds that text, not empty; when [fetch] fails or the response is not OK
    the answer is null and an error notice is shown. *)
Theorem fetch_getCompletion
    (fetch : Initial.Request -> Exc Initial.Response)
    (prompt : string) (config : Initial.ApiConfig) :
  let result := Initial.getCompletion fetch prompt config in
  let request :=
    {| Initial.reqUrl := default EmptyString (Initial.apiEndpoint config);
       Initial.reqAuthorization :=
         "Bearer " +:+ default EmptyString (Initial.apiKey config);
       Initial.reqModel := configGet (Initial.apiModel config) "gpt-4";
       Initial.reqContent := prompt;
       Initial.reqMaxTokens := configGet (Initial.apiMaxTokens config) 150 |} in
  (truthy (Initial.apiEndpoint config) && truthy (Initial.apiKey config) = false ->
   result
   = ([Initial.Warning
         "Complementry: Please configure API endpoint and key in settings"],
      [], Returned None))
  /\ (truthy (Initial.apiEndpoint config) && truthy (Initial.apiKey config) = true ->
      snd (fst result) = [request]
      /\ (forall s,
            snd result = Returned (Some s)
            <-> exists response data,
                  fetch request = Returned response
                  /\ Initial.ok response = true
                  /\ Initial.json response = Returned data
                  /\ Initial.firstContent data = Some s
                  /\ s <> EmptyString)
      /\ (forall response,
            fetch request = Returned response -> Initial.ok response = false ->
            result
            = ([Initial.Error ("Complementry: Error: API request failed: "
                               +:+ Initial.statusText response)],
               [request], Returned None))
      /\ (forall error,
            fetch request = Thrown error ->
            result = ([Initial.Error ("Complementry: " +:+ error)], [request],
                      Returned None))).
Proof.
  intros result request. subst result. unfold Initial.getCompletion.
  fold request.
  destruct (truthy (Initial.apiEndpoint config)) eqn:He;
    destruct (truthy (Initial.apiKey config)) eqn:Hk; cbn [negb orb andb];
    try (split; [done | done]).
  split; [done |]. intros _. unfold bindExc.
  destruct (fetch request) as [response|e] eqn:Hf.
  - destruct (Initial.ok response) eqn:Hok; cbn [negb].
    + destruct (Initial.json response) as [data|e] eqn:Hj.
      * split; [done |]. split; [| split; [| done]].
        -- intros s. cbn [snd]. split.
           ++ intros [= Hs]. exists response, data.
              unfold orNull, truthy in Hs.
              destruct (Initial.firstContent data) as [[|ch t]|]; try done.
              injection Hs as <-. done.
           ++ intros (response' & data' & [= <-] & _ & Hj' & Hc & Hs).
              rewrite Hj in Hj'. injection Hj' as <-.
              rewrite Hc. unfold orNull, truthy. by destruct s.
        -- intros response' [= <-] Hok'. congruence.
      * split; [done |]. split; [| split; [| done]].
        -- intros s. cbn [snd]. split; [done |].
           intros (response' & data' & [= <-] & _ & Hj' & _). congruence.
        -- intros response' [= <-] Hok'. congruence.
    + split; [done |]. split; [| split; [| done]].
      * intros s. cbn [snd]. split; [done |].
        intros (response' & data' & [= <-] & Hok' & _). congruence.
      * intros response' [= <-] _. done.
  - split; [done |]. split; [| split].
    + intros s. cbn [snd]. split; [done |].
      intros (response' & data' & Hf' & _). congruence.
    + intros response' Hf'. congruence.
    + intros error [= <-]. done.
Qed.

Lemma fetch_getCompletion_witness :
  Initial.getCompletion answeringFetch "foo"
    {| Initial.apiEndpoint := Some "https://api.example.test/v1/chat";
       Initial.apiKey := None; Initial.apiModel := None;
       Initial.apiMaxTokens := None |}
  = ([Initial.Warning
        "Complementry: Please configure API endpoint and key in settings"],
     [], Returned None)
  /\ snd (Initial.getCompletion answeringFetch "foo" sampleApiConfig)
     = Returned (Some "baz")
  /\ fst (fst (Initial.getCompletion refusingFetch "foo" sampleApiConfig))
     = [Initial.Error "Complementry: Error: API request failed: Unauthorized"]
  /\ snd (Initial.getCompletion (fun _ => Thrown "TypeError: fetch failed") "foo"
            sampleApiConfig)
     = Returned None.
Proof.
  pose proof (fetch_getCompletion answeringFetch "foo"
                {| Initial.apiEndpoint := Some "https://api.example.test/v1/chat";
                   Initial.apiKey := None; Initial.apiModel := None;
                   Initial.apiMaxTokens := None |}) as (Hmissing & _).
  pose proof (fetch_getCompletion answeringFetch "foo" sampleApiConfig)
    as (_ & Hanswer).
  pose proof (fetch_getCompletion refusingFetch "foo" sampleApiConfig)
    as (_ & Hrefused).
  pose proof (fetch_getCompletion (fun _ => Thrown "TypeError: fetch failed") "foo"
                sampleApiConfig) as (_ & Hfailed).
  split; [exact (Hmissing eq_refl) |].
  split.
  { destruct (Hanswer eq_refl) as (_ & Hiff & _).
    apply (Hiff "baz"). eexists _, _. repeat split. discriminate. }
  split.
  { destruct (Hrefused eq_refl) as (_ & _ & Hnotok & _).
    rewrite (Hnotok _ eq_refl eq_refl). reflexivity. }
  destruct (Hfailed eq_refl) as (_ & _ & _ & Hthrown).
  rewrite (Hthrown _ eq_refl). reflexivity.
Defined.

(** * The test runner *)

Section RunnerFacts.

Lemma takeChars_append (a rest : string) :
  takeChars (String.length a) (a +:+ rest) = a.
Proof. induction a as [|c a IH]; cbn; [by destruct rest | by rewrite IH]. Qed.

Lemma dropChars_append_more (a rest : string) (n : nat) :
  dropChars (String.length a + n) (a +:+ rest) = dropChars n rest.
Proof. induction a as [|c a IH]; cbn; done. Qed.

(** [indexOfFrom] finds the first occurrence, or none at all. *)
Lemma indexOfFrom_spec (pat s : string) : forall i,
  (Runner.indexOfFrom i pat s = (-1)%Z /\ forall a b, s <> a +:+ pat +:+ b)
  \/ (exists a b,
        s = a +:+ pat +:+ b
        /\ Runner.indexOfFrom i pat s = (i + Z.of_nat (String.length a))%Z
        /\ forall a' b', s = a' +:+ pat +:+ b' ->
             String.length a <= String.length a').
Proof.
  induction s as [|c s IH]; intros i.
  - cbn [Runner.indexOfFrom].
    destruct (startsWith pat EmptyString) eqn:Hstart.
    + right. apply startsWith_iff in Hstart as [b Hb].
      exists EmptyString, b. cbn. split; [done |]. split; [lia |]. intros; lia.
    + left. split; [done |]. intros a b Hab.
      destruct a as [|c a]; [| discriminate Hab]. cbn in Hab.
      assert (startsWith pat EmptyString = true) as Ht
        by (apply startsWith_iff; by exists b).
      congruence.
  - cbn [Runner.indexOfFrom].
    destruct (startsWith pat (String c s)) eqn:Hstart.
    + right. apply startsWith_iff in Hstart as [b Hb].
      exists EmptyString, b. cbn. split; [done |]. split; [lia |]. intros; lia.
    + assert (forall a b, String c s = a +:+ pat +:+ b ->
                exists a', a = String c a' /\ s = a' +:+ pat +:+ b) as Hshift.
      { intros a b Hab. destruct a as [|c' a].
        - cbn in Hab.
          assert (startsWith pat (String c s) = true) as Ht
            by (apply startsWith_iff; by exists b).
          congruence.
        - cbn in Hab. injection Hab as <- ->. by exists a. }
      destruct (IH (i + 1)%Z) as [[Hnone Hno] | (a & b & Hs & Hidx & Hfirst)].
      * left. split; [done |]. intros a b Hab.
        destruct (Hshift a b Hab) as (a' & _ & Hs). by apply (Hno a' b).
      * right. exists (String c a), b. cbn. split; [by rewrite Hs |].
        split; [rewrite Hidx; lia |].
        intros a' b' Hab. destruct (Hshift a' b' Hab) as (a'' & -> & Hs').
        cbn. specialize (Hfirst a'' b' Hs'). lia.
Qed.

Lemma replaceFirstFrom_inert (pat rep s : string) :
  inertFor pat s = true ->
  forall scanned rest,
    Runner.replaceFirstFrom pat rep scanned (s +:+ rest)
    = s +:+ Runner.replaceFirstFrom pat rep (scanned +:+ s) rest.
Proof.
  induction s as [|c s IH]; intros Hs scanned rest.
  - cbn. by rewrite append_nil_r.
  - cbn in Hs. apply andb_prop in Hs as [Hc Hs].
    change (String c s +:+ rest) with (String c (s +:+ rest)).
    cbn [Runner.replaceFirstFrom].
    change (String c (s +:+ rest)) with (String c s +:+ rest) at 1.
    rewrite (clash_startsWith _ _ rest Hc).
    rewrite (IH Hs). cbn. by rewrite append_assoc.
Qed.

Lemma replaceFirstFrom_match (a : ascii) (p rep scanned rest : string) :
  Runner.replaceFirstFrom (String a p) rep scanned (String a p +:+ rest)
  = getSubstitution (String a p) scanned rest rep +:+ rest.
Proof.
  change (String a p +:+ rest) with (String a (p +:+ rest)).
  cbn [Runner.replaceFirstFrom].
  change (String a (p +:+ rest)) with (String a p +:+ rest).
  by rewrite startsWith_append, dropChars_append.
Qed.

(** The first occurrence of a pattern behind inert text is replaced. *)
Lemma replaceFirst_first (a : ascii) (p rep pre rest : string) :
  inertFor (String a p) pre = true -> dollarFree rep = true ->
  Runner.replaceFirst (String a p) rep (pre +:+ String a p +:+ rest)
  = pre +:+ rep +:+ rest.
Proof.
  intros Hpre Hrep. unfold Runner.replaceFirst.
  rewrite (replaceFirstFrom_inert _ _ _ Hpre), replaceFirstFrom_match.
  by rewrite getSubstitution_dollarFree.
Qed.

End RunnerFacts.

(** X20.  [findCursorPosition] cuts the content at the FIRST occurrence of
    the marker [[CURSOR_HERE]]: the content is the part before, the marker
    and the part after, and no occurrence starts earlier.  It reports no
    marker exactly when the marker occurs nowhere, and then the part before
    is the whole content and the part after is empty. *)
Theorem findCursorPosition_split (content : string) :
  let info := Runner.findCursorPosition content in
  (Runner.hasMarker info = true ->
   content = Runner.before info +:+ Runner.MARKER +:+ Runner.after info
   /\ forall a b, content = a +:+ Runner.MARKER +:+ b ->
        String.length (Runner.before info) <= String.length a)
  /\ (Runner.hasMarker info = false ->
      Runner.before info = content
      /\ Runner.after info = EmptyString
      /\ forall a b, content <> a +:+ Runner.MARKER +:+ b)
  /\ (Runner.hasMarker info = true
      <-> exists a b, content = a +:+ Runner.MARKER +:+ b).
Proof.
  intros info. subst info. unfold Runner.findCursorPosition, Runner.indexOf.
  destruct (indexOfFrom_spec Runner.MARKER content 0)
    as [[Hnone Hno] | (a & b & Hs & Hidx & Hfirst)].
  - rewrite Hnone. cbn [Z.eqb negb Pos.eqb Runner.hasMarker Runner.before
                        Runner.after].
    split; [done |]. split; [done |].
    split; [done |]. intros (a & b & Hab). by destruct (Hno a b).
  - rewrite Hidx.
    replace (negb (0 + Z.of_nat (String.length a) =? -1)%Z) with true
      by (symmetry; apply negb_true_iff, Z.eqb_neq; lia).
    cbn [Runner.hasMarker Runner.before Runner.after].
    replace (Z.to_nat (0 + Z.of_nat (String.length a))) with (String.length a)
      by lia.
    replace (Z.to_nat (0 + Z.of_nat (String.length a)
                       + Z.of_nat (String.length Runner.MARKER)))
      with (String.length a + String.length Runner.MARKER) by lia.
    subst content.
    rewrite takeChars_append, dropChars_append_more, dropChars_append.
    split; [intros _; split; [done | exact Hfirst] |].
    split; [done |]. split; [intros _; by exists a, b | done].
Qed.

Lemma findCursorPosition_split_witness :
  Runner.findCursorPosition "ab[CURSOR_HERE]cd[CURSOR_HERE]e"
  = {| Runner.before := "ab"; Runner.after := "cd[CURSOR_HERE]e";
       Runner.hasMarker := true |}
  /\ "ab[CURSOR_HERE]cd[CURSOR_HERE]e"
     = Runner.before (Runner.findCursorPosition "ab[CURSOR_HERE]cd[CURSOR_HERE]e")
       +:+ Runner.MARKER
       +:+ Runner.after (Runner.findCursorPosition "ab[CURSOR_HERE]cd[CURSOR_HERE]e")
  /\ Runner.before (Runner.findCursorPosition "no [CURSOR HERE] marker")
     = "no [CURSOR HERE] marker".
Proof.
  pose proof (findCursorPosition_split "ab[CURSOR_HERE]cd[CURSOR_HERE]e")
    as (Hfound & _).
  pose proof (findCursorPosition_split "no [CURSOR HERE] marker")
    as (_ & Hmissing & _).
  split; [reflexivity |].
  split; [exact (proj1 (Hfound eq_refl)) | exact (proj1 (Hmissing eq_refl))].
Defined.

(** X21.  The prompt of the test runner, for a document without dollar
    signs.  Without context it is the simple template with the document in
    the place of [{document}].  With a context that has no dollar sign and
    in which no [{document}] can start, it is the context template with the
    context and the document in their places.  With a context that holds
    [{document}] itself, the document is put into the context, at the first
    such place, and the [{document}] of the template stays in the prompt. *)
Theorem runTestPrompt_shape (context document : string) :
  dollarFree document = true ->
  (context = EmptyString ->
   Runner.runTestPrompt context document
   = simpleHead +:+ document +:+ templateTail)
  /\ (context <> EmptyString -> dollarFree context = true ->
      inertFor "{document}" context = true ->
      Runner.runTestPrompt context document
      = contextHead +:+ context +:+ contextMiddle +:+ document +:+ templateTail)
  /\ (forall c1 c2,
        context = c1 +:+ "{document}" +:+ c2 -> dollarFree context = true ->
        inertFor "{document}" c1 = true ->
        Runner.runTestPrompt context document
        = contextHead +:+ c1 +:+ document +:+ c2 +:+ contextMiddle
          +:+ "{document}" +:+ templateTail).
Proof.
  intros Hdoc.
  assert (forall ctx, dollarFree ctx = true ->
            Runner.replaceFirst "{context_files}" ctx Runner.TEMPLATE_WITH_CONTEXT
            = contextHead +:+ ctx +:+ contextMiddle +:+ "{document}" +:+ templateTail)
    as Hctx.
  { intros ctx Hc.
    change Runner.TEMPLATE_WITH_CONTEXT
      with (contextHead +:+ "{context_files}"
            +:+ (contextMiddle +:+ "{document}" +:+ templateTail)).
    by rewrite replaceFirst_first. }
  split; [| split].
  - intros ->. unfold Runner.runTestPrompt. cbn [truthy].
    change Runner.TEMPLATE_SIMPLE
      with (simpleHead +:+ "{document}" +:+ templateTail).
    by rewrite replaceFirst_first.
  - intros Hne Hc Hinert. unfold Runner.runTestPrompt.
    replace (truthy (Some context)) with true by (by destruct context).
    rewrite (Hctx context Hc).
    rewrite <- (append_assoc context), <- (append_assoc contextHead).
    rewrite replaceFirst_first; [| | done].
    + by rewrite !append_assoc.
    + by repeat apply inertFor_append.
  - intros c1 c2 -> Hc Hinert. unfold Runner.runTestPrompt.
    replace (truthy (Some (c1 +:+ "{document}" +:+ c2))) with true
      by (by destruct c1).
    rewrite (Hctx _ Hc). rewrite !append_assoc.
    rewrite <- (append_assoc contextHead c1).
    rewrite replaceFirst_first; [| | done].
    + by rewrite !append_assoc.
    + by apply inertFor_append.
Qed.

Lemma runTestPrompt_shape_witness :
  Runner.runTestPrompt EmptyString "# Title"
  = simpleHead +:+ "# Title" +:+ templateTail
  /\ Runner.runTestPrompt "notes" "# Title"
     = contextHead +:+ "notes" +:+ contextMiddle +:+ "# Title" +:+ templateTail
  /\ Runner.runTestPrompt "use {document} here" "# Title"
     = contextHead +:+ "use " +:+ "# Title" +:+ " here" +:+ contextMiddle
       +:+ "{document}" +:+ templateTail.
Proof.
  pose proof (runTestPrompt_shape EmptyString "# Title" eq_refl) as (Hsimple & _).
  pose proof (runTestPrompt_shape "notes" "# Title" eq_refl) as (_ & Hcontext & _).
  pose proof (runTestPrompt_shape "use {document} here" "# Title" eq_refl)
    as (_ & _ & Hleak).
  split; [exact (Hsimple eq_refl) |].
  split; [apply Hcontext; [discriminate | reflexivity | reflexivity] |].
  exact (Hleak "use " " here" eq_refl eq_refl eq_refl).
Defined.

(** * Context files and the settings together *)

Lemma loadedContext_app (openTextDocument : string -> Exc string)
    (l1 l2 : list string) :
  loadedContext openTextDocument (l1 ++ l2)
  = loadedContext openTextDocument l1 +:+ loadedContext openTextDocument l2.
Proof.
  induction l1 as [|f l1 IH]; cbn [loadedContext app]; [done |].
  destruct (openTextDocument f); [| done].
  by rewrite IH, append_assoc.
Qed.

(** X22.  Adding a context file that is not listed yet puts its block at the
    end of the context of the next prompt and leaves the text before it as it
    was; when the file cannot be read the context is as before.  Adding a
    file that is listed changes nothing in the context. *)
Theorem addContextFile_context
    (openTextDocument : string -> Exc string)
    (settings : gmap string DocumentSettings) (d p : string) :
  let old := loadedContext openTextDocument (contextFiles (settingsOf d settings)) in
  let new :=
    loadedContext openTextDocument
      (contextFiles (settingsOf d (addContextFile d p settings))) in
  (p ∈ contextFiles (settingsOf d settings) -> new = old)
  /\ (p ∉ contextFiles (settingsOf d settings) ->
      (forall text, openTextDocument p = Returned text ->
         new = old +:+ contextBlock p text)
      /\ (forall e, openTextDocument p = Thrown e -> new = old)).
Proof.
  intros old new. subst old new. rewrite addContextFile_contextFiles.
  unfold includes. split.
  - intros Hin. by rewrite bool_decide_eq_true_2.
  - intros Hout. rewrite bool_decide_eq_false_2 by done.
    rewrite loadedContext_app. cbn [loadedContext]. split.
    + intros text ->. by rewrite append_nil_r.
    + intros e ->. by rewrite append_nil_r.
Qed.

Lemma addContextFile_context_witness :
  loadedContext sampleFiles
    (contextFiles
       (settingsOf "file:///notes.md"
          (addContextFile "file:///notes.md" "/ctx/a.md"
             (addContextFile "file:///notes.md" "/ctx/gone.md" ∅))))
  = contextBlock "/ctx/a.md" "alpha"
  /\ loadedContext sampleFiles
       (contextFiles
          (settingsOf "file:///notes.md"
             (addContextFile "file:///notes.md" "/ctx/gone.md" ∅)))
     = EmptyString.
Proof.
  pose proof (addContextFile_context sampleFiles
                (addContextFile "file:///notes.md" "/ctx/gone.md" ∅)
                "file:///notes.md" "/ctx/a.md") as (_ & Hnew).
  pose proof (addContextFile_context sampleFiles ∅
                "file:///notes.md" "/ctx/gone.md") as (_ & Hgone).
  assert (forall (x y : string), x <> y -> x ∉ [y]) as Hsingle.
  { intros x y Hne Hin. apply list_elem_of_singleton in Hin. done. }
  split.
  - assert (("/ctx/a.md" : string) <> "/ctx/gone.md") as Hne by discriminate.
    destruct (Hnew (Hsingle _ _ Hne)) as [Hread _].
    exact (Hread "alpha" eq_refl).
  - destruct (Hgone (not_elem_of_nil _)) as [_ Hfail].
    exact (Hfail "ENOENT" eq_refl).
Defined.
